(** * bubbletea-menubar: navigation state machine, geometry and overlay

    A shallow embedding of the [menubar] package (the version with
    separators and disabled entries) together with the properties
    stated about it.

    Go values are modelled as follows.
    - [int] is a 64-bit two's-complement integer: a [Z] on which every
      addition and subtraction is wrapped by [wrap].
    - [string] is a byte sequence: Rocq's [string] (a list of 8-bit
      [ascii]).  Ranging over a string visits the UTF-8 rune starts.
    - a slice is a [list]; indexing out of range panics.
    - a method with a pointer receiver that updates the receiver in
      place becomes a function returning the updated receiver.  The
      open child of a node is held through a pointer and hit-testing
      updates it in place; here the updated child is returned inside
      the updated parent.  (The value that the caller passed in shares
      that child; the host keeps the returned value only.)
    - a run-time panic is the result [Panic]; a loop that is not
      structurally bounded takes fuel and may answer [OutOfFuel].
    - a loop with a [return] in its body becomes a search for the
      first element on which the body returns, followed by that body.

    The style engine (lipgloss), the Unicode functions of Go's
    [strings] package and the host's message type are external to the
    package; they are the fields of the class [Env]. *)

From Stdlib Require Import ZArith List String Ascii Bool Lia.
Import ListNotations.

Set Warnings "-register-all".

Local Open Scope string_scope.
Local Open Scope Z_scope.

(** ** Results of partial computations *)

Inductive res (A : Type) : Type :=
| Ok (a : A)
| Panic
| OutOfFuel.

Arguments Ok {A} a.
Arguments Panic {A}.
Arguments OutOfFuel {A}.

Definition bind {A B : Type} (c : res A) (k : A -> res B) : res B :=
  match c with
  | Ok a => k a
  | Panic => Panic
  | OutOfFuel => OutOfFuel
  end.

Notation "x <- c ;; k" := (bind c (fun x => k))
  (at level 61, c at next level, right associativity).
Notation "' p <- c ;; k" := (bind c (fun x => let 'p := x in k))
  (at level 61, p pattern, c at next level, right associativity).

(** ** Go's [int] *)

Definition max_int : Z := 2 ^ 63 - 1.
Definition min_int : Z := - 2 ^ 63.

Definition wrap (z : Z) : Z := (z + 2 ^ 63) mod 2 ^ 64 - 2 ^ 63.

Definition iadd (a b : Z) : Z := wrap (a + b).
Definition isub (a b : Z) : Z := wrap (a - b).

Definition fits (z : Z) : Prop := min_int <= z <= max_int.

(** ** Slices and strings *)

Definition len {A : Type} (l : list A) : Z := Z.of_nat (List.length l).

Definition index {A : Type} (l : list A) (i : Z) : res A :=
  if i <? 0 then Panic
  else match nth_error l (Z.to_nat i) with
       | Some a => Ok a
       | None => Panic
       end.

Definition slen (s : string) : Z := Z.of_nat (String.length s).

(** [s[a:b]] *)
Definition slice (s : string) (a b : Z) : res string :=
  if (0 <=? a) && (a <=? b) && (b <=? slen s)
  then Ok (substring (Z.to_nat a) (Z.to_nat (b - a)) s)
  else Panic.

(** [s[:i]] and [s[i:]] at an offset known to be in range *)
Definition take (i : nat) (s : string) : string := substring 0 i s.
Definition drop (i : nat) (s : string) : string :=
  substring i (String.length s - i) s.

Fixpoint spaces (n : nat) : string :=
  match n with
  | O => ""
  | S k => String " " (spaces k)
  end.

(** [strings.Repeat(" ", n)] *)
Definition Repeat_space (n : Z) : res string :=
  if n <? 0 then Panic else Ok (spaces (Z.to_nat n)).

(** [strings.Index] *)
Definition strings_Index (s substr : string) : Z :=
  match String.index 0 substr s with
  | Some i => Z.of_nat i
  | None => -1
  end.

Definition newline : ascii := ascii_of_nat 10.
Definition escape : ascii := ascii_of_nat 27.

(** [strings.Split(s, "\n")] *)
Fixpoint splitLines (s : string) : list string :=
  match s with
  | "" => [""]
  | String c r =>
      if Ascii.eqb c newline then "" :: splitLines r
      else match splitLines r with
           | l :: ls => String c l :: ls
           | [] => [String c ""]
           end
  end.

(** [strings.Join(lines, "\n")] *)
Fixpoint joinLines (lines : list string) : string :=
  match lines with
  | [] => ""
  | [l] => l
  | l :: ls => (l ++ String newline (joinLines ls))%string
  end.

(** [strings.Join(parts, "")] *)
Definition joinEmpty (parts : list string) : string :=
  fold_right String.append "" parts.

(** [l[i] = v] at an index known to be in range *)
Fixpoint setAt {A : Type} (l : list A) (i : nat) (v : A) : list A :=
  match l, i with
  | [], _ => []
  | _ :: t, O => v :: t
  | h :: t, S k => h :: setAt t k v
  end.

(** *** UTF-8 rune boundaries

    [for i := range s] steps from one rune start to the next.
    [runeSize s] is the number of bytes that Go's decoder consumes at
    the head of the non-empty string [s]: the length of a well-formed
    encoding, and 1 for a byte that starts no well-formed encoding. *)

Definition byteOf (c : ascii) : Z := Z.of_N (N_of_ascii c).

Definition within (lo hi b : Z) : bool := (lo <=? b) && (b <=? hi).

Definition continuation (s : string) : option string :=
  match s with
  | String c r => if within 128 191 (byteOf c) then Some r else None
  | "" => None
  end.

(** The entry of the decoder's table for a lead byte: the length of
    the encoding that it starts and the range accepted for the second
    byte; length 1 for a byte that starts no multi-byte encoding. *)
Definition leadByte (b0 : Z) : nat * Z * Z :=
  if within 194 223 b0 then (2%nat, 128, 191)
  else if b0 =? 224 then (3%nat, 160, 191)
  else if within 225 236 b0 || within 238 239 b0 then (3%nat, 128, 191)
  else if b0 =? 237 then (3%nat, 128, 159)
  else if b0 =? 240 then (4%nat, 144, 191)
  else if within 241 243 b0 then (4%nat, 128, 191)
  else if b0 =? 244 then (4%nat, 128, 143)
  else (1%nat, 0, 0).

(** The bytes [r] after a lead byte of an encoding of length [size]:
    the encoding is accepted when the second byte lies in [lo..hi] and
    the others are continuation bytes; otherwise the lead byte counts
    alone. *)
Definition runeTail (size : nat) (lo hi : Z) (r : string) : nat :=
  match size with
  | 1%nat => 1%nat
  | _ =>
      match r with
      | String c1 r1 =>
          if within lo hi (byteOf c1) then
            match size with
            | 2%nat => 2%nat
            | 3%nat => match continuation r1 with
                       | Some _ => 3%nat
                       | None => 1%nat
                       end
            | _ => match continuation r1 with
                   | Some r2 => match continuation r2 with
                                | Some _ => 4%nat
                                | None => 1%nat
                                end
                   | None => 1%nat
                   end
            end
          else 1%nat
      | "" => 1%nat
      end
  end.

Definition runeSize (s : string) : nat :=
  match s with
  | "" => 0
  | String c0 r =>
      let '(size, lo, hi) := leadByte (byteOf c0) in
      runeTail size lo hi r
  end.

(** *** The pattern [\x1b\[[0-9;]*m]

    [sgrTail s] matches [[0-9;]*m] at the head of [s] and returns the
    matched text. *)
Fixpoint sgrTail (s : string) : option string :=
  match s with
  | "" => None
  | String c r =>
      if within 48 57 (byteOf c) || (byteOf c =? 59) then
        match sgrTail r with
        | Some t => Some (String c t)
        | None => None
        end
      else if byteOf c =? 109 then Some (String c "")
      else None
  end.

(** The match of the pattern at the head of [s], if any. *)
Definition sgrAt (s : string) : option string :=
  match s with
  | String c0 (String c1 r) =>
      if Ascii.eqb c0 escape && (byteOf c1 =? 91) then
        match sgrTail r with
        | Some t => Some (String c0 (String c1 t))
        | None => None
        end
      else None
  | _ => None
  end.

(** [ansiRegex.FindAllString(s, -1)]: the leftmost non-overlapping
    matches.  [skip] counts the bytes of the last match still to be
    passed over. *)
Fixpoint findAllFrom (skip : nat) (s : string) : list string :=
  match s with
  | "" => []
  | String c r =>
      match skip with
      | S k => findAllFrom k r
      | O =>
          match sgrAt s with
          | Some t => t :: findAllFrom (String.length t - 1) r
          | None => findAllFrom 0 r
          end
      end
  end.

Definition FindAllString (s : string) : list string := findAllFrom 0 s.

(** ** The style configuration *)

Record Styles (S : Type) : Type := mkStyles {
  Bar : S;
  Item : S;
  SelectedItem : S;
  ShortcutStyle : S;
  Dropdown : S;
  DropdownItem : S;
  DropdownSelected : S;
  ShortcutSelected : S;
  HotkeyStyle : S;
  SeparatorStyle : S;
  DisabledStyle : S
}.

Arguments Bar {S} _.
Arguments Item {S} _.
Arguments SelectedItem {S} _.
Arguments ShortcutStyle {S} _.
Arguments Dropdown {S} _.
Arguments DropdownItem {S} _.
Arguments DropdownSelected {S} _.
Arguments ShortcutSelected {S} _.
Arguments HotkeyStyle {S} _.
Arguments SeparatorStyle {S} _.
Arguments DisabledStyle {S} _.

(** ** External collaborators *)

Class Env : Type := {
  (** [tea.Msg] *)
  Msg : Type;
  (** [lipgloss.Style] *)
  Style : Type;
  (** [style.Render(text)] *)
  Render : Style -> string -> string;
  (** [lipgloss.Width] and [lipgloss.Height] *)
  Width : string -> Z;
  Height : string -> Z;
  (** [style.GetFrameSize()], [style.GetHorizontalFrameSize()] *)
  GetFrameSize : Style -> Z * Z;
  GetHorizontalFrameSize : Style -> Z;
  (** [style.GetBorderStyle().Top] *)
  BorderTop : Style -> string;
  (** [style.Copy().UnsetPadding()] *)
  UnsetPadding : Style -> Style;
  (** [s.Copy().Inherit(base)] *)
  Inherit : Style -> Style -> Style;
  (** [style.Inline(true)] *)
  Inline : Style -> Style;
  (** [strings.EqualFold], [strings.ToLower] *)
  EqualFold : string -> string -> bool;
  ToLower : string -> string;
  (** [DefaultStyles()] *)
  DefaultStyles : Styles Style
}.

Section Menubar.

Context {E : Env}.

(** [tea.Cmd]: [None] is the nil command. *)
Definition Cmd : Type := option (unit -> Msg).

(** ** Data model *)

Inductive MenuItem : Type := mkItem {
  Label : string;
  Hotkey : string;
  Shortcut : string;
  Action : option (unit -> Msg);
  SubMenu : list MenuItem;
  IsSeparator : bool;
  Disabled : bool
}.

Definition Separator : MenuItem :=
  mkItem "" "" "" None [] true false.

Inductive Model : Type := mkModel {
  Items : list MenuItem;
  Active : bool;
  Selection : Z;
  OpenSubMenu : Z;
  SubMenuState : option Model;
  ModelStyles : Styles Style;
  isDropdown : bool
}.

Definition set_Active (m : Model) (b : bool) : Model :=
  mkModel (Items m) b (Selection m) (OpenSubMenu m) (SubMenuState m)
          (ModelStyles m) (isDropdown m).

Definition set_Selection (m : Model) (i : Z) : Model :=
  mkModel (Items m) (Active m) i (OpenSubMenu m) (SubMenuState m)
          (ModelStyles m) (isDropdown m).

Definition set_OpenSubMenu (m : Model) (i : Z) : Model :=
  mkModel (Items m) (Active m) (Selection m) i (SubMenuState m)
          (ModelStyles m) (isDropdown m).

Definition set_SubMenuState (m : Model) (c : option Model) : Model :=
  mkModel (Items m) (Active m) (Selection m) (OpenSubMenu m) c
          (ModelStyles m) (isDropdown m).

Definition set_Styles (m : Model) (st : Styles Style) : Model :=
  mkModel (Items m) (Active m) (Selection m) (OpenSubMenu m) (SubMenuState m)
          st (isDropdown m).

Definition set_isDropdown (m : Model) (b : bool) : Model :=
  mkModel (Items m) (Active m) (Selection m) (OpenSubMenu m) (SubMenuState m)
          (ModelStyles m) b.

(** [m.OpenSubMenu = -1; m.SubMenuState = nil] *)
Definition closeSubMenu (m : Model) : Model :=
  set_SubMenuState (set_OpenSubMenu m (-1)) None.

(** Input events.  Only the release and motion kinds of a pointer
    event are distinguished by the package. *)

Inductive MouseEventType : Type :=
| MouseRelease
| MouseMotion
| MouseOther.

Record MouseMsg : Type := mkMouse {
  X : Z;
  Y : Z;
  Type_ : MouseEventType
}.

Inductive TeaMsg : Type :=
| KeyMsg (key : string)
| Mouse (mm : MouseMsg)
| OtherMsg.

Definition isRelease (t : MouseEventType) : bool :=
  match t with MouseRelease => true | _ => false end.

(** ** Construction *)

Definition New (items : list MenuItem) : Model :=
  mkModel items true 0 (-1) None DefaultStyles false.

(** ** Skipping separators and disabled entries *)

Definition unselectable (it : MenuItem) : bool :=
  IsSeparator it || Disabled it.

(** The loop
    [for Items[sel].IsSeparator || Items[sel].Disabled { sel++; wrap; if sel == start { break } }] *)
Fixpoint skipForward (fuel : nat) (items : list MenuItem) (start sel : Z)
  : res Z :=
  match fuel with
  | O => OutOfFuel
  | S f =>
      it <- index items sel ;;
      if unselectable it then
        let sel := iadd sel 1 in
        let sel := if sel >=? len items then 0 else sel in
        if sel =? start then Ok sel else skipForward f items start sel
      else Ok sel
  end.

Fixpoint skipBackward (fuel : nat) (items : list MenuItem) (start sel : Z)
  : res Z :=
  match fuel with
  | O => OutOfFuel
  | S f =>
      it <- index items sel ;;
      if unselectable it then
        let sel := isub sel 1 in
        let sel := if sel <? 0 then isub (len items) 1 else sel in
        if sel =? start then Ok sel else skipBackward f items start sel
      else Ok sel
  end.

(** [Selection++], wrap to 0, then skip forward. *)
Definition moveNext (items : list MenuItem) (sel : Z) : res Z :=
  let sel := iadd sel 1 in
  let sel := if sel >=? len items then 0 else sel in
  skipForward (S (List.length items)) items sel sel.

(** [Selection--], wrap to [len-1], then skip backward. *)
Definition movePrev (items : list MenuItem) (sel : Z) : res Z :=
  let sel := isub sel 1 in
  let sel := if sel <? 0 then isub (len items) 1 else sel in
  skipBackward (S (List.length items)) items sel sel.

(** ** Opening a submenu *)

Definition openCurrentSelection (m : Model) : res Model :=
  item <- index (Items m) (Selection m) ;;
  if len (SubMenu item) >? 0 then
    let m := set_OpenSubMenu m (Selection m) in
    let sub := New (SubMenu item) in
    let sub := set_isDropdown sub true in
    let sub := set_Styles sub (ModelStyles m) in
    Ok (set_SubMenuState m (Some sub))
  else Ok m.

Definition hasOpenSubmenu (m : Model) : bool :=
  negb (OpenSubMenu m =? -1) &&
  match SubMenuState m with Some _ => true | None => false end.

Fixpoint wantsToHandleRight (m : Model) : res bool :=
  let own :=
    if len (Items m) >? 0 then
      it <- index (Items m) (Selection m) ;;
      Ok (len (SubMenu it) >? 0)
    else Ok false in
  match SubMenuState m with
  | Some c => if OpenSubMenu m =? -1 then own else wantsToHandleRight c
  | None => own
  end.

(** ** Geometry *)

Definition renderLabel (m : Model) (item : MenuItem) (baseStyle : Style)
  : res string :=
  if (Hotkey item =? "")%string || Disabled item then
    Ok (Render baseStyle (Label item))
  else
    let idx := strings_Index (Label item) (Hotkey item) in
    let idx := if idx =? -1
               then strings_Index (ToLower (Label item)) (ToLower (Hotkey item))
               else idx in
    if idx =? -1 then Ok (Render baseStyle (Label item))
    else
      pre <- slice (Label item) 0 idx ;;
      hot <- slice (Label item) idx (iadd idx (slen (Hotkey item))) ;;
      post <- slice (Label item) (iadd idx (slen (Hotkey item)))
                    (slen (Label item)) ;;
      let hotStyle := Inherit (HotkeyStyle (ModelStyles m)) baseStyle in
      let postRendered :=
        if (post =? "")%string then "" else Render (Inline baseStyle) post in
      Ok (Render baseStyle pre ++ Render hotStyle hot ++ postRendered)%string.

Definition measureItem (m : Model) (i : Z) : res Z :=
  it <- index (Items m) i ;;
  if IsSeparator it then Ok (Width (Render (Item (ModelStyles m)) "|"))
  else
    let style := if Active m && (i =? Selection m)
                 then SelectedItem (ModelStyles m)
                 else Item (ModelStyles m) in
    let baseStyle := UnsetPadding style in
    label <- renderLabel m it baseStyle ;;
    Ok (Width (Render style label)).

(** The first loop of [getDropdownDimensions]: the widest label, the
    widest shortcut hint and whether some entry has a submenu. *)
Fixpoint measureColumns (items : list MenuItem)
         (maxLabelWidth maxShortcutWidth : Z) (hasSubmenu : bool)
  : Z * Z * bool :=
  match items with
  | [] => (maxLabelWidth, maxShortcutWidth, hasSubmenu)
  | item :: rest =>
      let w := Width (Label item) in
      let maxLabelWidth := if w >? maxLabelWidth then w else maxLabelWidth in
      let sw := Width (Shortcut item) in
      let maxShortcutWidth :=
        if sw >? maxShortcutWidth then sw else maxShortcutWidth in
      let hasSubmenu :=
        if len (SubMenu item) >? 0 then true else hasSubmenu in
      measureColumns rest maxLabelWidth maxShortcutWidth hasSubmenu
  end.

Definition getDropdownDimensions (m : Model) : res (Z * Z) :=
  let '(maxLabelWidth, maxShortcutWidth, hasSubmenu) :=
    measureColumns (Items m) 0 0 false in
  let maxRightWidth :=
    if hasSubmenu && (maxShortcutWidth <? 2) then 2 else maxShortcutWidth in
  let dummyStyle := DropdownItem (ModelStyles m) in
  let innerContentWidth := iadd (iadd maxLabelWidth 2) maxRightWidth in
  pad <- Repeat_space innerContentWidth ;;
  let itemWidth := Width (Render dummyStyle pad) in
  let height := len (Items m) in
  let '(w, h) := GetFrameSize (Dropdown (ModelStyles m)) in
  Ok (iadd itemWidth w, iadd height h).

(** ** Pointer input *)

(** [for i := 0; i < m.OpenSubMenu; i++ { subX += m.measureItem(i) }],
    run for the [n] remaining indices from [i]. *)
Fixpoint barSubmenuX (m : Model) (n : nat) (i : Z) (subX : Z) : res Z :=
  match n with
  | O => Ok subX
  | S k =>
      w <- measureItem m i ;;
      barSubmenuX m k (i + 1) (iadd subX w)
  end.

(** The rows above entry [OpenSubMenu] of a dropdown. *)
Fixpoint dropdownSubmenuY (m : Model) (n : nat) (i : Z) (yOffset : Z)
  : res Z :=
  match n with
  | O => Ok yOffset
  | S k =>
      it <- index (Items m) i ;;
      let h := if IsSeparator it
               then Height (Render (SeparatorStyle (ModelStyles m)) "-")
               else Height (Render (DropdownItem (ModelStyles m)) "A") in
      dropdownSubmenuY m k (i + 1) (iadd yOffset h)
  end.

(** Origin of the open child of [m]. *)
Definition submenuOrigin (m : Model) (baseX baseY : Z) : res (Z * Z) :=
  if isDropdown m then
    '(width, _) <- getDropdownDimensions m ;;
    let subX := iadd baseX width in
    let topBorder := Height (BorderTop (Dropdown (ModelStyles m))) in
    yOffset <- dropdownSubmenuY m (Z.to_nat (OpenSubMenu m)) 0 topBorder ;;
    Ok (subX, iadd baseY yOffset)
  else
    subX <- barSubmenuX m (Z.to_nat (OpenSubMenu m)) 0 baseX ;;
    Ok (subX, iadd baseY (Height (Render (Bar (ModelStyles m)) "A"))).

(** The loop over the rows of a dropdown that was hit. *)
Fixpoint hitDropdownItem (m : Model) (msg : MouseMsg) (localY : Z)
         (items : list MenuItem) (i : nat) (currentY : Z)
  : res (bool * Cmd * Model) :=
  match items with
  | [] => Ok (true, None, m)
  | it :: rest =>
      let itemH := if IsSeparator it
                   then Height (Render (SeparatorStyle (ModelStyles m)) "-")
                   else Height (Render (DropdownItem (ModelStyles m)) "A") in
      if (localY >=? currentY) && (localY <? iadd currentY itemH) then
        if IsSeparator it || Disabled it then Ok (true, None, m)
        else
          let m := set_Selection m (Z.of_nat i) in
          match Type_ msg with
          | MouseRelease =>
              if len (SubMenu it) >? 0 then
                m' <- openCurrentSelection m ;; Ok (true, None, m')
              else
                match Action it with
                | Some a => Ok (true, Some (fun _ => a tt), m)
                | None => Ok (true, None, m)
                end
          | MouseMotion =>
              if negb (OpenSubMenu m =? -1)
                 && negb (OpenSubMenu m =? Z.of_nat i)
              then Ok (true, None, closeSubMenu m)
              else Ok (true, None, m)
          | MouseOther => Ok (true, None, m)
          end
      else hitDropdownItem m msg localY rest (S i) (iadd currentY itemH)
  end.

(** The loop over the entries of the bar when its row was hit. *)
Fixpoint hitBarItem (m : Model) (msg : MouseMsg)
         (items : list MenuItem) (i : nat) (currentX : Z)
  : res (bool * Cmd * Model) :=
  match items with
  | [] => Ok (true, None, m)
  | it :: rest =>
      w <- measureItem m (Z.of_nat i) ;;
      if (X msg >=? currentX) && (X msg <? iadd currentX w) then
        let m := set_Selection m (Z.of_nat i) in
        match Type_ msg with
        | MouseRelease =>
            let m := if negb (Active m) then set_Active m true else m in
            if len (SubMenu it) >? 0 then
              if OpenSubMenu m =? Z.of_nat i
              then Ok (true, None, closeSubMenu m)
              else m' <- openCurrentSelection m ;; Ok (true, None, m')
            else
              match Action it with
              | Some a => Ok (true, Some (fun _ => a tt), m)
              | None => Ok (true, None, m)
              end
        | MouseMotion =>
            if Active m && negb (OpenSubMenu m =? -1)
               && negb (OpenSubMenu m =? Z.of_nat i)
            then m' <- openCurrentSelection m ;; Ok (true, None, m')
            else Ok (true, None, m)
        | MouseOther => Ok (true, None, m)
        end
      else hitBarItem m msg rest (S i) (iadd currentX w)
  end.

(** Step 2 of [checkMouse]: hit-test the node itself. *)
Definition checkSelf (m : Model) (msg : MouseMsg) (baseX baseY : Z)
  : res (bool * Cmd * Model) :=
  if isDropdown m then
    '(width, height) <- getDropdownDimensions m ;;
    if (X msg >=? baseX) && (X msg <? iadd baseX width)
       && (Y msg >=? baseY) && (Y msg <? iadd baseY height)
    then
      let topBorder := Height (BorderTop (Dropdown (ModelStyles m))) in
      let localY := isub (isub (Y msg) baseY) topBorder in
      hitDropdownItem m msg localY (Items m) 0 0
    else Ok (false, None, m)
  else
    let barHeight := Height (Render (Bar (ModelStyles m)) "A") in
    if (Y msg >=? baseY) && (Y msg <? iadd baseY barHeight)
    then hitBarItem m msg (Items m) 0 baseX
    else Ok (false, None, m).

(** [checkMouse] returns whether the event was handled, the command,
    and the receiver as it was left. *)
Fixpoint checkMouse (m : Model) (msg : MouseMsg) (baseX baseY : Z)
         {struct m} : res (bool * Cmd * Model) :=
  match SubMenuState m with
  | Some c =>
      if OpenSubMenu m =? -1 then checkSelf m msg baseX baseY
      else
        '(subX, subY) <- submenuOrigin m baseX baseY ;;
        '(handled, cmd, c') <- checkMouse c msg subX subY ;;
        let m := set_SubMenuState m (Some c') in
        if handled then Ok (true, cmd, m)
        else checkSelf m msg baseX baseY
  | None => checkSelf m msg baseX baseY
  end.

Definition handleMouse (m : Model) (msg : MouseMsg) : res (Model * Cmd) :=
  '(handled, cmd, m) <- checkMouse m msg 0 0 ;;
  if negb handled && isRelease (Type_ msg) then
    Ok (closeSubMenu (set_Active m false), cmd)
  else Ok (m, cmd).

(** ** Keyboard input *)

(** One hotkey pass over the entries: the first entry that is neither
    a separator nor disabled and whose non-empty hotkey matches [key]
    under [eq]. *)
Fixpoint findHotkey (eq : string -> string -> bool) (key : string)
         (items : list MenuItem) (i : nat) : option (nat * MenuItem) :=
  match items with
  | [] => None
  | item :: rest =>
      if IsSeparator item || Disabled item then findHotkey eq key rest (S i)
      else if negb (Hotkey item =? "")%string && eq key (Hotkey item)
           then Some (i, item)
           else findHotkey eq key rest (S i)
  end.

(** The body run on a hotkey match. *)
Definition onHotkey (m : Model) (i : nat) (item : MenuItem)
  : res (Model * Cmd) :=
  let m := set_Selection m (Z.of_nat i) in
  if len (SubMenu item) >? 0 then
    m' <- openCurrentSelection m ;; Ok (m', None)
  else
    match Action item with
    | Some a => Ok (m, Some (fun _ => a tt))
    | None => Ok (m, None)
    end.

(** The [switch key] of a node without an open child. *)
Definition onKey (m : Model) (key : string) : res (Model * Cmd) :=
  if (key =? "left")%string then
    if isDropdown m then Ok (set_Active m false, None)
    else sel <- movePrev (Items m) (Selection m) ;;
         Ok (set_Selection m sel, None)
  else if (key =? "right")%string then
    if isDropdown m then
      item <- index (Items m) (Selection m) ;;
      if len (SubMenu item) >? 0 then
        m' <- openCurrentSelection m ;; Ok (m', None)
      else Ok (m, None)
    else sel <- moveNext (Items m) (Selection m) ;;
         Ok (set_Selection m sel, None)
  else if (key =? "up")%string then
    if isDropdown m then
      sel <- movePrev (Items m) (Selection m) ;;
      Ok (set_Selection m sel, None)
    else Ok (m, None)
  else if (key =? "down")%string then
    if isDropdown m then
      sel <- moveNext (Items m) (Selection m) ;;
      Ok (set_Selection m sel, None)
    else if len (Items m) >? 0 then
      m' <- openCurrentSelection m ;; Ok (m', None)
    else Ok (m, None)
  else if (key =? "enter")%string then
    if len (Items m) >? 0 then
      item <- index (Items m) (Selection m) ;;
      if Disabled item then Ok (m, None)
      else if len (SubMenu item) >? 0 then
        m' <- openCurrentSelection m ;; Ok (m', None)
      else
        match Action item with
        | Some a => Ok (m, Some (fun _ => a tt))
        | None => Ok (m, None)
        end
    else Ok (m, None)
  else if (key =? "esc")%string then
    if isDropdown m then Ok (set_Active m false, None)
    else Ok (closeSubMenu m, None)
  else Ok (m, None).

(** A key press on a node without an open child: the two hotkey
    passes, then the key switch. *)
Definition onKeyMsg (m : Model) (key : string) : res (Model * Cmd) :=
  match findHotkey String.eqb key (Items m) 0 with
  | Some (i, item) => onHotkey m i item
  | None =>
      match findHotkey EqualFold key (Items m) 0 with
      | Some (i, item) => onHotkey m i item
      | None => onKey m key
      end
  end.

(** The bar intercepting left and right while a child [c] is open;
    [None] when the event goes on to the child. *)
Definition intercept (m c : Model) (msg : TeaMsg)
  : res (option (Model * Cmd)) :=
  if isDropdown m then Ok None
  else
    match msg with
    | KeyMsg key =>
        if (key =? "left")%string then
          if negb (hasOpenSubmenu c) then
            sel <- movePrev (Items m) (Selection m) ;;
            m' <- openCurrentSelection (set_Selection m sel) ;;
            Ok (Some (m', None))
          else Ok None
        else if (key =? "right")%string then
          w <- wantsToHandleRight c ;;
          if negb w then
            sel <- moveNext (Items m) (Selection m) ;;
            m' <- openCurrentSelection (set_Selection m sel) ;;
            Ok (Some (m', None))
          else Ok None
        else Ok None
    | _ => Ok None
    end.

Fixpoint Update (m : Model) (msg : TeaMsg) {struct m} : res (Model * Cmd) :=
  match msg with
  | Mouse mouseMsg => handleMouse m mouseMsg
  | _ =>
      if negb (Active m) then Ok (m, None)
      else
        let own :=
          match msg with
          | KeyMsg key => onKeyMsg m key
          | _ => Ok (m, None)
          end in
        match SubMenuState m with
        | Some c =>
            if OpenSubMenu m =? -1 then own
            else
              r <- intercept m c msg ;;
              match r with
              | Some out => Ok out
              | None =>
                  '(newSubModel, cmd) <- Update c msg ;;
                  let m := set_SubMenuState m (Some newSubModel) in
                  if negb (Active newSubModel)
                  then Ok (closeSubMenu m, cmd)
                  else Ok (m, cmd)
              end
        | None => own
        end
  end.

(** ** Overlay *)

(** The loop of [splitWithANSI].  [rest] is [s[i:]]; [skip] counts the
    bytes of the current rune still to be passed over, so the body
    runs at the rune starts only. *)
Fixpoint splitLoop (s : string) (width : Z) (rest : string)
         (i skip prevI : nat) : string * string :=
  match rest with
  | "" => if Width s <=? width then (s, "") else (s, "")
  | String _ r =>
      match skip with
      | S k => splitLoop s width r (S i) k prevI
      | O =>
          let w := Width (take i s) in
          if w =? width then (take i s, drop i s)
          else if w >? width then (take prevI s, drop prevI s)
          else splitLoop s width r (S i) (runeSize rest - 1) i
      end
  end.

Definition splitWithANSI (s : string) (width : Z) : string * string :=
  splitLoop s width s 0 0 0.

(** The body of the loop of [Overlay] for a row that exists in the
    background. *)
Definition overlayRow (bgLine fgLine : string) (x : Z) : res string :=
  let bgWidth := Width bgLine in
  if bgWidth <? x then
    padding <- Repeat_space (isub x bgWidth) ;;
    Ok (bgLine ++ padding ++ fgLine)%string
  else
    let '(prefix, _) := splitWithANSI bgLine x in
    let fgWidth := Width fgLine in
    let suffixStart := iadd x fgWidth in
    let '(preSuffix, suffix) := splitWithANSI bgLine suffixStart in
    let ansiCodes := joinEmpty (FindAllString preSuffix) in
    let suffix := (ansiCodes ++ suffix)%string in
    let prefixWidth := Width prefix in
    padding <- (if prefixWidth <? x
                then Repeat_space (isub x prefixWidth)
                else Ok "") ;;
    Ok (prefix ++ padding ++ fgLine ++ suffix)%string.

Fixpoint overlayLines (bgLines fgLines : list string) (x y : Z) (i : Z)
  : res (list string) :=
  match fgLines with
  | [] => Ok bgLines
  | fgLine :: rest =>
      let row := iadd y i in
      if row >=? len bgLines then
        padding <- Repeat_space x ;;
        overlayLines (bgLines ++ [(padding ++ fgLine)%string]) rest x y (i + 1)
      else
        bgLine <- index bgLines row ;;
        line <- overlayRow bgLine fgLine x ;;
        overlayLines (setAt bgLines (Z.to_nat row) line) rest x y (i + 1)
  end.

Definition Overlay (bg fg : string) (x y : Z) : res string :=
  bgLines <- overlayLines (splitLines bg) (splitLines fg) x y 0 ;;
  Ok (joinLines bgLines).

End Menubar.

Arguments MenuItem : clear implicits.
Arguments Model : clear implicits.

(** ** A reference environment

    A small plain-text style engine on which the definitions can be
    run.  A style is a horizontal padding and a border flag; text is
    rendered on one line; the border counts in the frame size.  Cell
    widths follow the usual terminal rules: escape sequences take no
    cell, East Asian wide code points take two. *)

Module Reference.

Record RStyle : Type := mkRStyle {
  padding : nat;
  border : bool
}.

Definition render (st : RStyle) (s : string) : string :=
  (spaces (padding st) ++ s ++ spaces (padding st))%string.

(** The code point encoded at the head of [s], [size] bytes long. *)
Definition runeValue (s : string) (size : nat) : Z :=
  let b (n : nat) := match String.get n s with
                     | Some c => byteOf c
                     | None => 0
                     end in
  match size with
  | 2%nat => Z.land (b 0%nat) 31 * 64 + Z.land (b 1%nat) 63
  | 3%nat => Z.land (b 0%nat) 15 * 4096 + Z.land (b 1%nat) 63 * 64
             + Z.land (b 2%nat) 63
  | 4%nat => Z.land (b 0%nat) 7 * 262144 + Z.land (b 1%nat) 63 * 4096
             + Z.land (b 2%nat) 63 * 64 + Z.land (b 3%nat) 63
  | _ => if b 0%nat <? 128 then b 0%nat else 65533
  end.

Definition runeWidth (r : Z) : Z :=
  if (r <? 32) || (r =? 127) || within 768 879 r then 0
  else if within 4352 4447 r || within 11904 42191 r
          || within 44032 55203 r || within 63744 64255 r
          || within 65072 65135 r || within 65280 65376 r
          || within 65504 65510 r || within 127744 128591 r
          || within 131072 262141 r
       then 2
       else 1.

Definition isTerminator (r : Z) : bool :=
  within 64 90 r || within 97 122 r.

(** Printable width of one line: runes inside an escape sequence (from
    the escape byte to the next letter) are not counted. *)
Fixpoint lineWidth (s : string) (skip : nat) (ansi : bool) (n : Z) : Z :=
  match s with
  | "" => n
  | String _ r =>
      match skip with
      | S k => lineWidth r k ansi n
      | O =>
          let size := runeSize s in
          let c := runeValue s size in
          if c =? 27 then lineWidth r (size - 1) true n
          else if ansi then
            lineWidth r (size - 1) (negb (isTerminator c)) n
          else lineWidth r (size - 1) false (n + runeWidth c)
      end
  end.

Definition width (s : string) : Z :=
  fold_left (fun w l => Z.max w (lineWidth l 0 false 0)) (splitLines s) 0.

Definition height (s : string) : Z := len (splitLines s).

Definition frameSize (st : RStyle) : Z * Z :=
  let b := if border st then 2 else 0 in
  (2 * Z.of_nat (padding st) + b, b).

Definition lowerAscii (c : ascii) : ascii :=
  if within 65 90 (byteOf c)
  then ascii_of_N (N_of_ascii c + 32)
  else c.

Fixpoint toLower (s : string) : string :=
  match s with
  | "" => ""
  | String c r => String (lowerAscii c) (toLower r)
  end.

Definition equalFold (a b : string) : bool :=
  (toLower a =? toLower b)%string.

Definition defaultStyles : Styles RStyle :=
  {| Bar := mkRStyle 0 false;
     Item := mkRStyle 1 false;
     SelectedItem := mkRStyle 1 false;
     ShortcutStyle := mkRStyle 0 false;
     Dropdown := mkRStyle 0 true;
     DropdownItem := mkRStyle 1 false;
     DropdownSelected := mkRStyle 1 false;
     ShortcutSelected := mkRStyle 0 false;
     HotkeyStyle := mkRStyle 0 false;
     SeparatorStyle := mkRStyle 0 false;
     DisabledStyle := mkRStyle 1 false |}.

Definition env : Env :=
  {| Msg := string;
     Style := RStyle;
     Render := render;
     Width := width;
     Height := height;
     GetFrameSize := frameSize;
     GetHorizontalFrameSize := fun st => fst (frameSize st);
     BorderTop := fun st => if border st then "-" else "";
     UnsetPadding := fun st => mkRStyle 0 (border st);
     Inherit := fun st _ => st;
     Inline := fun st => st;
     EqualFold := equalFold;
     ToLower := toLower;
     DefaultStyles := defaultStyles |}.

(** An entry with a label and a hotkey. *)
Definition entry (label hotkey : string) : MenuItem env :=
  mkItem (E := env) label hotkey "" None [] false false.

(** An entry that opens [sub]. *)
Definition submenu (label hotkey : string) (sub : list (MenuItem env))
  : MenuItem env :=
  mkItem (E := env) label hotkey "" None sub false false.

(** An entry that emits the message [msg]. *)
Definition action (label hotkey msg : string) : MenuItem env :=
  mkItem (E := env) label hotkey "" (Some (fun _ => msg)) [] false false.

Definition disabled (it : MenuItem env) : MenuItem env :=
  mkItem (E := env) (Label it) (Hotkey it) (Shortcut it) (Action it)
         (SubMenu it) (IsSeparator it) true.

(** The state after feeding [msgs] to [m], stopping at the first
    event that does not return. *)
Fixpoint run (m : Model env) (msgs : list TeaMsg)
  : Model env :=
  match msgs with
  | [] => m
  | msg :: rest =>
      match Update m msg with
      | Ok (m', _) => run m' rest
      | _ => m
      end
  end.

(** UTF-8 text used in the examples: U+4E16, two cells wide. *)
Definition wide : string :=
  String (ascii_of_nat 228) (String (ascii_of_nat 184)
         (String (ascii_of_nat 150) "")).

Definition red : string := String escape "[31m".
Definition reset : string := String escape "[0m".

(** A bar with a two-level menu. *)
Definition recentMenu : list (MenuItem env) :=
  [action "Notes" "N" "open notes"; action "Todo" "T" "open todo"].

Definition fileMenu : list (MenuItem env) :=
  [action "New" "n" "new file";
   submenu "Recent" "R" recentMenu;
   Separator;
   disabled (action "Save" "S" "save file");
   action "Exit" "x" "quit"].

Definition helpMenu : list (MenuItem env) :=
  [action "About" "A" "about"].

Definition demoItems : list (MenuItem env) :=
  [submenu "File" "F" fileMenu;
   Separator;
   submenu "Help" "H" helpMenu].

Definition demoBar : Model env := New demoItems.

(** The bar with the File menu open. *)
Definition demoOpen : Model env := run demoBar [KeyMsg "enter"].

(** The bar with the File menu open and its entry Recent selected. *)
Definition demoDown : Model env :=
  run demoBar [KeyMsg "enter"; KeyMsg "down"].

(** The bar with File and, below it, Recent open. *)
Definition demoDeep : Model env :=
  run demoBar [KeyMsg "enter"; KeyMsg "down"; KeyMsg "right"].

(** The File dropdown of [demoDeep], with Recent open below it. *)
Definition demoDropdown : Model env :=
  match SubMenuState demoDeep with
  | Some c => c
  | None => demoDeep
  end.

(** A submenu that starts with a separator. *)
Definition sepFirstBar : Model env :=
  New [submenu "File" "F" [Separator; entry "Exit" "x"]].

(** Entries that start with a separator. *)
Definition sepFirstItems : list (MenuItem env) :=
  [Separator; entry "Alpha" "a"].

(** A disabled entry and an enabled entry with the same hotkey. *)
Definition sharedHotkeyBar : Model env :=
  New [disabled (action "Save" "s" "save file");
       action "Search" "s" "search"].

(** A dropdown with a one-cell shortcut hint and a submenu entry. *)
Definition shortHintDropdown : Model env :=
  mkModel (E := env)
          [mkItem (E := env) "A" "" "x" None [] false false;
           submenu "B" "" [entry "C" ""]]
          true 0 (-1) None defaultStyles true.

End Reference.

(** * Rendering

    The functions that render the bar, one dropdown and the layers of
    the open chain.  They need more of the style engine than the
    state machine does; those operations are the fields of the class
    [ViewEnv]. *)

Class ViewEnv (E : Env) : Type := {
  (** [lipgloss.JoinHorizontal(lipgloss.Top, blocks...)] *)
  JoinHorizontal : list string -> string;
  (** [lipgloss.JoinVertical(pos, blocks...)] at position 0, which is
      both [lipgloss.Top] and [lipgloss.Left] *)
  JoinVertical : list string -> string;
  (** [style.BorderTop(false).BorderRight(false).BorderBottom(false).BorderLeft(false).Margin(0)] *)
  NoFrame : Style -> Style;
  (** [style.Padding(0)] *)
  Padding0 : Style -> Style
}.

Fixpoint repeatString (s : string) (n : nat) : string :=
  match n with
  | O => ""
  | S k => (s ++ repeatString s k)%string
  end.

(** [strings.Repeat(s, n)] *)
Definition strings_Repeat (s : string) (n : Z) : res string :=
  if n <? 0 then Panic else Ok (repeatString s (Z.to_nat n)).

(** The box-drawing rune U+2500 of the separator row. *)
Definition horizontalLine : string :=
  String (ascii_of_nat 226) (String (ascii_of_nat 148)
         (String (ascii_of_nat 128) "")).

(** [type DropdownLayer struct { Content string; X, Y int }] *)
Module DropdownLayer.
Record t : Type := mk {
  Content : string;
  X : Z;
  Y : Z
}.
End DropdownLayer.

Section Views.

Context {E : Env} {V : ViewEnv E}.

(** ** The bar *)

(** The body of the loop of [renderBarContent] on entry [i]. *)
Definition barView (m : Model E) (i : Z) (item : MenuItem E) : res string :=
  if IsSeparator item then Ok (Render (Item (ModelStyles m)) "|")
  else
    let style := Item (ModelStyles m) in
    let style := if Active m && (i =? Selection m)
                 then SelectedItem (ModelStyles m) else style in
    let style := if Disabled item
                 then Inherit (DisabledStyle (ModelStyles m))
                              (Item (ModelStyles m))
                 else style in
    let baseStyle := UnsetPadding style in
    label <- renderLabel m item baseStyle ;;
    Ok (Render style label).

(** [for i, item := range m.Items { views = append(views, ...) }] over
    the entries [items] that start at index [i]. *)
Fixpoint barViews (m : Model E) (items : list (MenuItem E)) (i : Z)
  : res (list string) :=
  match items with
  | [] => Ok []
  | item :: rest =>
      v <- barView m i item ;;
      vs <- barViews m rest (i + 1) ;;
      Ok (v :: vs)
  end.

Definition renderBarContent (m : Model E) (right : string) (width : Z)
  : res string :=
  views <- barViews m (Items m) 0 ;;
  let fillStyle := NoFrame (UnsetPadding (Bar (ModelStyles m))) in
  views <-
    (if width >? 0 then
       let itemsWidth := Width (JoinHorizontal views) in
       let rightWidth := Width right in
       let availableWidth :=
         isub width (GetHorizontalFrameSize (Bar (ModelStyles m))) in
       let spacerWidth := isub (isub availableWidth itemsWidth) rightWidth in
       if spacerWidth >? 0 then
         pad <- Repeat_space spacerWidth ;;
         Ok (views ++ [Render fillStyle pad])%list
       else Ok views
     else Ok views) ;;
  let views := if negb (right =? "")%string
               then (views ++ [Render fillStyle right])%list
               else views in
  Ok (Render (Bar (ModelStyles m)) (JoinHorizontal views)).

Definition ViewBar (m : Model E) : res string :=
  if isDropdown m then Ok "" else renderBarContent m "" 0.

Definition ViewBarWithRightSide (m : Model E) (right : string) (width : Z)
  : res string :=
  if isDropdown m then Ok "" else renderBarContent m right width.

(** [for i := 0; i < m.OpenSubMenu; i++ { offset += ... }], run for
    the [n] remaining indices from [i]. *)
Fixpoint dropdownOffsetLoop (m : Model E) (n : nat) (i : Z) (offset : Z)
  : res Z :=
  match n with
  | O => Ok offset
  | S k =>
      item <- index (Items m) i ;;
      let baseStyle := UnsetPadding (Item (ModelStyles m)) in
      label <- renderLabel m item baseStyle ;;
      dropdownOffsetLoop m k (i + 1)
        (iadd offset (Width (Render (Item (ModelStyles m)) label)))
  end.

Definition getDropdownOffset (m : Model E) : res Z :=
  if OpenSubMenu m =? -1 then Ok 0
  else dropdownOffsetLoop m (Z.to_nat (OpenSubMenu m)) 0 0.

(** ** One dropdown *)

(** The body of the second loop of [renderSingleDropdown] on entry
    [i]. *)
Definition dropdownRow (m : Model E)
           (maxLabelWidth maxRightWidth standardWidth : Z)
           (i : Z) (item : MenuItem E) : res string :=
  let st := ModelStyles m in
  if IsSeparator item then
    let separatorSideWidth := GetHorizontalFrameSize (SeparatorStyle st) in
    let lineLength := isub standardWidth separatorSideWidth in
    let lineLength := if lineLength <? 0 then 0 else lineLength in
    line <- strings_Repeat horizontalLine lineLength ;;
    Ok (Render (SeparatorStyle st) line)
  else
    let style := DropdownItem st in
    let style := if i =? Selection m then DropdownSelected st else style in
    let style := if Disabled item
                 then Inherit (DisabledStyle st) (DropdownItem st)
                 else style in
    let baseStyle := UnsetPadding style in
    label <- renderLabel m item baseStyle ;;
    let currentLabelWidth := Width label in
    pad <- Repeat_space (iadd (isub maxLabelWidth currentLabelWidth) 2) ;;
    let padding := Render baseStyle pad in
    rightContent <-
      (if negb (Shortcut item =? "")%string then
         let shortcutStyle := Inherit (ShortcutStyle st) baseStyle in
         let shortcutStyle :=
           if i =? Selection m
           then Inherit (ShortcutSelected st) baseStyle
           else shortcutStyle in
         let shortcutStyle :=
           if Disabled item
           then Padding0 (Inherit (DisabledStyle st) baseStyle)
           else shortcutStyle in
         let shortcutStr := Render shortcutStyle (Shortcut item) in
         sp <- Repeat_space (isub maxRightWidth (Width (Shortcut item))) ;;
         Ok (Render baseStyle sp ++ shortcutStr)%string
       else if len (SubMenu item) >? 0 then
         sp <- Repeat_space (isub maxRightWidth 2) ;;
         Ok (Render baseStyle (sp ++ " >"))%string
       else if maxRightWidth >? 0 then
         sp <- Repeat_space maxRightWidth ;;
         Ok (Render baseStyle sp)
       else Ok "") ;;
    let line := (label ++ padding ++ rightContent)%string in
    Ok (Render style line).

Fixpoint dropdownRows (m : Model E)
         (maxLabelWidth maxRightWidth standardWidth : Z)
         (items : list (MenuItem E)) (i : Z) : res (list string) :=
  match items with
  | [] => Ok []
  | item :: rest =>
      v <- dropdownRow m maxLabelWidth maxRightWidth standardWidth i item ;;
      vs <- dropdownRows m maxLabelWidth maxRightWidth standardWidth
                         rest (i + 1) ;;
      Ok (v :: vs)
  end.

Definition renderSingleDropdown (m : Model E) : res string :=
  let '(maxLabelWidth, maxShortcutWidth, hasSubmenu) :=
    measureColumns (Items m) 0 0 false in
  let maxRightWidth :=
    if hasSubmenu && (maxShortcutWidth <? 2) then 2 else maxShortcutWidth in
  let innerContentWidth := iadd (iadd maxLabelWidth 2) maxRightWidth in
  pad <- Repeat_space innerContentWidth ;;
  let standardWidth := Width (Render (DropdownItem (ModelStyles m)) pad) in
  views <- dropdownRows m maxLabelWidth maxRightWidth standardWidth
                        (Items m) 0 ;;
  Ok (Render (Dropdown (ModelStyles m)) (JoinVertical views)).

(** ** The open chain as layers *)

Fixpoint getLayersRecursive (m : Model E) (baseX baseY : Z)
  : res (list DropdownLayer.t) :=
  currentView <- renderSingleDropdown m ;;
  let layers := [DropdownLayer.mk currentView baseX baseY] in
  match SubMenuState m with
  | Some c =>
      if OpenSubMenu m =? -1 then Ok layers
      else
        let menuWidth := Width currentView in
        let yOffset := iadd (Selection m) 1 in
        subLayers <- getLayersRecursive c (iadd baseX menuWidth)
                                        (iadd baseY yOffset) ;;
        Ok (layers ++ subLayers)%list
  | None => Ok layers
  end.

Definition ViewDropdownLayers (m : Model E)
  : res (list DropdownLayer.t * Z) :=
  match SubMenuState m with
  | Some c =>
      if OpenSubMenu m =? -1 then Ok ([], 0)
      else
        offset <- getDropdownOffset m ;;
        layers <- getLayersRecursive c 0 0 ;;
        Ok (layers, offset)
  | None => Ok ([], 0)
  end.

End Views.

(** * The example application

    [examples/basic]: a host that owns a bar, a content text and a
    clock.  Its state update is modelled; the messages that it tells
    apart are the constructors of [HostMsg]. *)

Module Example.

Section Host.

Context {E : Env}.

(** [time.Time] *)
Variable Time : Type.

(** [lipgloss.NewStyle().Foreground(lipgloss.Color("#FF00FF"))] *)
Variable actionStyle : Style.

Record model : Type := mkHost {
  menubar : Model E;
  quitting : bool;
  width : Z;
  height : Z;
  content : string;
  now : Time
}.

Definition set_menubar (m : model) (mb : Model E) : model :=
  mkHost mb (quitting m) (width m) (height m) (content m) (now m).

Inductive HostMsg : Type :=
| WindowSizeMsg (w h : Z)
| HostKeyMsg (key : string)
| HostMouseMsg (mm : MouseMsg)
| actionMsg (text : string)
| tickMsg (t : Time)
| otherMsg.

(** The message as the bar's [Update] tells it apart. *)
Definition forMenubar (msg : HostMsg) : TeaMsg :=
  match msg with
  | HostKeyMsg key => KeyMsg key
  | HostMouseMsg mm => Mouse mm
  | _ => OtherMsg
  end.

(** The commands of the host: [tea.Quit], [tick()], and those of the
    bar (the nil command among them). *)
Inductive HostCmd : Type :=
| Quit
| tick
| menubarCmd (cmd : Cmd).

(** [m.menubar, cmd = m.menubar.Update(msg); return m, cmd] *)
Definition forward (m : model) (msg : HostMsg) : res (model * HostCmd) :=
  '(mb, cmd) <- Update (menubar m) (forMenubar msg) ;;
  Ok (set_menubar m mb, menubarCmd cmd).

Definition Update (m : model) (msg : HostMsg) : res (model * HostCmd) :=
  match msg with
  | WindowSizeMsg w h =>
      forward (mkHost (menubar m) (quitting m) w h (content m) (now m)) msg
  | HostKeyMsg key =>
      if (key =? "ctrl+c")%string then Ok (m, Quit)
      else if (key =? "esc")%string then
        if negb (Active (menubar m)) then
          Ok (set_menubar m (set_Active (menubar m) true), menubarCmd None)
        else if OpenSubMenu (menubar m) =? -1 then
          Ok (set_menubar m (set_Active (menubar m) false), menubarCmd None)
        else forward m msg
      else forward m msg
  | actionMsg text =>
      forward (mkHost (menubar m) (quitting m) (width m) (height m)
                      (content m ++ String newline ""
                       ++ Render actionStyle text)%string
                      (now m)) msg
  | tickMsg t =>
      Ok (mkHost (menubar m) (quitting m) (width m) (height m) (content m) t,
          tick)
  | _ => forward m msg
  end.

(** [k] presses of the escape key. *)
Fixpoint pressEsc (k : nat) (m : model) : res model :=
  match k with
  | O => Ok m
  | S k' =>
      '(m', _) <- Update m (HostKeyMsg "esc") ;;
      pressEsc k' m'
  end.

End Host.

End Example.

(** ** The reference environment, continued

    Joining blocks of plain text: side by side, top-aligned, each
    block padded to its width; and one above the other, left-aligned,
    every row padded to the widest. *)

Module ReferenceViews.

Import Reference.

Definition blockWidth (rows : list string) : Z :=
  fold_left (fun w l => Z.max w (width l)) rows 0.

Definition padTo (w : Z) (l : string) : string :=
  (l ++ spaces (Z.to_nat (w - width l)))%string.

Definition beside (a b : list string) : list string :=
  let wa := blockWidth a in
  let wb := blockWidth b in
  map (fun i => (padTo wa (nth i a "") ++ padTo wb (nth i b ""))%string)
      (seq 0 (Nat.max (List.length a) (List.length b))).

Definition joinHorizontal (blocks : list string) : string :=
  match blocks with
  | [] => ""
  | [b] => b
  | b :: bs =>
      joinLines (fold_left (fun acc blk => beside acc (splitLines blk))
                           bs (splitLines b))
  end.

Definition joinVertical (blocks : list string) : string :=
  match blocks with
  | [] => ""
  | _ =>
      let rows := flat_map splitLines blocks in
      joinLines (map (padTo (blockWidth rows)) rows)
  end.

Definition noFrame (st : RStyle) : RStyle := mkRStyle (padding st) false.

Definition padding0 (st : RStyle) : RStyle := mkRStyle 0 (border st).

Definition views : ViewEnv env :=
  @Build_ViewEnv env joinHorizontal joinVertical noFrame padding0.

(** A bar of two menus, and that bar with its second menu open. *)
Definition plainBar : Model env :=
  New [submenu "File" "F" fileMenu; submenu "Help" "H" helpMenu].

Definition plainHelpOpen : Model env :=
  run plainBar [KeyMsg "right"; KeyMsg "enter"].

(** Entries none of which can be selected. *)
Definition inertItems : list (MenuItem env) :=
  [Separator; disabled (action "Save" "S" "save file"); Separator].

(** A background of three rows. *)
Definition threeRows : string :=
  ("aaa" ++ String newline ("bbb" ++ String newline "ccc"))%string.

(** The layers of the chain of [demoDeep], and those of its File
    dropdown alone. *)
Definition demoLayers : list DropdownLayer.t * Z :=
  match ViewDropdownLayers (V := views) demoDeep with
  | Ok r => r
  | _ => ([], 0)
  end.

Definition demoDropdownLayer (k : nat) : DropdownLayer.t :=
  match getLayersRecursive (V := views) demoDropdown 0 0 with
  | Ok ls => nth k ls (DropdownLayer.mk "" 0 0)
  | _ => DropdownLayer.mk "" 0 0
  end.

(** The example application with the chain of [demoDeep] open. *)
Definition demoHost : Example.model (E := env) unit :=
  Example.mkHost unit demoDeep false 80 24 "text" tt.

End ReferenceViews.

(** * Specification vocabulary *)

Section Vocabulary.

Context {E : Env}.

(** The child that [openCurrentSelection] builds for a parent with
    style configuration [st] and a selected submenu [sub]. *)
Definition freshChild (st : Styles Style) (sub : list (MenuItem E))
  : Model E :=
  mkModel sub true 0 (-1) None st true.

(** An entry that can be selected: neither a separator nor disabled. *)
Definition selectable (it : MenuItem E) : bool := negb (unselectable it).

Definition selectable_at (items : list (MenuItem E)) (i : Z) : bool :=
  match index items i with
  | Ok it => selectable it
  | _ => false
  end.

Definition hasSelectable (items : list (MenuItem E)) : bool :=
  existsb selectable items.

(** [k] presses of the move-next key. *)
Fixpoint iterNext (k : nat) (items : list (MenuItem E)) (sel : Z) : res Z :=
  match k with
  | O => Ok sel
  | S k' => sel' <- moveNext items sel ;; iterNext k' items sel'
  end.

(** The positions that a forward skip started at [start] has passed
    when it stands at [sel]. *)
Definition passedForward (n start sel j : Z) : Prop :=
  0 <= j < n /\
  ((start <= sel /\ start <= j < sel) \/
   (sel < start /\ (start <= j \/ j < sel))).

(** The positions that a backward skip started at [start] has passed
    when it stands at [sel]. *)
Definition passedBackward (n start sel j : Z) : Prop :=
  0 <= j < n /\
  ((sel <= start /\ sel < j <= start) \/
   (start < sel /\ (j <= start \/ sel < j))).

(** The index that the specification gives a freshly opened level: 0,
    adjusted to the first entry that is neither a separator nor
    disabled. *)
Fixpoint firstSelectableFrom (items : list (MenuItem E)) (i : nat)
  : option nat :=
  match items with
  | [] => None
  | it :: rest =>
      if selectable it then Some i else firstSelectableFrom rest (S i)
  end.

Definition spec_initialSelection (items : list (MenuItem E)) : Z :=
  match firstSelectableFrom items 0 with
  | Some i => Z.of_nat i
  | None => 0
  end.

(** Every entries slice of the menu tree has a length that fits [int]
    (as every Go slice has). *)
Fixpoint itemBounded (it : MenuItem E) : bool :=
  match it with
  | mkItem _ _ _ _ sub _ _ =>
      (len sub <=? max_int) && forallb itemBounded sub
  end.

Definition itemsBounded (items : list (MenuItem E)) : bool :=
  (len items <=? max_int) && forallb itemBounded items.

(** The selection of a node is an index into its entries. *)
Definition nodeValid (m : Model E) : bool :=
  (0 <=? Selection m) && (Selection m <? len (Items m))
  && itemsBounded (Items m).

Fixpoint chainValid (m : Model E) : bool :=
  nodeValid m &&
  match SubMenuState m with
  | Some c => chainValid c
  | None => true
  end.

(** The selection invariant of the specification: whenever some entry
    is selectable, the selection is a valid index of a selectable
    entry. *)
Definition selectionInvariant (m : Model E) : bool :=
  implb (hasSelectable (Items m))
        (selectable_at (Items m) (Selection m)).

(** What one key press may do to a node [m], giving [m']: the chain
    stays valid, the entries stay, and the selection either stays or
    moves to a selectable entry (when there is one). *)
Definition keyStep (m m' : Model E) : Prop :=
  chainValid m' = true /\
  Items m' = Items m /\
  (Selection m' = Selection m \/
   (hasSelectable (Items m) = true ->
    selectable_at (Items m) (Selection m') = true)).

(** Hotkey matching as the specification words it: an entry is a
    candidate for [key] under the comparison [eq] when it is neither a
    separator nor disabled and its hotkey is present and compares
    equal to [key]. *)
Definition hotkeyCandidate (eq : string -> string -> bool) (key : string)
           (it : MenuItem E) : bool :=
  selectable it && negb (Hotkey it =? "")%string && eq key (Hotkey it).

Fixpoint firstIndex {A : Type} (p : A -> bool) (l : list A) (i : nat)
  : option nat :=
  match l with
  | [] => None
  | a :: rest => if p a then Some i else firstIndex p rest (S i)
  end.

(** The first candidate under exact comparison and, only when there is
    none, the first candidate under case-insensitive comparison. *)
Definition spec_hotkeyMatch (key : string) (items : list (MenuItem E))
  : option nat :=
  match firstIndex (hotkeyCandidate String.eqb key) items 0 with
  | Some i => Some i
  | None => firstIndex (hotkeyCandidate EqualFold key) items 0
  end.

(** The keys that the key switch of [Update] reacts to. *)
Definition isNavKey (key : string) : bool :=
  (key =? "left")%string || (key =? "right")%string
  || (key =? "up")%string || (key =? "down")%string
  || (key =? "enter")%string || (key =? "esc")%string.

(** A node has a child exactly when its open-child index is set, at
    every level of the chain. *)
Fixpoint linked (m : Model E) : bool :=
  match SubMenuState m with
  | Some c => negb (OpenSubMenu m =? -1) && linked c
  | None => OpenSubMenu m =? -1
  end.

(** The number of open dropdown levels below a node. *)
Fixpoint openLevels (m : Model E) : nat :=
  match SubMenuState m with
  | Some c => S (openLevels c)
  | None => O
  end.

(** The states that a host reaches: it constructs the bar, may flip
    its focus and restyle it, and feeds it events. *)
Inductive reachable : Model E -> Prop :=
| reach_New (items : list (MenuItem E)) : reachable (New items)
| reach_Active (m : Model E) (b : bool) :
    reachable m -> reachable (set_Active m b)
| reach_Styles (m : Model E) (st : Styles Style) :
    reachable m -> reachable (set_Styles m st)
| reach_Update (m : Model E) (msg : TeaMsg) (m' : Model E) (cmd : Cmd) :
    reachable m -> Update m msg = Ok (m', cmd) -> reachable m'.

(** The outcome of a hotkey match on entry [i] as the specification
    words it: the entry is selected; if it has a submenu, that submenu
    is opened; else if it has an action, the action is emitted. *)
Definition spec_hotkeyOutcome (m : Model E) (i : nat) (item : MenuItem E)
  : Model E * Cmd :=
  match SubMenu item with
  | _ :: _ =>
      (mkModel (Items m) (Active m) (Z.of_nat i) (Z.of_nat i)
               (Some (freshChild (ModelStyles m) (SubMenu item)))
               (ModelStyles m) (isDropdown m),
       None)
  | [] =>
      (set_Selection m (Z.of_nat i),
       match Action item with
       | Some a => Some (fun _ => a tt)
       | None => None
       end)
  end.

(** *** Dropdown geometry *)

(** The widest label and the widest shortcut hint, in cells (0 for no
    entries). *)
Definition maxLabelWidth (items : list (MenuItem E)) : Z :=
  fold_left (fun acc it => Z.max acc (Width (Label it))) items 0.

Definition maxShortcutWidth (items : list (MenuItem E)) : Z :=
  fold_left (fun acc it => Z.max acc (Width (Shortcut it))) items 0.

Definition anySubmenu (items : list (MenuItem E)) : bool :=
  existsb (fun it => len (SubMenu it) >? 0) items.

(** The right column: the widest shortcut hint, and at least the two
    cells of the submenu indicator when some entry has a submenu. *)
Definition rightColumnWidth (items : list (MenuItem E)) : Z :=
  if anySubmenu items && (maxShortcutWidth items <? 2) then 2
  else maxShortcutWidth items.

(** Every level of the chain is a dropdown whose column widths add up
    within [int] and whose open-child index lies within its entries:
    the levels on which the hit test measures nothing but the dropdown
    frame. *)
Fixpoint dropdownChain (m : Model E) : bool :=
  isDropdown m
  && (maxLabelWidth (Items m) + 2 + rightColumnWidth (Items m) <=? max_int)
  && (OpenSubMenu m <=? len (Items m))
  && match SubMenuState m with
     | Some c => dropdownChain c
     | None => true
     end.

(** The right column as the specification words it: the widest
    shortcut hint, except that the submenu indicator counts as 2 when
    no entry has a shortcut but some entry has a submenu. *)
Definition spec_rightColumnWidth (items : list (MenuItem E)) : Z :=
  if forallb (fun it => (Shortcut it =? "")%string) items
     && anySubmenu items
  then 2
  else maxShortcutWidth items.

Definition spec_dropdownWidth (m : Model E) : Z :=
  maxLabelWidth (Items m) + 2 + spec_rightColumnWidth (Items m)
  + GetHorizontalFrameSize (DropdownItem (ModelStyles m))
  + fst (GetFrameSize (Dropdown (ModelStyles m))).

(** *** Well-formed text

    [completeRunes rest skip] holds when the runes of [rest] (after
    the [skip] bytes still owed to the current rune) are all complete:
    an ASCII byte or a well-formed multi-byte encoding, none cut short
    by the end of the text. *)
Fixpoint completeRunes (rest : string) (skip : nat) : bool :=
  match rest with
  | "" => Nat.eqb skip 0
  | String c r =>
      match skip with
      | S k => completeRunes r k
      | O =>
          ((byteOf c <? 128) || (2 <=? runeSize rest)%nat)
          && completeRunes r (runeSize rest - 1)
      end
  end.

Definition wellFormedUTF8 (s : string) : bool := completeRunes s 0.

(** *** Styles in effect *)

Definition isReset (code : string) : bool :=
  (code =? String escape "[0m")%string || (code =? String escape "[m")%string.

(** The style sequences in effect after the text [s]: those that
    follow its last reset sequence. *)
Definition activeStyle (s : string) : list string :=
  fold_left (fun acc code => if isReset code then [] else (acc ++ [code])%list)
            (FindAllString s) [].

(** No background style is in effect at column [x] of the composited
    row [r], where the foreground row begins. *)
Definition spec_foregroundIsolated (r : string) (x : Z) : Prop :=
  activeStyle (fst (splitWithANSI r x)) = [].

End Vocabulary.

Arguments linked : simpl never.
Arguments chainValid : simpl never.
Arguments dropdownChain : simpl never.

(** * Vocabulary for the open chain *)

Section ChainVocabulary.

Context {E : Env}.

(** The fields of a node that are set at construction: its entries,
    its style configuration and its kind. *)
Definition sameConfig (m m' : Model E) : Prop :=
  Items m' = Items m /\ ModelStyles m' = ModelStyles m /\
  isDropdown m' = isDropdown m.

(** What holds of a node while it is the open child of another: it is
    a focused dropdown with entries, and its selection is an index of
    an entry. *)
Definition levelOK (c : Model E) : Prop :=
  Items c <> [] /\ isDropdown c = true /\ Active c = true /\
  0 <= Selection c < len (Items c).

(** At every level of the chain: a node without a child has no
    open-child index; the child of a node shows the submenu of the
    entry that the open-child index names. *)
Fixpoint wellFormed (m : Model E) : Prop :=
  match SubMenuState m with
  | Some c =>
      (exists item, index (Items m) (OpenSubMenu m) = Ok item /\
                    Items c = SubMenu item) /\
      levelOK c /\ wellFormed c
  | None => OpenSubMenu m = -1
  end.

(** What an event may do to a node [m], giving [m']: the entries, the
    styles and the kind stay; the selection stays or becomes an index
    of an entry; a well-formed chain stays well formed. *)
Definition nodeStep (m m' : Model E) : Prop :=
  sameConfig m m' /\
  (Selection m' = Selection m \/ 0 <= Selection m' < len (Items m)) /\
  (wellFormed m -> wellFormed m').

(** The last level of the chain. *)
Fixpoint deepest (m : Model E) : Model E :=
  match SubMenuState m with
  | Some c => deepest c
  | None => m
  end.

(** The chain without its last level; the node itself when it has no
    child. *)
Fixpoint closeDeepest (m : Model E) : Model E :=
  match SubMenuState m with
  | Some c =>
      match SubMenuState c with
      | Some _ => set_SubMenuState m (Some (closeDeepest c))
      | None => closeSubMenu m
      end
  | None => m
  end.

(** The chain with [f] applied to its last level. *)
Fixpoint onDeepest (f : Model E -> Model E) (m : Model E) : Model E :=
  match SubMenuState m with
  | Some c => set_SubMenuState m (Some (onDeepest f c))
  | None => f m
  end.

(** The node [m] with the submenu of its selected entry [item] open. *)
Definition opened (item : MenuItem E) (m : Model E) : Model E :=
  mkModel (Items m) (Active m) (Selection m) (Selection m)
          (Some (freshChild (ModelStyles m) (SubMenu item)))
          (ModelStyles m) (isDropdown m).

(** The position after [x] and the position before it, around the
    ends of [n] entries. *)
Definition nextIndex (n x : Z) : Z := if x + 1 >=? n then 0 else x + 1.
Definition prevIndex (n x : Z) : Z := if x - 1 <? 0 then n - 1 else x - 1.

End ChainVocabulary.

Arguments wellFormed : simpl never.
Arguments deepest : simpl never.
Arguments closeDeepest : simpl never.
Arguments onDeepest : simpl never.

(** * Vocabulary for text *)

(** The offsets at which [for i := range s] runs its body: the rune
    starts of [rest], which begins at offset [i], after the [skip]
    bytes still owed to the current rune. *)
Fixpoint runeStartsFrom (rest : string) (i skip : nat) : list nat :=
  match rest with
  | "" => []
  | String _ r =>
      match skip with
      | S k => runeStartsFrom r (S i) k
      | O => i :: runeStartsFrom r (S i) (runeSize rest - 1)
      end
  end.

Definition runeStarts (s : string) : list nat := runeStartsFrom s 0 0.

(** A text without a line break. *)
Fixpoint oneLine (s : string) : bool :=
  match s with
  | "" => true
  | String c r => negb (Ascii.eqb c newline) && oneLine r
  end.

(** * Vocabulary for hit-testing *)

(** The sum of the first [k] of the widths [wd]. *)
Fixpoint sumTo (wd : nat -> Z) (k : nat) : Z :=
  match k with
  | O => 0
  | S k' => sumTo wd k' + wd k'
  end.

(** The command that a release on the entry [it] emits. *)
Definition actionCmd `{E : Env} (it : MenuItem E) : Cmd :=
  match Action it with
  | Some a => Some (fun _ => a tt)
  | None => None
  end.

(** * Vocabulary for the layers *)

Section LayerVocabulary.

Context {E : Env}.

(** The node [k] levels below [m] in the chain. *)
Fixpoint level (m : Model E) (k : nat) {struct k} : option (Model E) :=
  match k with
  | O => Some m
  | S k' =>
      match SubMenuState m with
      | Some c => level c k'
      | None => None
      end
  end.

(** The base style in which [renderSingleDropdown] renders the label
    of entry [i]: the style of the row without its padding. *)
Definition rowBaseStyle (m : Model E) (i : Z) (item : MenuItem E) : Style :=
  UnsetPadding
    (if Disabled item
     then Inherit (DisabledStyle (ModelStyles m)) (DropdownItem (ModelStyles m))
     else if i =? Selection m
          then DropdownSelected (ModelStyles m)
          else DropdownItem (ModelStyles m)).

(** No entry of an open dropdown of the chain has [key] as its
    hotkey. *)
Fixpoint childrenLackHotkey (key : string) (m : Model E) : Prop :=
  match SubMenuState m with
  | Some c =>
      spec_hotkeyMatch key (Items c) = None /\ childrenLackHotkey key c
  | None => True
  end.

End LayerVocabulary.

Arguments childrenLackHotkey : simpl never.

(** * Properties *)

(** ** Arithmetic and slices *)

Lemma wrap_fits (z : Z) : fits z -> wrap z = z.
Proof.
  unfold fits, wrap, min_int, max_int. intros H.
  rewrite Z.mod_small; lia.
Qed.

Lemma iadd_fits (a b : Z) : fits (a + b) -> iadd a b = a + b.
Proof. apply wrap_fits. Qed.

Lemma isub_fits (a b : Z) : fits (a - b) -> isub a b = a - b.
Proof. apply wrap_fits. Qed.

(** An [int] operation on operands that are known to stay in range. *)
Ltac no_overflow :=
  first [apply iadd_fits | apply isub_fits];
  unfold fits, min_int, max_int in *; lia.

(** Case analysis on every comparison of integers in the goal. *)
Ltac cases_on_comparisons :=
  repeat match goal with
         | |- context [?a <=? ?b] =>
             destruct (Z.leb_spec a b)
         | |- context [?a <? ?b] =>
             destruct (Z.ltb_spec a b)
         end.

Lemma index_inv {A : Type} (l : list A) (i : Z) (a : A) :
  index l i = Ok a -> 0 <= i < len l /\ nth_error l (Z.to_nat i) = Some a.
Proof.
  unfold index, len. destruct (i <? 0) eqn:Hi; [discriminate|].
  apply Z.ltb_ge in Hi.
  destruct (nth_error l (Z.to_nat i)) eqn:Hn; [|discriminate].
  intros H. injection H as <-. split; [|reflexivity].
  assert (Z.to_nat i < List.length l)%nat
    by (apply nth_error_Some; congruence).
  lia.
Qed.

Lemma index_in_range {A : Type} (l : list A) (i : Z) :
  0 <= i < len l -> exists a, index l i = Ok a.
Proof.
  unfold index, len. intros [H0 H1].
  destruct (i <? 0) eqn:Hi; [apply Z.ltb_lt in Hi; lia|].
  destruct (nth_error l (Z.to_nat i)) eqn:Hn; [eauto|].
  apply nth_error_None in Hn. lia.
Qed.

Lemma index_not_OutOfFuel {A : Type} (l : list A) (i : Z) :
  index l i <> OutOfFuel.
Proof.
  unfold index. destruct (i <? 0); [discriminate|].
  destruct (nth_error l (Z.to_nat i)); discriminate.
Qed.

Lemma index_of_nat {A : Type} (l : list A) (i : nat) (a : A) :
  nth_error l i = Some a -> index l (Z.of_nat i) = Ok a.
Proof.
  unfold index. intros H.
  destruct (Z.of_nat i <? 0) eqn:Hi; [apply Z.ltb_lt in Hi; lia|].
  now rewrite Nat2Z.id, H.
Qed.

Section Navigation.

Context {E : Env}.

(** ** Opening a submenu *)

Lemma openCurrentSelection_submenu (m : Model E) (item : MenuItem E) :
  index (Items m) (Selection m) = Ok item ->
  SubMenu item <> [] ->
  openCurrentSelection m =
  Ok (mkModel (Items m) (Active m) (Selection m) (Selection m)
              (Some (freshChild (ModelStyles m) (SubMenu item)))
              (ModelStyles m) (isDropdown m)).
Proof.
  intros Hidx Hsub. unfold openCurrentSelection. rewrite Hidx. simpl.
  destruct (SubMenu item) as [|x xs] eqn:Hs; [congruence|].
  replace (len (x :: xs) >? 0) with true; [reflexivity|].
  symmetry. apply Z.gtb_lt. unfold len. simpl. lia.
Qed.

Lemma openCurrentSelection_leaf (m : Model E) (item : MenuItem E) :
  index (Items m) (Selection m) = Ok item ->
  SubMenu item = [] ->
  openCurrentSelection m = Ok m.
Proof.
  intros Hidx Hsub. unfold openCurrentSelection.
  rewrite Hidx. simpl. now rewrite Hsub.
Qed.

(** C1, at the input [New []]: on an active bar with no entries and no
    open child, the keys [left] and [right] make [Update] index the
    empty entries slice, which panics; [up] and [down] return the
    state unchanged. *)
Theorem empty_bar_left_right_panic :
  Update (New (E := E) []) (KeyMsg "left") = Panic /\
  Update (New (E := E) []) (KeyMsg "right") = Panic /\
  Update (New (E := E) []) (KeyMsg "up") = Ok (New [], None) /\
  Update (New (E := E) []) (KeyMsg "down") = Ok (New [], None).
Proof. repeat split; reflexivity. Qed.

(** C2 (amended): when the selected entry has a non-empty submenu,
    [openCurrentSelection] succeeds and leaves the parent with its
    open-child index equal to its selection and exactly one child: a
    dropdown, active, with the parent's style configuration, the
    submenu's entries, no open child of its own, and selection index
    0 whatever the kind of entry 0. *)
Theorem open_submenu_creates_child (m : Model E) (item : MenuItem E) :
  index (Items m) (Selection m) = Ok item ->
  SubMenu item <> [] ->
  exists m' child,
    openCurrentSelection m = Ok m' /\
    SubMenuState m' = Some child /\
    OpenSubMenu m' = Selection m /\
    Items m' = Items m /\ Selection m' = Selection m /\
    Active m' = Active m /\ isDropdown m' = isDropdown m /\
    ModelStyles m' = ModelStyles m /\
    Items child = SubMenu item /\
    isDropdown child = true /\
    Active child = true /\
    ModelStyles child = ModelStyles m /\
    Selection child = 0 /\
    OpenSubMenu child = -1 /\
    SubMenuState child = None.
Proof.
  intros Hidx Hsub.
  eexists. exists (freshChild (ModelStyles m) (SubMenu item)).
  split; [apply (openCurrentSelection_submenu m item Hidx Hsub)|].
  simpl. repeat split; reflexivity.
Qed.

(** ** Skipping forward *)

Lemma selectable_at_index (items : list (MenuItem E)) (i : Z)
      (it : MenuItem E) :
  index items i = Ok it -> selectable_at items i = negb (unselectable it).
Proof. unfold selectable_at, selectable. now intros ->. Qed.

Lemma skipForward_spec (fuel : nat) (items : list (MenuItem E))
      (start sel : Z) :
  len items <= max_int ->
  0 <= start < len items ->
  0 <= sel < len items ->
  (forall j, passedForward (len items) start sel j ->
             selectable_at items j = false) ->
  (if start <=? sel then len items - sel + start else start - sel)
    <= Z.of_nat fuel ->
  exists r,
    skipForward fuel items start sel = Ok r /\
    0 <= r < len items /\
    ((selectable_at items r = true /\
      forall j, passedForward (len items) start r j ->
                selectable_at items j = false) \/
     (r = start /\
      forall j, 0 <= j < len items -> selectable_at items j = false)).
Proof.
  revert sel.
  induction fuel as [|f IH]; intros sel Hmax Hstart Hsel Hpassed Hfuel.
  - destruct (start <=? sel) eqn:Hc;
      [apply Z.leb_le in Hc | apply Z.leb_gt in Hc]; simpl in Hfuel; lia.
  - simpl.
    destruct (index_in_range items sel Hsel) as [it Hit].
    rewrite Hit. simpl.
    pose proof (selectable_at_index items sel it Hit) as Hsa.
    destruct (unselectable it) eqn:Hu; simpl in Hsa.
    + assert (Hw : iadd sel 1 = sel + 1) by no_overflow.
      rewrite Hw.
      set (sel' := if sel + 1 >=? len items then 0 else sel + 1).
      assert (Hsel' : 0 <= sel' < len items).
      { unfold sel'. destruct (sel + 1 >=? len items) eqn:Hge; [lia|].
        rewrite Z.geb_leb in Hge. apply Z.leb_gt in Hge. lia. }
      assert (Hcases : (sel + 1 < len items /\ sel' = sel + 1) \/
                       (sel + 1 = len items /\ sel' = 0)).
      { unfold sel'. destruct (sel + 1 >=? len items) eqn:Hge.
        - rewrite Z.geb_leb in Hge. apply Z.leb_le in Hge. right. lia.
        - rewrite Z.geb_leb in Hge. apply Z.leb_gt in Hge. left. lia. }
      clearbody sel'.
      destruct (sel' =? start) eqn:Heq.
      * apply Z.eqb_eq in Heq. exists sel'. split; [reflexivity|].
        split; [assumption|]. right. split; [assumption|].
        intros j Hj.
        destruct (Z.eq_dec j sel) as [->|Hne]; [assumption|].
        apply Hpassed. unfold passedForward. split; [assumption|]. lia.
      * apply Z.eqb_neq in Heq.
        apply IH; try assumption.
        -- intros j [Hj Hp].
           destruct (Z.eq_dec j sel) as [->|Hne]; [assumption|].
           apply Hpassed. unfold passedForward. split; [assumption|]. lia.
        -- revert Hfuel. cases_on_comparisons; lia.
    + exists sel. split; [reflexivity|]. split; [assumption|].
      left. split; assumption.
Qed.

Lemma moveNext_spec (items : list (MenuItem E)) (x : Z) :
  len items <= max_int ->
  0 <= x < len items ->
  exists r,
    moveNext items x = Ok r /\
    0 <= r < len items /\
    ((selectable_at items r = true /\
      forall j, 0 <= j < len items ->
                (x < j < r \/ (r <= x /\ (x < j \/ j < r))) ->
                selectable_at items j = false) \/
     (forall j, 0 <= j < len items -> selectable_at items j = false)).
Proof.
  intros Hmax Hx. unfold moveNext.
  assert (Hw : iadd x 1 = x + 1) by no_overflow.
  rewrite Hw.
  set (start := if x + 1 >=? len items then 0 else x + 1).
  assert (Hcases : (x + 1 < len items /\ start = x + 1) \/
                   (x + 1 = len items /\ start = 0)).
  { unfold start. destruct (x + 1 >=? len items) eqn:Hge.
    - rewrite Z.geb_leb in Hge. apply Z.leb_le in Hge. right. lia.
    - rewrite Z.geb_leb in Hge. apply Z.leb_gt in Hge. left. lia. }
  clearbody start.
  destruct (skipForward_spec (S (List.length items)) items start start)
    as (r & Hr & Hrange & Hres); try assumption; try lia.
  - intros j [Hj Hp]. lia.
  - rewrite Z.leb_refl. unfold len. lia.
  - exists r. split; [assumption|]. split; [assumption|].
    destruct Hres as [[Hsel Hfirst]|[_ Hnone]]; [left|right; assumption].
    split; [assumption|].
    intros j Hj Hbetween. apply Hfirst.
    unfold passedForward. split; [assumption|]. lia.
Qed.

Lemma hasSelectable_at (items : list (MenuItem E)) :
  hasSelectable items = true <->
  exists j, 0 <= j < len items /\ selectable_at items j = true.
Proof.
  unfold hasSelectable. rewrite existsb_exists. split.
  - intros (it & Hin & Hsel).
    apply In_nth_error in Hin. destruct Hin as [i Hi].
    exists (Z.of_nat i). split.
    + assert (i < List.length items)%nat
        by (apply nth_error_Some; congruence).
      unfold len. lia.
    + unfold selectable_at. now rewrite (index_of_nat items i it Hi).
  - intros (j & Hj & Hsel). unfold selectable_at in Hsel.
    destruct (index items j) as [it| |] eqn:Hidx; try discriminate.
    exists it. split; [|assumption].
    apply index_inv in Hidx. destruct Hidx as [_ Hn].
    eapply nth_error_In; eassumption.
Qed.

(** With a selectable entry present, one move lands on a selectable
    entry. *)
Lemma moveNext_selectable (items : list (MenuItem E)) (x : Z) :
  len items <= max_int ->
  0 <= x < len items ->
  hasSelectable items = true ->
  exists r, moveNext items x = Ok r /\ 0 <= r < len items /\
            selectable_at items r = true.
Proof.
  intros Hmax Hx Hhas.
  destruct (moveNext_spec items x Hmax Hx) as (r & Hr & Hrange & Hres).
  exists r. split; [assumption|]. split; [assumption|].
  destruct Hres as [[Hsel _]|Hnone]; [assumption|].
  apply hasSelectable_at in Hhas. destruct Hhas as (j & Hj & Hsel).
  rewrite (Hnone j Hj) in Hsel. discriminate.
Qed.

(** Cyclic distance from [x] forward to [s]. *)
Lemma moveNext_approaches (items : list (MenuItem E)) (s x : Z) :
  len items <= max_int ->
  0 <= s < len items ->
  selectable_at items s = true ->
  0 <= x < len items ->
  x <> s ->
  exists r, moveNext items x = Ok r /\ 0 <= r < len items /\
    (if r <=? s then s - r else len items - r + s)
    < (if x <=? s then s - x else len items - x + s).
Proof.
  intros Hmax Hs Hsel Hx Hne.
  destruct (moveNext_spec items x Hmax Hx) as (r & Hr & Hrange & Hres).
  exists r. split; [assumption|]. split; [assumption|].
  destruct Hres as [[_ Hfirst]|Hnone].
  - specialize (Hfirst s Hs).
    assert (Hnot : ~ (x < s < r \/ r <= x /\ (x < s \/ s < r))).
    { intros Hb. rewrite (Hfirst Hb) in Hsel. discriminate. }
    cases_on_comparisons; lia.
  - rewrite (Hnone s Hs) in Hsel. discriminate.
Qed.

Lemma iterNext_reaches (items : list (MenuItem E)) (s : Z) :
  len items <= max_int ->
  0 <= s < len items ->
  selectable_at items s = true ->
  forall (d : nat) (x : Z),
    0 <= x < len items ->
    (if x <=? s then s - x else len items - x + s) <= Z.of_nat d ->
    exists k, (k <= d)%nat /\ iterNext k items x = Ok s.
Proof.
  intros Hmax Hs Hsel. induction d as [|d IH]; intros x Hx Hd.
  - exists 0%nat. split; [lia|]. simpl. f_equal.
    revert Hd. cases_on_comparisons; lia.
  - destruct (Z.eq_dec x s) as [->|Hne].
    + exists 0%nat. split; [lia|reflexivity].
    + destruct (moveNext_approaches items s x Hmax Hs Hsel Hx Hne)
        as (r & Hr & Hrange & Hlt).
      destruct (IH r Hrange) as (k & Hk & Hiter); [lia|].
      exists (S k). split; [lia|]. simpl. rewrite Hr. exact Hiter.
Qed.

Lemma iterNext_selectable (items : list (MenuItem E)) :
  len items <= max_int ->
  hasSelectable items = true ->
  forall (k : nat) (x : Z),
    (0 < k)%nat -> 0 <= x < len items ->
    exists r, iterNext k items x = Ok r /\ 0 <= r < len items /\
              selectable_at items r = true.
Proof.
  intros Hmax Hhas. induction k as [|k IH]; intros x Hk Hx; [lia|].
  destruct (moveNext_selectable items x Hmax Hx Hhas)
    as (r & Hr & Hrange & Hsel).
  simpl. rewrite Hr. simpl.
  destruct k as [|k'].
  - exists r. simpl. auto.
  - apply IH; [lia|assumption].
Qed.

(** C4 (amended): with at least one selectable entry and a selection
    inside the entries, every press of move-next succeeds and lands on
    a selectable entry; when the starting selection is itself a
    selectable entry, at most [len items] presses bring the selection
    back to it. *)
Theorem move_next_cycles (items : list (MenuItem E)) (x : Z) :
  len items <= max_int ->
  0 <= x < len items ->
  hasSelectable items = true ->
  (forall k, (0 < k)%nat ->
     exists r, iterNext k items x = Ok r /\ selectable_at items r = true) /\
  (selectable_at items x = true ->
   exists k, (0 < k <= List.length items)%nat /\ iterNext k items x = Ok x).
Proof.
  intros Hmax Hx Hhas. split.
  - intros k Hk.
    destruct (iterNext_selectable items Hmax Hhas k x Hk Hx)
      as (r & Hr & _ & Hsel).
    exists r. auto.
  - intros Hsel.
    destruct (moveNext_selectable items x Hmax Hx Hhas)
      as (r & Hr & Hrange & _).
    destruct (iterNext_reaches items x Hmax Hx Hsel
                (List.length items - 1) r Hrange) as (k & Hk & Hiter).
    + unfold len in *. cases_on_comparisons; lia.
    + exists (S k). split; [unfold len in *; lia|].
      simpl. rewrite Hr. exact Hiter.
Qed.

(** ** Skipping backward *)

Lemma skipBackward_spec (fuel : nat) (items : list (MenuItem E))
      (start sel : Z) :
  len items <= max_int ->
  0 <= start < len items ->
  0 <= sel < len items ->
  (forall j, passedBackward (len items) start sel j ->
             selectable_at items j = false) ->
  (if sel <=? start then len items - start + sel else sel - start)
    <= Z.of_nat fuel ->
  exists r,
    skipBackward fuel items start sel = Ok r /\
    0 <= r < len items /\
    (selectable_at items r = true \/
     forall j, 0 <= j < len items -> selectable_at items j = false).
Proof.
  revert sel.
  induction fuel as [|f IH]; intros sel Hmax Hstart Hsel Hpassed Hfuel.
  - destruct (sel <=? start) eqn:Hc;
      [apply Z.leb_le in Hc | apply Z.leb_gt in Hc]; simpl in Hfuel; lia.
  - simpl.
    destruct (index_in_range items sel Hsel) as [it Hit].
    rewrite Hit. simpl.
    pose proof (selectable_at_index items sel it Hit) as Hsa.
    destruct (unselectable it) eqn:Hu; simpl in Hsa.
    + assert (Hw : isub sel 1 = sel - 1) by no_overflow.
      assert (Hw' : isub (len items) 1 = len items - 1) by no_overflow.
      rewrite Hw, Hw'.
      set (sel' := if sel - 1 <? 0 then len items - 1 else sel - 1).
      assert (Hcases : (1 <= sel /\ sel' = sel - 1) \/
                       (sel = 0 /\ sel' = len items - 1)).
      { unfold sel'. destruct (sel - 1 <? 0) eqn:Hlt.
        - apply Z.ltb_lt in Hlt. right. lia.
        - apply Z.ltb_ge in Hlt. left. lia. }
      clearbody sel'.
      destruct (sel' =? start) eqn:Heq.
      * apply Z.eqb_eq in Heq. exists sel'. split; [reflexivity|].
        split; [lia|]. right.
        intros j Hj.
        destruct (Z.eq_dec j sel) as [->|Hne]; [assumption|].
        apply Hpassed. unfold passedBackward. split; [assumption|]. lia.
      * apply Z.eqb_neq in Heq.
        apply IH; try assumption; try lia.
        -- intros j [Hj Hp].
           destruct (Z.eq_dec j sel) as [->|Hne]; [assumption|].
           apply Hpassed. unfold passedBackward. split; [assumption|]. lia.
        -- revert Hfuel. cases_on_comparisons; lia.
    + exists sel. split; [reflexivity|]. split; [assumption|].
      left. assumption.
Qed.

Lemma movePrev_selectable (items : list (MenuItem E)) (x : Z) :
  len items <= max_int ->
  0 <= x < len items ->
  exists r, movePrev items x = Ok r /\ 0 <= r < len items /\
            (hasSelectable items = true -> selectable_at items r = true).
Proof.
  intros Hmax Hx. unfold movePrev.
  assert (Hw : isub x 1 = x - 1) by no_overflow.
  assert (Hw' : isub (len items) 1 = len items - 1) by no_overflow.
  rewrite Hw, Hw'.
  set (start := if x - 1 <? 0 then len items - 1 else x - 1).
  assert (Hstart : 0 <= start < len items).
  { unfold start. destruct (x - 1 <? 0) eqn:Hlt.
    - lia.
    - apply Z.ltb_ge in Hlt. lia. }
  clearbody start.
  destruct (skipBackward_spec (S (List.length items)) items start start)
    as (r & Hr & Hrange & Hres); try assumption.
  - intros j [Hj Hp]. lia.
  - rewrite Z.leb_refl. unfold len. lia.
  - exists r. split; [assumption|]. split; [assumption|].
    intros Hhas. destruct Hres as [Hsel|Hnone]; [assumption|].
    apply hasSelectable_at in Hhas. destruct Hhas as (j & Hj & Hsel).
    rewrite (Hnone j Hj) in Hsel. discriminate.
Qed.

Lemma moveNext_total (items : list (MenuItem E)) (x : Z) :
  len items <= max_int ->
  0 <= x < len items ->
  exists r, moveNext items x = Ok r /\ 0 <= r < len items /\
            (hasSelectable items = true -> selectable_at items r = true).
Proof.
  intros Hmax Hx.
  destruct (moveNext_spec items x Hmax Hx) as (r & Hr & Hrange & Hres).
  exists r. split; [assumption|]. split; [assumption|].
  intros Hhas. destruct Hres as [[Hsel _]|Hnone]; [assumption|].
  apply hasSelectable_at in Hhas. destruct Hhas as (j & Hj & Hsel).
  rewrite (Hnone j Hj) in Hsel. discriminate.
Qed.

(** The fuel given to the skip loops is enough: whatever the
    selection, a move stops within one cycle over the entries, with a
    result or with a panic on an index outside the entries. *)
Lemma moves_terminate (items : list (MenuItem E)) (sel : Z) :
  len items <= max_int ->
  moveNext items sel <> OutOfFuel /\ movePrev items sel <> OutOfFuel.
Proof.
  intros Hmax. split.
  - unfold moveNext.
    set (start := if iadd sel 1 >=? len items then 0 else iadd sel 1).
    destruct (Z_lt_ge_dec start 0) as [Hneg|Hpos].
    + cbn [skipForward]. unfold index at 1.
      destruct (Z.ltb_spec start 0); [discriminate|lia].
    + destruct (Z_lt_ge_dec start (len items)) as [Hin|Hout].
      * destruct (skipForward_spec (S (List.length items)) items start start)
          as (r & Hr & _); try lia.
        -- intros j [Hj Hp]. lia.
        -- rewrite Z.leb_refl. unfold len. lia.
        -- rewrite Hr. discriminate.
      * cbn [skipForward]. unfold index at 1.
        destruct (start <? 0); [discriminate|].
        destruct (nth_error items (Z.to_nat start)) eqn:Hn;
          [|discriminate].
        assert (Z.to_nat start < List.length items)%nat
          by (apply nth_error_Some; congruence).
        unfold len in *. lia.
  - unfold movePrev.
    set (start := if isub sel 1 <? 0 then isub (len items) 1
                  else isub sel 1).
    destruct (Z_lt_ge_dec start 0) as [Hneg|Hpos].
    + cbn [skipBackward]. unfold index at 1.
      destruct (Z.ltb_spec start 0); [discriminate|lia].
    + destruct (Z_lt_ge_dec start (len items)) as [Hin|Hout].
      * destruct (skipBackward_spec (S (List.length items)) items start start)
          as (r & Hr & _); try lia.
        -- intros j [Hj Hp]. lia.
        -- rewrite Z.leb_refl. unfold len. lia.
        -- rewrite Hr. discriminate.
      * cbn [skipBackward]. unfold index at 1.
        destruct (start <? 0); [discriminate|].
        destruct (nth_error items (Z.to_nat start)) eqn:Hn;
          [|discriminate].
        assert (Z.to_nat start < List.length items)%nat
          by (apply nth_error_Some; congruence).
        unfold len in *. lia.
Qed.

(** ** Unfolding the recursive functions *)

Lemma Model_chain_ind (P : Model E -> Prop) :
  (forall m, (forall c, SubMenuState m = Some c -> P c) -> P m) ->
  forall m, P m.
Proof.
  intros H. fix IH 1. intros [items act sel open sub st dd].
  apply H. simpl. intros c Hc.
  destruct sub as [c'|]; [|discriminate].
  injection Hc as <-. apply IH.
Qed.

Lemma Update_key (m : Model E) (key : string) :
  Update m (KeyMsg key) =
  if negb (Active m) then Ok (m, None)
  else
    match SubMenuState m with
    | Some c =>
        if OpenSubMenu m =? -1 then onKeyMsg m key
        else
          r <- intercept m c (KeyMsg key) ;;
          match r with
          | Some out => Ok out
          | None =>
              '(newSubModel, cmd) <- Update c (KeyMsg key) ;;
              let m := set_SubMenuState m (Some newSubModel) in
              if negb (Active newSubModel)
              then Ok (closeSubMenu m, cmd)
              else Ok (m, cmd)
          end
    | None => onKeyMsg m key
    end.
Proof. destruct m; reflexivity. Qed.

Lemma Update_other (m : Model E) :
  Update m OtherMsg =
  if negb (Active m) then Ok (m, None)
  else
    match SubMenuState m with
    | Some c =>
        if OpenSubMenu m =? -1 then Ok (m, None)
        else
          r <- intercept m c OtherMsg ;;
          match r with
          | Some out => Ok out
          | None =>
              '(newSubModel, cmd) <- Update c OtherMsg ;;
              let m := set_SubMenuState m (Some newSubModel) in
              if negb (Active newSubModel)
              then Ok (closeSubMenu m, cmd)
              else Ok (m, cmd)
          end
    | None => Ok (m, None)
    end.
Proof. destruct m; reflexivity. Qed.

Lemma Update_mouse (m : Model E) (msg : MouseMsg) :
  Update m (Mouse msg) = handleMouse m msg.
Proof. destruct m; reflexivity. Qed.

Lemma checkMouse_eq (m : Model E) (msg : MouseMsg) (baseX baseY : Z) :
  checkMouse m msg baseX baseY =
  match SubMenuState m with
  | Some c =>
      if OpenSubMenu m =? -1 then checkSelf m msg baseX baseY
      else
        '(subX, subY) <- submenuOrigin m baseX baseY ;;
        '(handled, cmd, c') <- checkMouse c msg subX subY ;;
        let m := set_SubMenuState m (Some c') in
        if handled then Ok (true, cmd, m)
        else checkSelf m msg baseX baseY
  | None => checkSelf m msg baseX baseY
  end.
Proof. destruct m; reflexivity. Qed.

Lemma wantsToHandleRight_eq (m : Model E) :
  wantsToHandleRight m =
  let own :=
    if len (Items m) >? 0 then
      it <- index (Items m) (Selection m) ;;
      Ok (len (SubMenu it) >? 0)
    else Ok false in
  match SubMenuState m with
  | Some c => if OpenSubMenu m =? -1 then own else wantsToHandleRight c
  | None => own
  end.
Proof. destruct m; reflexivity. Qed.

(** ** Valid chains *)

Lemma nodeValid_inv (m : Model E) :
  nodeValid m = true ->
  0 <= Selection m < len (Items m) /\ len (Items m) <= max_int /\
  itemsBounded (Items m) = true.
Proof.
  unfold nodeValid, itemsBounded. intros H.
  apply andb_prop in H. destruct H as [H Hb].
  apply andb_prop in H. destruct H as [H0 H1].
  pose proof Hb as Hb'.
  apply andb_prop in Hb'. destruct Hb' as [Hl _].
  apply Z.leb_le in H0, Hl. apply Z.ltb_lt in H1. auto.
Qed.

Lemma nodeValid_intro (items : list (MenuItem E)) (sel : Z) :
  0 <= sel < len items -> itemsBounded items = true ->
  forall act open sub st dd,
    nodeValid (mkModel items act sel open sub st dd) = true.
Proof.
  intros [H0 H1] Hb act open sub st dd. unfold nodeValid. simpl.
  rewrite Hb.
  apply Z.leb_le in H0. apply Z.ltb_lt in H1. now rewrite H0, H1.
Qed.

Lemma chainValid_eq (m : Model E) :
  chainValid m =
  nodeValid m && match SubMenuState m with
                 | Some c => chainValid c
                 | None => true
                 end.
Proof. destruct m; reflexivity. Qed.

Lemma itemsBounded_index (items : list (MenuItem E)) (i : Z)
      (it : MenuItem E) :
  itemsBounded items = true -> index items i = Ok it ->
  itemsBounded (SubMenu it) = true.
Proof.
  unfold itemsBounded at 1. intros H Hidx.
  apply andb_prop in H. destruct H as [_ Hall].
  apply index_inv in Hidx. destruct Hidx as [_ Hn].
  apply nth_error_In in Hn.
  rewrite forallb_forall in Hall. specialize (Hall it Hn).
  destruct it. exact Hall.
Qed.

Lemma freshChild_valid (st : Styles Style) (sub : list (MenuItem E)) :
  sub <> [] -> itemsBounded sub = true ->
  chainValid (freshChild st sub) = true.
Proof.
  intros Hne Hb. unfold freshChild. rewrite chainValid_eq. simpl.
  rewrite andb_true_r. apply nodeValid_intro; [|assumption].
  destruct sub; [congruence|]. unfold len. simpl. lia.
Qed.

Lemma openCurrentSelection_valid (m : Model E) :
  chainValid m = true ->
  exists m',
    openCurrentSelection m = Ok m' /\ chainValid m' = true /\
    Items m' = Items m /\ Selection m' = Selection m /\
    Active m' = Active m /\ isDropdown m' = isDropdown m.
Proof.
  intros Hv. rewrite chainValid_eq in Hv.
  apply andb_prop in Hv. destruct Hv as [Hn Hc].
  destruct (nodeValid_inv m Hn) as (Hsel & Hmax & Hb).
  destruct (index_in_range (Items m) (Selection m) Hsel) as [it Hit].
  destruct (SubMenu it) as [|x xs] eqn:Hs.
  - exists m. rewrite (openCurrentSelection_leaf m it Hit Hs).
    rewrite chainValid_eq, Hn, Hc. repeat split; reflexivity.
  - assert (Hne : SubMenu it <> []) by congruence.
    rewrite (openCurrentSelection_submenu m it Hit Hne).
    eexists. split; [reflexivity|].
    split; [|repeat split; reflexivity].
    rewrite chainValid_eq. cbn [SubMenuState].
    rewrite (freshChild_valid _ _ Hne (itemsBounded_index _ _ _ Hb Hit)).
    rewrite andb_true_r. apply nodeValid_intro; assumption.
Qed.

Lemma chainValid_set_Selection (m : Model E) (sel : Z) :
  chainValid m = true -> 0 <= sel < len (Items m) ->
  chainValid (set_Selection m sel) = true.
Proof.
  intros Hv Hsel. rewrite chainValid_eq in Hv.
  apply andb_prop in Hv. destruct Hv as [Hn Hc].
  destruct (nodeValid_inv m Hn) as (_ & _ & Hb).
  rewrite chainValid_eq. simpl. rewrite Hc, andb_true_r.
  apply nodeValid_intro; assumption.
Qed.

Lemma chainValid_set_Active (m : Model E) (b : bool) :
  chainValid m = true -> chainValid (set_Active m b) = true.
Proof. destruct m. intros H. exact H. Qed.

Lemma chainValid_closeSubMenu (m : Model E) :
  chainValid m = true -> chainValid (closeSubMenu m) = true.
Proof.
  intros Hv. rewrite chainValid_eq in Hv.
  apply andb_prop in Hv. destruct Hv as [Hn _].
  destruct m. rewrite chainValid_eq. simpl. rewrite andb_true_r. exact Hn.
Qed.

Lemma chainValid_set_child (m c : Model E) :
  chainValid m = true -> chainValid c = true ->
  chainValid (set_SubMenuState m (Some c)) = true.
Proof.
  intros Hv Hc. rewrite chainValid_eq in Hv.
  apply andb_prop in Hv. destruct Hv as [Hn _].
  destruct m. rewrite chainValid_eq. simpl. rewrite Hc, andb_true_r.
  exact Hn.
Qed.

Lemma wantsToHandleRight_total (m : Model E) :
  chainValid m = true -> exists b, wantsToHandleRight m = Ok b.
Proof.
  induction m as [m IH] using Model_chain_ind. intros Hv.
  rewrite chainValid_eq in Hv.
  apply andb_prop in Hv. destruct Hv as [Hn Hc].
  destruct (nodeValid_inv m Hn) as (Hsel & _ & _).
  rewrite wantsToHandleRight_eq.
  assert (Hown : exists b,
             (if len (Items m) >? 0 then
                it <- index (Items m) (Selection m) ;;
                Ok (len (SubMenu it) >? 0)
              else Ok false) = Ok b).
  { destruct (len (Items m) >? 0); [|eauto].
    destruct (index_in_range _ _ Hsel) as [it ->]. simpl. eauto. }
  cbv zeta.
  destruct (SubMenuState m) as [c|] eqn:Hsub; [|exact Hown].
  destruct (OpenSubMenu m =? -1); [exact Hown|].
  apply (IH c eq_refl Hc).
Qed.

(** ** Key presses on valid chains *)

Lemma findHotkey_found (eq : string -> string -> bool) (key : string)
      (items : list (MenuItem E)) (i0 i : nat) (item : MenuItem E) :
  findHotkey eq key items i0 = Some (i, item) ->
  exists j, i = (i0 + j)%nat /\ nth_error items j = Some item /\
            unselectable item = false /\
            Hotkey item <> "" /\ eq key (Hotkey item) = true.
Proof.
  revert i0. induction items as [|it rest IH]; intros i0 H; [discriminate|].
  simpl in H.
  fold (unselectable it) in H.
  destruct (unselectable it) eqn:Hu.
  - destruct (IH _ H) as (j & -> & Hn & Hrest).
    exists (S j). split; [lia|]. split; assumption.
  - destruct (negb (Hotkey it =? "")%string && eq key (Hotkey it)) eqn:Hm.
    + injection H as <- <-. exists 0%nat. split; [lia|].
      split; [reflexivity|]. split; [assumption|].
      apply andb_prop in Hm. destruct Hm as [Hne Heq].
      split; [|assumption].
      apply negb_true_iff in Hne. now apply String.eqb_neq in Hne.
    + destruct (IH _ H) as (j & -> & Hn & Hrest).
      exists (S j). split; [lia|]. split; assumption.
Qed.

Lemma findHotkey_none (eq : string -> string -> bool) (key : string)
      (items : list (MenuItem E)) (i0 : nat) :
  findHotkey eq key items i0 = None <->
  (forall it, In it items -> unselectable it = false ->
              Hotkey it <> "" -> eq key (Hotkey it) = false).
Proof.
  revert i0. induction items as [|it rest IH]; intros i0; simpl.
  - split; [intros _ it []|reflexivity].
  - fold (unselectable it).
    destruct (unselectable it) eqn:Hu.
    + rewrite IH. split.
      * intros H it' [<-|Hin]; [congruence|auto].
      * intros H it' Hin. apply H. now right.
    + destruct (Hotkey it =? "")%string eqn:Hh; simpl.
      * apply String.eqb_eq in Hh. rewrite IH. split.
        -- intros H it' [<-|Hin]; [congruence|auto].
        -- intros H it' Hin. apply H. now right.
      * apply String.eqb_neq in Hh.
        destruct (eq key (Hotkey it)) eqn:Heq.
        -- split; [discriminate|].
           intros H. specialize (H it (or_introl eq_refl) Hu Hh). congruence.
        -- rewrite IH. split.
           ++ intros H it' [<-|Hin]; [auto|auto].
           ++ intros H it' Hin. apply H. now right.
Qed.

Lemma keyStep_refl (m : Model E) : chainValid m = true -> keyStep m m.
Proof. intros H. unfold keyStep. auto. Qed.

Lemma keyStep_select (m : Model E) (sel : Z) :
  chainValid m = true -> 0 <= sel < len (Items m) ->
  (hasSelectable (Items m) = true -> selectable_at (Items m) sel = true) ->
  keyStep m (set_Selection m sel).
Proof.
  intros Hv Hsel Hok. unfold keyStep.
  split; [apply chainValid_set_Selection; assumption|].
  split; [reflexivity|]. right. exact Hok.
Qed.

Lemma keyStep_open (m m1 m' : Model E) :
  keyStep m m1 ->
  openCurrentSelection m1 = Ok m' ->
  keyStep m m'.
Proof.
  intros (Hv & Hitems & Hsel) Hopen.
  destruct (openCurrentSelection_valid m1 Hv)
    as (m2 & Hopen2 & Hv2 & Hi2 & Hs2 & _).
  rewrite Hopen in Hopen2. injection Hopen2 as <-.
  unfold keyStep. rewrite Hi2, Hs2. auto.
Qed.

Lemma open_after_step (m m1 : Model E) :
  keyStep m m1 ->
  exists m', openCurrentSelection m1 = Ok m' /\ keyStep m m'.
Proof.
  intros Hstep. pose proof Hstep as (Hv & _).
  destruct (openCurrentSelection_valid m1 Hv) as (m' & Hopen & _).
  exists m'. split; [assumption|]. eapply keyStep_open; eassumption.
Qed.

Lemma onHotkey_valid (m : Model E) (i : nat) (item : MenuItem E) :
  chainValid m = true ->
  nth_error (Items m) i = Some item ->
  unselectable item = false ->
  exists m' cmd, onHotkey m i item = Ok (m', cmd) /\ keyStep m m'.
Proof.
  intros Hv Hn Hu.
  assert (Hrange : 0 <= Z.of_nat i < len (Items m)).
  { assert (i < List.length (Items m))%nat
      by (apply nth_error_Some; congruence).
    unfold len. lia. }
  assert (Hstep : keyStep m (set_Selection m (Z.of_nat i))).
  { apply keyStep_select; try assumption. intros _.
    unfold selectable_at, selectable.
    now rewrite (index_of_nat _ _ _ Hn), Hu. }
  unfold onHotkey.
  destruct (len (SubMenu item) >? 0).
  - destruct (open_after_step _ _ Hstep) as (m' & -> & Hstep').
    simpl. eauto.
  - destruct (Action item); eauto.
Qed.

Lemma onKey_valid (m : Model E) (key : string) :
  chainValid m = true ->
  exists m' cmd, onKey m key = Ok (m', cmd) /\ keyStep m m'.
Proof.
  intros Hv. pose proof Hv as Hv'.
  rewrite chainValid_eq in Hv'.
  apply andb_prop in Hv'. destruct Hv' as [Hn _].
  destruct (nodeValid_inv m Hn) as (Hsel & Hmax & _).
  destruct (movePrev_selectable (Items m) (Selection m) Hmax Hsel)
    as (rp & Hrp & Hrpr & Hrps).
  destruct (moveNext_total (Items m) (Selection m) Hmax Hsel)
    as (rn & Hrn & Hrnr & Hrns).
  destruct (index_in_range _ _ Hsel) as [it Hit].
  destruct (open_after_step m m (keyStep_refl m Hv)) as (mo & Hmo & Hso).
  assert (Hact : keyStep m (set_Active m false)).
  { destruct m. exact (keyStep_refl _ Hv). }
  assert (Hclose : keyStep m (closeSubMenu m)).
  { unfold keyStep. split; [now apply chainValid_closeSubMenu|].
    destruct m. simpl. auto. }
  unfold onKey.
  rewrite Hrp, Hrn, Hit, Hmo. simpl.
  repeat match goal with
         | |- context [if ?b then _ else _] => destruct b
         | |- context [match Action ?i with _ => _ end] => destruct (Action i)
         end;
    eauto using keyStep_refl, keyStep_select.
Qed.

Lemma onKeyMsg_valid (m : Model E) (key : string) :
  chainValid m = true ->
  exists m' cmd, onKeyMsg m key = Ok (m', cmd) /\ keyStep m m'.
Proof.
  intros Hv. unfold onKeyMsg.
  destruct (findHotkey String.eqb key (Items m) 0) as [[i item]|] eqn:H1.
  - destruct (findHotkey_found _ _ _ _ _ _ H1) as (j & -> & Hn & Hu & _).
    now apply onHotkey_valid.
  - destruct (findHotkey EqualFold key (Items m) 0) as [[i item]|] eqn:H2.
    + destruct (findHotkey_found _ _ _ _ _ _ H2) as (j & -> & Hn & Hu & _).
      now apply onHotkey_valid.
    + now apply onKey_valid.
Qed.

Lemma intercept_valid (m c : Model E) (msg : TeaMsg) :
  chainValid m = true -> chainValid c = true ->
  exists r, intercept m c msg = Ok r /\
            match r with
            | Some (m', _) => keyStep m m'
            | None => True
            end.
Proof.
  intros Hv Hc. pose proof Hv as Hv'.
  rewrite chainValid_eq in Hv'.
  apply andb_prop in Hv'. destruct Hv' as [Hn _].
  destruct (nodeValid_inv m Hn) as (Hsel & Hmax & _).
  destruct (movePrev_selectable (Items m) (Selection m) Hmax Hsel)
    as (rp & Hrp & Hrpr & Hrps).
  destruct (moveNext_total (Items m) (Selection m) Hmax Hsel)
    as (rn & Hrn & Hrnr & Hrns).
  destruct (open_after_step m _ (keyStep_select m rp Hv Hrpr Hrps))
    as (mp & Hmp & Hsp).
  destruct (open_after_step m _ (keyStep_select m rn Hv Hrnr Hrns))
    as (mn & Hmn & Hsn).
  destruct (wantsToHandleRight_total c Hc) as [w Hw].
  unfold intercept.
  destruct (isDropdown m); [exists None; auto|].
  destruct msg as [key|mm|]; [|exists None; auto|exists None; auto].
  rewrite Hrp, Hrn, Hw. simpl. rewrite Hmp, Hmn. simpl.
  destruct (key =? "left")%string.
  - destruct (negb (hasOpenSubmenu c)); [|exists None; auto].
    eexists. split; [reflexivity|]. exact Hsp.
  - destruct (key =? "right")%string; [|exists None; auto].
    destruct (negb w); [|exists None; auto].
    eexists. split; [reflexivity|]. exact Hsn.
Qed.

Lemma Update_key_valid (m : Model E) (key : string) :
  chainValid m = true ->
  exists m' cmd, Update m (KeyMsg key) = Ok (m', cmd) /\ keyStep m m'.
Proof.
  induction m as [m IH] using Model_chain_ind. intros Hv.
  rewrite Update_key.
  destruct (negb (Active m)); [eauto using keyStep_refl|].
  destruct (SubMenuState m) as [c|] eqn:Hsub;
    [|now apply onKeyMsg_valid].
  destruct (OpenSubMenu m =? -1); [now apply onKeyMsg_valid|].
  assert (Hc : chainValid c = true).
  { rewrite chainValid_eq, Hsub in Hv.
    apply andb_prop in Hv. tauto. }
  destruct (intercept_valid m c (KeyMsg key) Hv Hc) as (r & -> & Hr).
  simpl. destruct r as [[m' cmd]|]; [eauto|].
  destruct (IH c eq_refl Hc) as (c' & cmd & -> & Hc' & _).
  simpl.
  assert (Hset : keyStep m (set_SubMenuState m (Some c'))).
  { unfold keyStep. split; [now apply chainValid_set_child|].
    destruct m. simpl. auto. }
  destruct (negb (Active c')); [|eauto].
  exists (closeSubMenu (set_SubMenuState m (Some c'))), cmd.
  split; [reflexivity|].
  destruct Hset as (Hv1 & Hi1 & Hs1).
  unfold keyStep. split; [now apply chainValid_closeSubMenu|].
  destruct m. simpl in *. auto.
Qed.

Lemma keyStep_invariant (m m' : Model E) :
  keyStep m m' ->
  selectionInvariant m = true -> selectionInvariant m' = true.
Proof.
  intros (_ & Hi & Hs). unfold selectionInvariant. rewrite Hi.
  destruct (hasSelectable (Items m)) eqn:Hhas; simpl; [|reflexivity].
  destruct Hs as [->|Hs]; auto.
Qed.

(** ** What a successful step leaves in place *)

Lemma openCurrentSelection_fields (m m' : Model E) :
  openCurrentSelection m = Ok m' ->
  Items m' = Items m /\ Selection m' = Selection m /\
  Active m' = Active m /\ isDropdown m' = isDropdown m /\
  ModelStyles m' = ModelStyles m /\ 0 <= Selection m.
Proof.
  unfold openCurrentSelection.
  destruct (index (Items m) (Selection m)) as [it| |] eqn:Hit;
    simpl; try discriminate.
  apply index_inv in Hit. destruct Hit as [Hr _].
  destruct (len (SubMenu it) >? 0); intros H; injection H as <-;
    simpl; repeat split; try reflexivity; lia.
Qed.

Lemma linked_eq (m : Model E) :
  linked m =
  match SubMenuState m with
  | Some c => negb (OpenSubMenu m =? -1) && linked c
  | None => OpenSubMenu m =? -1
  end.
Proof. destruct m; reflexivity. Qed.

Lemma linked_set_Selection (m : Model E) (i : Z) :
  linked (set_Selection m i) = linked m.
Proof. destruct m; reflexivity. Qed.

Lemma linked_set_Active (m : Model E) (b : bool) :
  linked (set_Active m b) = linked m.
Proof. destruct m; reflexivity. Qed.

Lemma linked_set_Styles (m : Model E) (st : Styles Style) :
  linked (set_Styles m st) = linked m.
Proof. destruct m; reflexivity. Qed.

Lemma linked_closeSubMenu (m : Model E) : linked (closeSubMenu m) = true.
Proof. destruct m; reflexivity. Qed.

Lemma linked_set_child (m c : Model E) :
  (OpenSubMenu m =? -1) = false -> linked c = true ->
  linked (set_SubMenuState m (Some c)) = true.
Proof.
  intros Ho Hc. rewrite linked_eq. destruct m. simpl in *.
  now rewrite Ho, Hc.
Qed.

Lemma linked_open (m m' : Model E) :
  linked m = true -> openCurrentSelection m = Ok m' -> linked m' = true.
Proof.
  intros Hl. unfold openCurrentSelection.
  destruct (index (Items m) (Selection m)) as [it| |] eqn:Hit;
    simpl; try discriminate.
  apply index_inv in Hit. destruct Hit as [Hr _].
  destruct (len (SubMenu it) >? 0); intros H; injection H as <-;
    [|assumption].
  rewrite linked_eq. simpl.
  destruct (Selection m =? -1) eqn:Hs; [apply Z.eqb_eq in Hs; lia|].
  reflexivity.
Qed.

(** ** Pointer events *)

Lemma hitDropdownItem_result (m : Model E) (msg : MouseMsg) (localY : Z)
      (items : list (MenuItem E)) (i : nat) (currentY : Z)
      (h : bool) (cmd : Cmd) (m' : Model E) :
  (forall k it, nth_error items k = Some it ->
                nth_error (Items m) (i + k) = Some it) ->
  hitDropdownItem m msg localY items i currentY = Ok (h, cmd, m') ->
  h = true /\ Items m' = Items m /\ Active m' = Active m /\
  (linked m = true -> linked m' = true) /\
  (Selection m' = Selection m \/
   selectable_at (Items m) (Selection m') = true).
Proof.
  revert i currentY.
  induction items as [|it rest IH]; intros i currentY Hsuffix; simpl.
  - intros H. injection H as <- <- <-. auto 6.
  - destruct ((localY >=? currentY) && _).
    + fold (unselectable it).
      destruct (unselectable it) eqn:Hu.
      * intros H. injection H as <- <- <-. auto 6.
      * assert (Hsel : selectable_at (Items m) (Z.of_nat i) = true).
        { unfold selectable_at, selectable.
          specialize (Hsuffix 0%nat it eq_refl).
          rewrite Nat.add_0_r in Hsuffix.
          now rewrite (index_of_nat _ _ _ Hsuffix), Hu. }
        destruct (Type_ msg).
        -- destruct (len (SubMenu it) >? 0).
           ++ destruct (openCurrentSelection (set_Selection m (Z.of_nat i)))
                as [mo| |] eqn:Ho; simpl; try discriminate.
              intros H. injection H as <- <- <-.
              destruct (openCurrentSelection_fields _ _ Ho)
                as (Hi & Hs & Ha & _).
              rewrite Hi, Hs, Ha. simpl.
              repeat split; auto.
              intros Hl. eapply linked_open; [|exact Ho].
              now rewrite linked_set_Selection.
           ++ destruct (Action it); intros H; injection H as <- <- <-;
                rewrite linked_set_Selection; simpl; auto 6.
        -- destruct (negb _ && negb _); intros H; injection H as <- <- <-.
           ++ rewrite linked_closeSubMenu. destruct m; simpl in *. auto 6.
           ++ rewrite linked_set_Selection. simpl. auto 6.
        -- intros H; injection H as <- <- <-.
           rewrite linked_set_Selection. simpl. auto 6.
    + apply IH. intros k it' Hk.
      replace (S i + k)%nat with (i + S k)%nat by lia.
      apply Hsuffix. exact Hk.
Qed.

Lemma hitBarItem_result (m : Model E) (msg : MouseMsg)
      (items : list (MenuItem E)) (i : nat) (currentX : Z)
      (h : bool) (cmd : Cmd) (m' : Model E) :
  hitBarItem m msg items i currentX = Ok (h, cmd, m') ->
  h = true /\ Items m' = Items m /\
  (linked m = true -> linked m' = true).
Proof.
  revert i currentX.
  induction items as [|it rest IH]; intros i currentX; simpl.
  - intros H. injection H as <- <- <-. auto.
  - destruct (measureItem m (Z.of_nat i)) as [w| |]; simpl;
      try discriminate.
    destruct ((X msg >=? currentX) && _); [|apply IH].
    destruct (Type_ msg).
    + set (m1 := if negb (Active m)
                 then set_Active (set_Selection m (Z.of_nat i)) true
                 else set_Selection m (Z.of_nat i)).
      assert (H1 : Items m1 = Items m /\ linked m1 = linked m).
      { unfold m1. destruct (negb _); simpl;
          rewrite ?linked_set_Active, ?linked_set_Selection; auto. }
      destruct H1 as [Hi1 Hl1]. clearbody m1.
      destruct (len (SubMenu it) >? 0).
      * destruct (OpenSubMenu m1 =? Z.of_nat i).
        -- intros H. injection H as <- <- <-.
           rewrite linked_closeSubMenu. destruct m1; simpl in *. auto.
        -- destruct (openCurrentSelection m1) as [mo| |] eqn:Ho; simpl;
             try discriminate.
           intros H. injection H as <- <- <-.
           destruct (openCurrentSelection_fields _ _ Ho) as (Hi & _).
           rewrite Hi, Hi1. repeat split; auto.
           intros Hl. eapply linked_open; [|exact Ho]. congruence.
      * destruct (Action it); intros H; injection H as <- <- <-;
          rewrite Hl1; auto.
    + destruct (Active _ && _ && _).
      * destruct (openCurrentSelection (set_Selection m (Z.of_nat i)))
          as [mo| |] eqn:Ho; simpl; try discriminate.
        intros H. injection H as <- <- <-.
        destruct (openCurrentSelection_fields _ _ Ho) as (Hi & _).
        rewrite Hi. simpl. repeat split; auto.
        intros Hl. eapply linked_open; [|exact Ho].
        now rewrite linked_set_Selection.
      * intros H. injection H as <- <- <-.
        rewrite linked_set_Selection. simpl. auto.
    + intros H. injection H as <- <- <-.
      rewrite linked_set_Selection. simpl. auto.
Qed.

Lemma checkSelf_result (m : Model E) (msg : MouseMsg) (baseX baseY : Z)
      (h : bool) (cmd : Cmd) (m' : Model E) :
  checkSelf m msg baseX baseY = Ok (h, cmd, m') ->
  Items m' = Items m /\
  (linked m = true -> linked m' = true) /\
  (h = false -> cmd = None /\ m' = m) /\
  (isDropdown m = true ->
   Selection m' = Selection m \/
   selectable_at (Items m) (Selection m') = true).
Proof.
  unfold checkSelf. destruct (isDropdown m).
  - destruct (getDropdownDimensions m) as [[w hh]| |]; simpl;
      try discriminate.
    destruct (_ && _ && _ && _).
    + intros H.
      apply hitDropdownItem_result in H; [|intros k it Hk; exact Hk].
      destruct H as (-> & Hi & _ & Hl & Hs).
      repeat split; auto; discriminate.
    + intros H. injection H as <- <- <-. auto.
  - destruct (_ && _).
    + intros H. apply hitBarItem_result in H.
      destruct H as (-> & Hi & Hl).
      repeat split; auto; discriminate.
    + intros H. injection H as <- <- <-.
      repeat split; auto; discriminate.
Qed.

Lemma set_child_same (m c : Model E) :
  SubMenuState m = Some c -> set_SubMenuState m (Some c) = m.
Proof. destruct m. simpl. now intros ->. Qed.

Lemma checkMouse_result (m : Model E) :
  forall (msg : MouseMsg) (baseX baseY : Z)
         (h : bool) (cmd : Cmd) (m' : Model E),
    checkMouse m msg baseX baseY = Ok (h, cmd, m') ->
    Items m' = Items m /\
    (linked m = true -> linked m' = true) /\
    (h = false -> cmd = None /\ m' = m) /\
    (isDropdown m = true ->
     Selection m' = Selection m \/
     selectable_at (Items m) (Selection m') = true).
Proof.
  induction m as [m IH] using Model_chain_ind.
  intros msg baseX baseY h cmd m'. rewrite checkMouse_eq.
  destruct (SubMenuState m) as [c|] eqn:Hsub;
    [|apply checkSelf_result].
  destruct (OpenSubMenu m =? -1) eqn:Hopen; [apply checkSelf_result|].
  destruct (submenuOrigin m baseX baseY) as [[subX subY]| |]; simpl;
    try discriminate.
  destruct (checkMouse c msg subX subY) as [[[hc cmdc] c']| |] eqn:Hc;
    simpl; try discriminate.
  destruct (IH c eq_refl _ _ _ _ _ _ Hc) as (_ & Hlc & Hun & _).
  assert (Hlm : linked m = true ->
                linked (set_SubMenuState m (Some c')) = true).
  { intros Hl. rewrite linked_eq, Hsub, Hopen in Hl. simpl in Hl.
    apply linked_set_child; auto. }
  destruct hc.
  - intros H. injection H as <- <- <-.
    destruct m; simpl in *. repeat split; auto; discriminate.
  - destruct (Hun eq_refl) as [-> ->].
    rewrite (set_child_same m c Hsub).
    apply checkSelf_result.
Qed.

(** ** The linked-chain invariant under [Update] *)

Lemma onHotkey_linked (m : Model E) (i : nat) (item : MenuItem E)
      (m' : Model E) (cmd : Cmd) :
  linked m = true -> onHotkey m i item = Ok (m', cmd) -> linked m' = true.
Proof.
  intros Hl. unfold onHotkey.
  destruct (len (SubMenu item) >? 0).
  - destruct (openCurrentSelection _) as [mo| |] eqn:Ho; simpl;
      try discriminate.
    intros H. injection H as <- <-.
    eapply linked_open; [|exact Ho]. now rewrite linked_set_Selection.
  - destruct (Action item); intros H; injection H as <- <-;
      now rewrite linked_set_Selection.
Qed.

Lemma onKey_linked (m : Model E) (key : string)
      (m' : Model E) (cmd : Cmd) :
  linked m = true -> onKey m key = Ok (m', cmd) -> linked m' = true.
Proof.
  intros Hl. unfold onKey.
  repeat match goal with
         | |- context [if ?b then _ else _] => destruct b
         | |- context [bind ?c _] =>
             let H := fresh "Hc" in
             destruct c eqn:H; simpl; try discriminate
         | |- context [match Action ?i with _ => _ end] => destruct (Action i)
         end;
    intros H; injection H as <- <-;
    rewrite ?linked_set_Selection, ?linked_set_Active, ?linked_closeSubMenu;
    try assumption; try reflexivity;
    eauto using linked_open.
Qed.

Lemma onKeyMsg_linked (m : Model E) (key : string)
      (m' : Model E) (cmd : Cmd) :
  linked m = true -> onKeyMsg m key = Ok (m', cmd) -> linked m' = true.
Proof.
  intros Hl. unfold onKeyMsg.
  destruct (findHotkey String.eqb key (Items m) 0) as [[i item]|];
    [now apply onHotkey_linked|].
  destruct (findHotkey EqualFold key (Items m) 0) as [[i item]|];
    [now apply onHotkey_linked|].
  now apply onKey_linked.
Qed.

Lemma intercept_linked (m c : Model E) (msg : TeaMsg)
      (m' : Model E) (cmd : Cmd) :
  linked m = true -> intercept m c msg = Ok (Some (m', cmd)) ->
  linked m' = true.
Proof.
  intros Hl. unfold intercept.
  destruct (isDropdown m); [discriminate|].
  destruct msg as [key|mm|]; try discriminate.
  repeat match goal with
         | |- context [if ?b then _ else _] => destruct b
         | |- context [bind ?c _] =>
             let H := fresh "Hc" in
             destruct c eqn:H; simpl; try discriminate
         end;
    intros H; try discriminate; injection H as <- <-;
    (eapply linked_open; [|eassumption]);
    now rewrite linked_set_Selection.
Qed.

Lemma Update_not_mouse (m : Model E) (msg : TeaMsg) :
  (forall mm, msg <> Mouse mm) ->
  Update m msg =
  if negb (Active m) then Ok (m, None)
  else
    let own := match msg with
               | KeyMsg key => onKeyMsg m key
               | _ => Ok (m, None)
               end in
    match SubMenuState m with
    | Some c =>
        if OpenSubMenu m =? -1 then own
        else
          r <- intercept m c msg ;;
          match r with
          | Some out => Ok out
          | None =>
              '(newSubModel, cmd) <- Update c msg ;;
              let m := set_SubMenuState m (Some newSubModel) in
              if negb (Active newSubModel)
              then Ok (closeSubMenu m, cmd)
              else Ok (m, cmd)
          end
    | None => own
    end.
Proof.
  intros Hm. destruct m. destruct msg as [key|mm|]; try reflexivity.
  now destruct (Hm mm).
Qed.

Lemma handleMouse_linked (m : Model E) (msg : MouseMsg)
      (m' : Model E) (cmd : Cmd) :
  linked m = true -> handleMouse m msg = Ok (m', cmd) -> linked m' = true.
Proof.
  intros Hl. unfold handleMouse.
  destruct (checkMouse m msg 0 0) as [[[h c] m1]| |] eqn:Hc; simpl;
    try discriminate.
  destruct (checkMouse_result _ _ _ _ _ _ _ Hc) as (_ & Hl1 & _).
  destruct (negb h && isRelease (Type_ msg)); intros H;
    injection H as <- <-; [apply linked_closeSubMenu|auto].
Qed.

Lemma Update_linked (m : Model E) :
  forall (msg : TeaMsg) (m' : Model E) (cmd : Cmd),
    linked m = true -> Update m msg = Ok (m', cmd) -> linked m' = true.
Proof.
  induction m as [m IH] using Model_chain_ind.
  intros msg m' cmd Hl.
  destruct msg as [key|mm|] eqn:Hmsg;
    [|rewrite Update_mouse; now apply handleMouse_linked|];
    (rewrite Update_not_mouse by (intros mm; discriminate));
    (destruct (negb (Active m));
     [intros H; injection H as <- <-; assumption|]);
    cbv zeta;
    (destruct (SubMenuState m) as [c|] eqn:Hsub;
     [|first [now apply onKeyMsg_linked
             |intros H; injection H as <- <-; assumption]]);
    (destruct (OpenSubMenu m =? -1) eqn:Hopen;
     [first [now apply onKeyMsg_linked
            |intros H; injection H as <- <-; assumption]|]);
    (destruct (intercept m c _) as [[[mi ci]|]| |] eqn:Hint; simpl;
     try discriminate;
     [intros H; injection H as <- <-;
      eapply intercept_linked; eassumption|]);
    (destruct (Update c _) as [[c' cc]| |] eqn:Hc; simpl;
     try discriminate);
    (assert (Hlc : linked c' = true)
      by (eapply (IH c eq_refl); [|exact Hc];
          rewrite linked_eq, Hsub, Hopen in Hl; simpl in Hl; exact Hl));
    (destruct (negb (Active c')); intros H; injection H as <- <-;
     [apply linked_closeSubMenu|now apply linked_set_child]).
Qed.

Lemma reachable_linked (m : Model E) : reachable m -> linked m = true.
Proof.
  induction 1 as [items|m b _ IH|m st _ IH|m msg m' cmd _ IH Hup].
  - reflexivity.
  - now rewrite linked_set_Active.
  - now rewrite linked_set_Styles.
  - eapply Update_linked; eassumption.
Qed.

(** C6: in every reachable state each node of the chain has a child
    exactly when its open-child index is set (a node holds at most one
    child, so at most one chain is open); and whatever submenu is
    open, opening the non-empty submenu of entry [b] leaves exactly
    one open level below the node: the fresh dropdown of entry [b],
    recorded under index [b]. *)
Theorem single_open_chain (m : Model E) :
  reachable m ->
  linked m = true /\
  forall (b : Z) (item : MenuItem E),
    index (Items m) b = Ok item ->
    SubMenu item <> [] ->
    exists m',
      openCurrentSelection (set_Selection m b) = Ok m' /\
      OpenSubMenu m' = b /\
      SubMenuState m' = Some (freshChild (ModelStyles m) (SubMenu item)) /\
      openLevels m' = 1%nat /\
      linked m' = true.
Proof.
  intros Hr. pose proof (reachable_linked m Hr) as Hl.
  split; [assumption|].
  intros b item Hidx Hsub.
  assert (Hidx' : index (Items (set_Selection m b))
                        (Selection (set_Selection m b)) = Ok item)
    by exact Hidx.
  pose proof (openCurrentSelection_submenu _ _ Hidx' Hsub) as Hopen.
  eexists. split; [exact Hopen|].
  repeat split.
  eapply linked_open; [|exact Hopen]. now rewrite linked_set_Selection.
Qed.

(** C7: a pointer release that no level of the chain claims (the hit
    test of the bar and of every open dropdown answers "not handled")
    leaves the bar inactive, with no open-child index and no child,
    and emits no command, however many dropdown levels were open. *)
Theorem release_outside_closes (m : Model E) (msg : MouseMsg)
        (cmd : Cmd) (m1 : Model E) :
  Type_ msg = MouseRelease ->
  checkMouse m msg 0 0 = Ok (false, cmd, m1) ->
  Update m (Mouse msg) =
  Ok (mkModel (Items m) false (Selection m) (-1) None
              (ModelStyles m) (isDropdown m), None).
Proof.
  intros Hrel Hcheck.
  destruct (checkMouse_result _ _ _ _ _ _ _ Hcheck) as (_ & _ & Hun & _).
  destruct (Hun eq_refl) as [-> ->].
  rewrite Update_mouse. unfold handleMouse.
  rewrite Hcheck. simpl. rewrite Hrel. reflexivity.
Qed.

(** ** Hotkeys *)

Lemma findHotkey_firstIndex_none (eq : string -> string -> bool)
      (key : string) (items : list (MenuItem E)) (i0 : nat) :
  firstIndex (hotkeyCandidate eq key) items i0 = None ->
  findHotkey eq key items i0 = None.
Proof.
  revert i0. induction items as [|it rest IH]; intros i0; simpl;
    [reflexivity|].
  unfold hotkeyCandidate at 1, selectable. fold (unselectable it).
  destruct (unselectable it); simpl; [apply IH|].
  destruct (negb (Hotkey it =? "")%string && eq key (Hotkey it));
    [discriminate|apply IH].
Qed.

Lemma findHotkey_firstIndex_some (eq : string -> string -> bool)
      (key : string) (items : list (MenuItem E)) (i0 i : nat) :
  firstIndex (hotkeyCandidate eq key) items i0 = Some i ->
  exists item j,
    findHotkey eq key items i0 = Some (i, item) /\
    i = (i0 + j)%nat /\ nth_error items j = Some item /\
    hotkeyCandidate eq key item = true.
Proof.
  revert i0. induction items as [|it rest IH]; intros i0; simpl;
    [discriminate|].
  destruct (hotkeyCandidate eq key it) eqn:Hcand.
  - intros H. injection H as <-.
    exists it, 0%nat.
    pose proof Hcand as Hc.
    unfold hotkeyCandidate, selectable in Hc.
    fold (unselectable it).
    destruct (unselectable it); simpl in Hc; [discriminate|].
    rewrite Hc. repeat split; auto.
  - intros H. destruct (IH _ H) as (item & j & Hf & -> & Hn & Hc).
    exists item, (S j).
    unfold hotkeyCandidate, selectable in Hcand.
    fold (unselectable it).
    destruct (unselectable it); simpl in Hcand.
    + repeat split; auto; lia.
    + rewrite Hcand. repeat split; auto; lia.
Qed.

Lemma firstIndex_none {A : Type} (p : A -> bool) (l : list A) (i0 : nat) :
  firstIndex p l i0 = None <-> forall a, In a l -> p a = false.
Proof.
  revert i0. induction l as [|a rest IH]; intros i0; simpl.
  - split; [intros _ a []|reflexivity].
  - destruct (p a) eqn:Hp.
    + split; [discriminate|]. intros H.
      specialize (H a (or_introl eq_refl)). congruence.
    + rewrite IH. split.
      * intros H b [<-|Hin]; auto.
      * intros H b Hin. apply H. now right.
Qed.

Lemma onHotkey_outcome (m : Model E) (i : nat) (item : MenuItem E) :
  nth_error (Items m) i = Some item ->
  onHotkey m i item = Ok (spec_hotkeyOutcome m i item).
Proof.
  intros Hn. unfold onHotkey, spec_hotkeyOutcome.
  destruct (SubMenu item) as [|x xs] eqn:Hs.
  - simpl. destruct (Action item); reflexivity.
  - replace (len (x :: xs) >? 0) with true
      by (symmetry; apply Z.gtb_lt; unfold len; simpl; lia).
    assert (Hidx : index (Items (set_Selection m (Z.of_nat i)))
                         (Selection (set_Selection m (Z.of_nat i)))
                   = Ok item)
      by (simpl; now apply index_of_nat).
    assert (Hne : SubMenu item <> []) by congruence.
    rewrite (openCurrentSelection_submenu _ _ Hidx Hne).
    simpl. now rewrite Hs.
Qed.

Lemma onKey_other (m : Model E) (key : string) :
  isNavKey key = false -> onKey m key = Ok (m, None).
Proof.
  unfold isNavKey, onKey. intros H.
  repeat (apply orb_false_elim in H; destruct H as [H ?]).
  repeat match goal with
         | Hk : (key =? ?k)%string = false |- _ => rewrite Hk; clear Hk
         end.
  reflexivity.
Qed.

Lemma Update_key_no_child (m : Model E) (key : string) :
  Active m = true ->
  OpenSubMenu m = -1 \/ SubMenuState m = None ->
  Update m (KeyMsg key) = onKeyMsg m key.
Proof.
  intros Hact Hno. rewrite Update_key, Hact. simpl.
  destruct Hno as [-> | ->]; [|reflexivity].
  now destruct (SubMenuState m).
Qed.

(** C5 (amended): on an active node with no open child, a key press
    is matched against the hotkeys of the entries that are neither
    separators nor disabled, in order, first exactly and, only when no
    entry matches exactly, case-insensitively; the first match is
    selected and its submenu opened or else its action emitted.  A key
    that matches no such entry and is not a navigation key leaves the
    state unchanged and emits nothing; this covers the hotkey of a
    disabled entry whenever no selectable entry has a matching
    hotkey. *)
Theorem hotkey_matching (m : Model E) (key : string) :
  Active m = true ->
  OpenSubMenu m = -1 \/ SubMenuState m = None ->
  match spec_hotkeyMatch key (Items m) with
  | Some i =>
      exists item,
        nth_error (Items m) i = Some item /\
        selectable item = true /\
        Update m (KeyMsg key) = Ok (spec_hotkeyOutcome m i item)
  | None =>
      isNavKey key = false -> Update m (KeyMsg key) = Ok (m, None)
  end /\
  ((forall it, In it (Items m) -> selectable it = true ->
               Hotkey it <> "" ->
               (key =? Hotkey it)%string = false /\
               EqualFold key (Hotkey it) = false) ->
   isNavKey key = false ->
   Update m (KeyMsg key) = Ok (m, None)).
Proof.
  intros Hact Hno.
  rewrite (Update_key_no_child m key Hact Hno).
  assert (Hnone : spec_hotkeyMatch key (Items m) = None ->
                  isNavKey key = false -> onKeyMsg m key = Ok (m, None)).
  { unfold spec_hotkeyMatch, onKeyMsg.
    destruct (firstIndex (hotkeyCandidate String.eqb key) (Items m) 0)
      eqn:H1; [discriminate|].
    intros H2 Hnav.
    rewrite (findHotkey_firstIndex_none _ _ _ _ H1).
    rewrite (findHotkey_firstIndex_none _ _ _ _ H2).
    now apply onKey_other. }
  split.
  - destruct (spec_hotkeyMatch key (Items m)) as [i|] eqn:Hspec;
      [|now apply Hnone].
    unfold spec_hotkeyMatch in Hspec. unfold onKeyMsg.
    destruct (firstIndex (hotkeyCandidate String.eqb key) (Items m) 0)
      as [i1|] eqn:H1.
    + injection Hspec as ->.
      destruct (findHotkey_firstIndex_some _ _ _ _ _ H1)
        as (item & j & Hf & -> & Hn & Hc).
      rewrite Hf. exists item. simpl in *.
      split; [assumption|]. split.
      * unfold hotkeyCandidate in Hc.
        destruct (selectable item); [reflexivity|discriminate].
      * now apply onHotkey_outcome.
    + rewrite (findHotkey_firstIndex_none _ _ _ _ H1).
      destruct (findHotkey_firstIndex_some _ _ _ _ _ Hspec)
        as (item & j & Hf & -> & Hn & Hc).
      rewrite Hf. exists item. simpl in *.
      split; [assumption|]. split.
      * unfold hotkeyCandidate in Hc.
        destruct (selectable item); [reflexivity|discriminate].
      * now apply onHotkey_outcome.
  - intros Hall Hnav. apply Hnone; [|assumption].
    unfold spec_hotkeyMatch.
    assert (H1 : firstIndex (hotkeyCandidate String.eqb key) (Items m) 0
                 = None).
    { apply firstIndex_none. intros it Hin. unfold hotkeyCandidate.
      destruct (selectable it) eqn:Hs; [|reflexivity].
      destruct (Hotkey it =? "")%string eqn:Hh; [reflexivity|].
      apply String.eqb_neq in Hh.
      destruct (Hall it Hin Hs Hh) as [-> _]. reflexivity. }
    rewrite H1. apply firstIndex_none. intros it Hin.
    unfold hotkeyCandidate.
    destruct (selectable it) eqn:Hs; [|reflexivity].
    destruct (Hotkey it =? "")%string eqn:Hh; [reflexivity|].
    apply String.eqb_neq in Hh.
    destruct (Hall it Hin Hs Hh) as [_ ->]. reflexivity.
Qed.

(** ** The keys that move next and open *)

Lemma onKeyMsg_no_hotkey (m : Model E) (key : string) :
  spec_hotkeyMatch key (Items m) = None ->
  onKeyMsg m key = onKey m key.
Proof.
  unfold spec_hotkeyMatch, onKeyMsg.
  destruct (firstIndex (hotkeyCandidate String.eqb key) (Items m) 0)
    eqn:H1; [discriminate|].
  intros H2.
  rewrite (findHotkey_firstIndex_none _ _ _ _ H1).
  now rewrite (findHotkey_firstIndex_none _ _ _ _ H2).
Qed.

(** The move-next key of a node ([down] in a dropdown, [right] on the
    bar) sets the selection to [moveNext]. *)
Lemma Update_next_key (m : Model E) :
  let key := if isDropdown m then "down" else "right" in
  Active m = true ->
  OpenSubMenu m = -1 \/ SubMenuState m = None ->
  spec_hotkeyMatch key (Items m) = None ->
  Update m (KeyMsg key) =
  sel <- moveNext (Items m) (Selection m) ;; Ok (set_Selection m sel, None).
Proof.
  intros key Hact Hno Hkey.
  rewrite (Update_key_no_child m key Hact Hno).
  rewrite (onKeyMsg_no_hotkey m key Hkey).
  unfold key, onKey. destruct (isDropdown m) eqn:Hdd; simpl;
    rewrite ?Hdd; reflexivity.
Qed.

(** [enter] on an enabled entry with a submenu opens it. *)
Lemma Update_enter_opens (m : Model E) (item : MenuItem E) :
  Active m = true ->
  OpenSubMenu m = -1 \/ SubMenuState m = None ->
  spec_hotkeyMatch "enter" (Items m) = None ->
  index (Items m) (Selection m) = Ok item ->
  Disabled item = false ->
  SubMenu item <> [] ->
  Update m (KeyMsg "enter") =
  m' <- openCurrentSelection m ;; Ok (m', None).
Proof.
  intros Hact Hno Hkey Hidx Hdis Hsub.
  rewrite (Update_key_no_child m _ Hact Hno).
  rewrite (onKeyMsg_no_hotkey m _ Hkey).
  unfold onKey. simpl.
  pose proof (index_inv _ _ _ Hidx) as [Hr _].
  replace (len (Items m) >? 0) with true
    by (symmetry; apply Z.gtb_lt; lia).
  rewrite Hidx. simpl. rewrite Hdis.
  destruct (SubMenu item) as [|x xs] eqn:Hs; [congruence|].
  replace (len (x :: xs) >? 0) with true
    by (symmetry; apply Z.gtb_lt; unfold len; simpl; lia).
  reflexivity.
Qed.

(** On every active bar without entries and without a child, whatever
    its selection, [left] and [right] panic and [up] and [down] change
    nothing. *)
Lemma empty_bar_keys (m : Model E) :
  Items m = [] -> Active m = true -> isDropdown m = false ->
  SubMenuState m = None ->
  Update m (KeyMsg "left") = Panic /\
  Update m (KeyMsg "right") = Panic /\
  Update m (KeyMsg "up") = Ok (m, None) /\
  Update m (KeyMsg "down") = Ok (m, None).
Proof.
  intros Hitems Hact Hdd Hsub.
  assert (Hidx : forall i, index (@nil (MenuItem E)) i = Panic).
  { intros i. unfold index. destruct (i <? 0); [reflexivity|].
    now destruct (Z.to_nat i). }
  assert (Hkey : forall key, Update m (KeyMsg key) = onKey m key).
  { intros key. rewrite (Update_key_no_child m key Hact (or_intror Hsub)).
    apply onKeyMsg_no_hotkey. now rewrite Hitems. }
  rewrite !Hkey. unfold onKey. rewrite Hdd, Hitems. simpl.
  repeat split.
  - unfold movePrev. cbn [List.length skipBackward].
    now rewrite Hidx.
  - unfold moveNext. cbn [List.length skipForward].
    now rewrite Hidx.
Qed.

End Navigation.

(** ** Dropdown dimensions *)

Section Geometry.

Context {E : Env}.

Lemma measureColumns_spec (items : list (MenuItem E)) :
  forall (a b : Z) (c : bool),
    measureColumns items a b c =
    (fold_left (fun acc it => Z.max acc (Width (Label it))) items a,
     fold_left (fun acc it => Z.max acc (Width (Shortcut it))) items b,
     c || anySubmenu items).
Proof.
  induction items as [|it rest IH]; intros a b c; simpl.
  - now rewrite orb_false_r.
  - rewrite IH.
    assert (Hmax : forall w u, (if w >? u then w else u) = Z.max u w).
    { intros w u. rewrite Z.gtb_ltb.
      destruct (Z.ltb_spec u w); lia. }
    rewrite !Hmax. f_equal.
    destruct (len (SubMenu it) >? 0); simpl; [|reflexivity].
    now rewrite orb_true_r.
Qed.

Lemma fold_max_ge (f : MenuItem E -> Z) (items : list (MenuItem E)) :
  forall a, a <= fold_left (fun acc it => Z.max acc (f it)) items a.
Proof.
  induction items as [|it rest IH]; intros a; simpl; [lia|].
  specialize (IH (Z.max a (f it))). lia.
Qed.

Lemma maxLabelWidth_nonneg (items : list (MenuItem E)) :
  0 <= maxLabelWidth items.
Proof.
  unfold maxLabelWidth.
  exact (fold_max_ge (fun it => Width (Label it)) items 0).
Qed.

Lemma rightColumnWidth_nonneg (items : list (MenuItem E)) :
  0 <= rightColumnWidth items.
Proof.
  unfold rightColumnWidth, maxShortcutWidth.
  pose proof (fold_max_ge (fun it => Width (Shortcut it)) items 0).
  destruct (_ && _); lia.
Qed.

Lemma getDropdownDimensions_inner (m : Model E) :
  let st := ModelStyles m in
  let inner := maxLabelWidth (Items m) + 2 + rightColumnWidth (Items m) in
  let row := Width (Render (DropdownItem st) (spaces (Z.to_nat inner))) in
  inner <= max_int ->
  getDropdownDimensions m =
  Ok (iadd row (fst (GetFrameSize (Dropdown st))),
      iadd (len (Items m)) (snd (GetFrameSize (Dropdown st)))).
Proof.
  intros st inner row Hinner.
  unfold getDropdownDimensions.
  rewrite measureColumns_spec. simpl.
  fold (maxLabelWidth (Items m)) (maxShortcutWidth (Items m)).
  fold (rightColumnWidth (Items m)).
  pose proof (maxLabelWidth_nonneg (Items m)) as Hl.
  pose proof (rightColumnWidth_nonneg (Items m)) as Hr.
  assert (H1 : iadd (maxLabelWidth (Items m)) 2
               = maxLabelWidth (Items m) + 2).
  { subst inner. no_overflow. }
  rewrite H1.
  assert (H2 : iadd (maxLabelWidth (Items m) + 2)
                    (rightColumnWidth (Items m)) = inner).
  { subst inner. no_overflow. }
  rewrite H2.
  unfold Repeat_space.
  destruct (inner <? 0) eqn:Hneg;
    [apply Z.ltb_lt in Hneg; subst inner; lia|].
  simpl. fold st. fold row.
  now destruct (GetFrameSize (Dropdown st)) as [w h].
Qed.

(** C9 (amended): the height of a dropdown is its entry count plus the
    vertical frame of the dropdown style.  Its width is the width of
    an item-styled row of (widest label + 2 + right column) blanks
    plus the horizontal frame of the dropdown style, where the right
    column is the widest shortcut hint, raised to 2 whenever some
    entry has a submenu; when the item style adds just its horizontal
    frame to such a row, that is (widest label + 2 + right column)
    plus both horizontal frames. *)
Theorem dropdown_dimensions (m : Model E) :
  let st := ModelStyles m in
  let inner := maxLabelWidth (Items m) + 2 + rightColumnWidth (Items m) in
  let row := Width (Render (DropdownItem st) (spaces (Z.to_nat inner))) in
  inner <= max_int ->
  fits (row + fst (GetFrameSize (Dropdown st))) ->
  fits (len (Items m) + snd (GetFrameSize (Dropdown st))) ->
  getDropdownDimensions m =
  Ok (row + fst (GetFrameSize (Dropdown st)),
      len (Items m) + snd (GetFrameSize (Dropdown st))) /\
  (row = inner + GetHorizontalFrameSize (DropdownItem st) ->
   getDropdownDimensions m =
   Ok (inner + GetHorizontalFrameSize (DropdownItem st)
       + fst (GetFrameSize (Dropdown st)),
       len (Items m) + snd (GetFrameSize (Dropdown st)))).
Proof.
  intros st inner row Hinner Hw Hh.
  assert (Hdim : getDropdownDimensions m =
                 Ok (row + fst (GetFrameSize (Dropdown st)),
                     len (Items m) + snd (GetFrameSize (Dropdown st)))).
  { rewrite (getDropdownDimensions_inner m Hinner).
    fold st. fold inner. fold row.
    now rewrite (iadd_fits _ _ Hw), (iadd_fits _ _ Hh). }
  split; [exact Hdim|].
  intros Hrow. rewrite Hdim, Hrow. reflexivity.
Qed.

End Geometry.

(** ** Pointer events on dropdown levels *)

Section Pointer.

Context {E : Env}.

Lemma dropdownChain_eq (m : Model E) :
  dropdownChain m =
  isDropdown m
  && (maxLabelWidth (Items m) + 2 + rightColumnWidth (Items m) <=? max_int)
  && (OpenSubMenu m <=? len (Items m))
  && match SubMenuState m with
     | Some c => dropdownChain c
     | None => true
     end.
Proof. destruct m; reflexivity. Qed.

Lemma dropdownChain_inv (m : Model E) :
  dropdownChain m = true ->
  isDropdown m = true /\
  maxLabelWidth (Items m) + 2 + rightColumnWidth (Items m) <= max_int /\
  OpenSubMenu m <= len (Items m) /\
  (forall c, SubMenuState m = Some c -> dropdownChain c = true).
Proof.
  rewrite dropdownChain_eq. intros H.
  apply andb_prop in H. destruct H as [H Hc].
  apply andb_prop in H. destruct H as [H Ho].
  apply andb_prop in H. destruct H as [Hd Hi].
  apply Z.leb_le in Hi, Ho.
  repeat split; try assumption.
  intros c Hsub. now rewrite Hsub in Hc.
Qed.

Lemma dropdownSubmenuY_total (m : Model E) (n : nat) :
  forall i yOffset,
    0 <= i -> i + Z.of_nat n <= len (Items m) ->
    exists y, dropdownSubmenuY m n i yOffset = Ok y.
Proof.
  induction n as [|n IH]; intros i yOffset Hi Hn; simpl; [eauto|].
  destruct (index_in_range (Items m) i) as [it ->]; [lia|].
  simpl. apply IH; lia.
Qed.

Lemma submenuOrigin_total (m : Model E) (baseX baseY : Z) :
  dropdownChain m = true ->
  exists o, submenuOrigin m baseX baseY = Ok o.
Proof.
  intros Hd.
  destruct (dropdownChain_inv m Hd) as (Hdd & Hinner & Hopen & _).
  unfold submenuOrigin. rewrite Hdd.
  rewrite (getDropdownDimensions_inner m Hinner). simpl.
  destruct (dropdownSubmenuY_total m (Z.to_nat (OpenSubMenu m)) 0
              (Height (BorderTop (Dropdown (ModelStyles m)))))
    as [y ->]; [lia|unfold len in *; lia|].
  simpl. eauto.
Qed.

Lemma openCurrentSelection_total (m : Model E) :
  0 <= Selection m < len (Items m) ->
  exists m', openCurrentSelection m = Ok m'.
Proof.
  intros Hsel. unfold openCurrentSelection.
  destruct (index_in_range _ _ Hsel) as [it ->]. simpl.
  destruct (len (SubMenu it) >? 0); eauto.
Qed.

Lemma hitDropdownItem_total (m : Model E) (msg : MouseMsg) (localY : Z)
      (items : list (MenuItem E)) :
  forall (i : nat) (currentY : Z),
    (i + List.length items <= List.length (Items m))%nat ->
    exists r, hitDropdownItem m msg localY items i currentY = Ok r.
Proof.
  induction items as [|it rest IH]; intros i currentY Hlen; simpl;
    [eauto|].
  simpl in Hlen.
  destruct ((localY >=? currentY) && _); [|apply IH; lia].
  destruct (IsSeparator it || Disabled it); [eauto|].
  destruct (Type_ msg).
  - destruct (len (SubMenu it) >? 0).
    + destruct (openCurrentSelection_total
                  (set_Selection m (Z.of_nat i))) as [m' ->];
        [simpl; unfold len; lia|].
      simpl. eauto.
    + destruct (Action it); eauto.
  - destruct (negb _ && negb _); eauto.
  - eauto.
Qed.

Lemma checkSelf_dropdown_total (m : Model E) (msg : MouseMsg)
      (baseX baseY : Z) :
  isDropdown m = true ->
  maxLabelWidth (Items m) + 2 + rightColumnWidth (Items m) <= max_int ->
  exists r, checkSelf m msg baseX baseY = Ok r.
Proof.
  intros Hdd Hinner. unfold checkSelf. rewrite Hdd.
  rewrite (getDropdownDimensions_inner m Hinner). simpl.
  destruct (_ && _ && _ && _); [|eauto].
  apply hitDropdownItem_total. lia.
Qed.

Lemma checkMouse_dropdown_total (m : Model E) :
  dropdownChain m = true ->
  forall msg baseX baseY,
    exists handled cmd m',
      checkMouse m msg baseX baseY = Ok (handled, cmd, m').
Proof.
  induction m as [m IH] using Model_chain_ind.
  intros Hd msg baseX baseY.
  destruct (dropdownChain_inv m Hd) as (Hdd & Hinner & Hopen & Hchild).
  assert (Hself : forall m1,
             isDropdown m1 = true -> Items m1 = Items m ->
             exists handled cmd m',
               checkSelf m1 msg baseX baseY = Ok (handled, cmd, m')).
  { intros m1 Hd1 Hi1.
    destruct (checkSelf_dropdown_total m1 msg baseX baseY Hd1)
      as [[[h c] m'] Hr]; [now rewrite Hi1|eauto]. }
  rewrite checkMouse_eq.
  destruct (SubMenuState m) as [c|] eqn:Hsub; [|now apply Hself].
  destruct (OpenSubMenu m =? -1); [now apply Hself|].
  destruct (submenuOrigin_total m baseX baseY Hd) as [[subX subY] ->].
  simpl.
  destruct (IH c eq_refl (Hchild c eq_refl) msg subX subY)
    as (hc & cmdc & c' & ->).
  simpl. destruct hc; [eauto|].
  apply Hself; destruct m; assumption || reflexivity.
Qed.

(** C3 (amended): on a node whose selection is a valid index, every
    key press returns a state, and key presses as well as pointer
    events handled at a dropdown level keep the selection invariant of
    the node; on a chain of dropdown levels whose column widths fit
    [int], every pointer event returns as well.  A freshly constructed
    node has selection index 0. *)
Theorem selection_invariant_preserved (m : Model E) :
  chainValid m = true ->
  selectionInvariant m = true ->
  (forall key, exists m' cmd,
      Update m (KeyMsg key) = Ok (m', cmd) /\
      chainValid m' = true /\ selectionInvariant m' = true) /\
  (isDropdown m = true ->
   forall msg baseX baseY handled cmd m',
     checkMouse m msg baseX baseY = Ok (handled, cmd, m') ->
     selectionInvariant m' = true) /\
  (dropdownChain m = true ->
   forall msg baseX baseY, exists handled cmd m',
     checkMouse m msg baseX baseY = Ok (handled, cmd, m') /\
     selectionInvariant m' = true) /\
  (forall items, Selection (New (E := E) items) = 0).
Proof.
  intros Hv Hinv.
  assert (Hptr : forall msg baseX baseY handled cmd m',
             isDropdown m = true ->
             checkMouse m msg baseX baseY = Ok (handled, cmd, m') ->
             selectionInvariant m' = true).
  { intros msg baseX baseY handled cmd m' Hdd Hcheck.
    destruct (checkMouse_result _ _ _ _ _ _ _ Hcheck)
      as (Hi & _ & _ & Hsel).
    specialize (Hsel Hdd).
    unfold selectionInvariant in *. rewrite Hi.
    destruct (hasSelectable (Items m)); simpl in *; [|reflexivity].
    destruct Hsel as [->|Hsel]; assumption. }
  split; [|split; [|split]].
  - intros key.
    destruct (Update_key_valid m key Hv) as (m' & cmd & Hup & Hstep).
    exists m', cmd. split; [assumption|].
    split; [apply Hstep|].
    eapply keyStep_invariant; eassumption.
  - intros Hdd msg baseX baseY handled cmd m' Hcheck.
    eapply Hptr; eassumption.
  - intros Hd msg baseX baseY.
    destruct (checkMouse_dropdown_total m Hd msg baseX baseY)
      as (handled & cmd & m' & Hcheck).
    exists handled, cmd, m'. split; [assumption|].
    destruct (dropdownChain_inv m Hd) as (Hdd & _).
    eapply Hptr; eassumption.
  - reflexivity.
Qed.

End Pointer.

(** ** Overlay *)

Lemma substring_all (s : string) : substring 0 (String.length s) s = s.
Proof. induction s as [|c s IH]; simpl; [reflexivity|now rewrite IH]. Qed.

Lemma substring_none (s : string) (n : nat) : substring n 0 s = "".
Proof.
  revert n. induction s as [|c s IH]; intros [|n]; simpl; auto.
Qed.

Lemma take_drop (s : string) (i : nat) :
  (i <= String.length s)%nat -> (take i s ++ drop i s)%string = s.
Proof.
  unfold take, drop. revert i.
  induction s as [|c s IH]; intros i Hi; simpl in *.
  - destruct i; [reflexivity|lia].
  - destruct i as [|i]; simpl.
    + now rewrite substring_all.
    + rewrite IH by lia. reflexivity.
Qed.

Lemma take_is_prefix (s : string) (i : nat) :
  (i <= String.length s)%nat -> exists q, (take i s ++ q)%string = s.
Proof. intros Hi. exists (drop i s). now apply take_drop. Qed.

Lemma take_app (p rest : string) (i : nat) :
  (i <= String.length p)%nat -> take i (p ++ rest) = take i p.
Proof.
  unfold take. revert i.
  induction p as [|c p IH]; intros i Hi; simpl in *.
  - destruct i; [|lia]. simpl. now rewrite substring_none.
  - destruct i as [|i]; [reflexivity|]. simpl. rewrite IH by lia.
    reflexivity.
Qed.

Lemma take_all_app (p rest : string) :
  take (String.length p) (p ++ rest) = p.
Proof.
  rewrite take_app by lia. unfold take. apply substring_all.
Qed.

Lemma take_length (s : string) (k : nat) :
  (k <= String.length s)%nat -> String.length (take k s) = k.
Proof.
  unfold take. revert k.
  induction s as [|c s IH]; intros k Hk; simpl in *.
  - destruct k; [reflexivity|lia].
  - destruct k as [|k]; [reflexivity|]. simpl. rewrite IH by lia.
    reflexivity.
Qed.

Lemma append_length (a b : string) :
  String.length (a ++ b) = (String.length a + String.length b)%nat.
Proof. induction a as [|c a IH]; simpl; [reflexivity|now rewrite IH]. Qed.

(** *** Rune boundaries of a text and of its extensions *)

Lemma continuation_app (s rest r : string) :
  continuation s = Some r ->
  continuation (s ++ rest) = Some (r ++ rest)%string.
Proof.
  destruct s as [|c s']; simpl; [discriminate|].
  destruct (within 128 191 (byteOf c)); [|discriminate].
  intros H. now injection H as <-.
Qed.

Lemma runeTail_app (size : nat) (lo hi : Z) (r rest : string) :
  (2 <= runeTail size lo hi r)%nat ->
  runeTail size lo hi (r ++ rest) = runeTail size lo hi r.
Proof.
  unfold runeTail.
  destruct size as [|[|[|[|n]]]]; try (simpl; lia);
    (destruct r as [|c1 r1]; simpl; [lia|]);
    (destruct (within lo hi (byteOf c1)); [|lia]);
    try reflexivity;
    (destruct (continuation r1) as [r2|] eqn:Hc1; [|lia]);
    rewrite (continuation_app _ rest _ Hc1); try reflexivity;
    (destruct (continuation r2) as [r3|] eqn:Hc2; [|lia]);
    now rewrite (continuation_app _ rest _ Hc2).
Qed.

Lemma leadByte_ascii (b : Z) : b < 128 -> leadByte b = (1%nat, 0, 0).
Proof.
  intros Hb. unfold leadByte, within.
  repeat match goal with
         | |- context [?x <=? ?y] =>
             destruct (Z.leb_spec x y); try lia; simpl
         | |- context [?x =? ?y] =>
             destruct (Z.eqb_spec x y); try lia; simpl
         end; reflexivity.
Qed.

(** A complete rune at the head of a text is decoded the same way
    whatever follows the text. *)
Lemma runeSize_app (c : ascii) (r rest : string) :
  (byteOf c <? 128) || (2 <=? runeSize (String c r))%nat = true ->
  runeSize (String c r ++ rest) = runeSize (String c r).
Proof.
  intros H. simpl append. unfold runeSize in *.
  apply orb_prop in H. destruct H as [H|H].
  - apply Z.ltb_lt in H. rewrite (leadByte_ascii _ H). reflexivity.
  - destruct (leadByte (byteOf c)) as [[size lo] hi].
    apply Nat.leb_le in H. now apply runeTail_app.
Qed.

(** *** The style pattern *)

Lemma sgrTail_app (u t rest : string) :
  sgrTail u = Some t -> sgrTail (t ++ rest) = Some t.
Proof.
  revert t. induction u as [|c u IH]; intros t; simpl; [discriminate|].
  destruct (within 48 57 (byteOf c) || (byteOf c =? 59)) eqn:Hp.
  - destruct (sgrTail u) as [t'|] eqn:Ht; [|discriminate].
    intros H. injection H as <-. simpl. rewrite Hp.
    now rewrite (IH t' eq_refl).
  - destruct (byteOf c =? 109) eqn:Hm; [|discriminate].
    intros H. injection H as <-. simpl. now rewrite Hp, Hm.
Qed.

Lemma sgrAt_app (s t rest : string) :
  sgrAt s = Some t -> sgrAt (t ++ rest) = Some t.
Proof.
  unfold sgrAt. destruct s as [|c0 [|c1 r]]; try discriminate.
  destruct (Ascii.eqb c0 escape && (byteOf c1 =? 91)) eqn:Hh;
    [|discriminate].
  destruct (sgrTail r) as [t'|] eqn:Ht; [|discriminate].
  intros H. injection H as <-. simpl. rewrite Hh.
  now rewrite (sgrTail_app r t' rest Ht).
Qed.

Lemma sgrAt_nonempty (s t : string) :
  sgrAt s = Some t -> exists c t', t = String c t'.
Proof.
  unfold sgrAt. destruct s as [|c0 [|c1 r]]; try discriminate.
  destruct (_ && _); [|discriminate].
  destruct (sgrTail r); [|discriminate].
  intros H. injection H as <-. eauto.
Qed.

Lemma findAllFrom_skip (u rest : string) :
  findAllFrom (String.length u) (u ++ rest) = findAllFrom 0 rest.
Proof. induction u as [|c u IH]; simpl; [reflexivity|exact IH]. Qed.

Lemma FindAllString_match_app (s t rest : string) :
  sgrAt s = Some t ->
  FindAllString (t ++ rest) = t :: FindAllString rest.
Proof.
  intros Hs. pose proof (sgrAt_app s t rest Hs) as Happ.
  destruct (sgrAt_nonempty s t Hs) as (c & t' & ->).
  unfold FindAllString. simpl append.
  change (findAllFrom 0 (String c (t' ++ rest)))
    with (match sgrAt (String c (t' ++ rest)) with
          | Some t0 => t0 :: findAllFrom (String.length t0 - 1) (t' ++ rest)
          | None => findAllFrom 0 (t' ++ rest)
          end).
  simpl append in Happ. rewrite Happ.
  replace (String.length (String c t') - 1)%nat with (String.length t')
    by (simpl; lia).
  now rewrite findAllFrom_skip.
Qed.

Lemma findAllFrom_matches (s : string) :
  forall skip t, In t (findAllFrom skip s) -> exists s', sgrAt s' = Some t.
Proof.
  induction s as [|c r IH]; intros skip t; [intros []|].
  cbn [findAllFrom].
  destruct skip as [|k]; [|apply IH].
  destruct (sgrAt (String c r)) as [t0|] eqn:Hm; [|apply IH].
  intros [<-|Hin]; [eauto|eapply IH; eassumption].
Qed.

Lemma FindAllString_join (codes : list string) :
  (forall t, In t codes -> exists s', sgrAt s' = Some t) ->
  FindAllString (joinEmpty codes) = codes.
Proof.
  induction codes as [|t rest IH]; intros Hall; [reflexivity|].
  destruct (Hall t (or_introl eq_refl)) as [s' Hs'].
  simpl. rewrite (FindAllString_match_app s' t _ Hs').
  rewrite IH; [reflexivity|].
  intros t' Hin. apply Hall. now right.
Qed.

(** Replaying the style sequences found in a text yields a text with
    the same style sequences. *)
Lemma replay_same_styles (s : string) :
  FindAllString (joinEmpty (FindAllString s)) = FindAllString s.
Proof.
  apply FindAllString_join. intros t Hin.
  eapply findAllFrom_matches. exact Hin.
Qed.

Section Overlay.

Context {E : Env}.

Lemma splitLoop_cut (s : string) (width : Z) (rest : string) :
  forall i skip prevI,
    (i + String.length rest = String.length s)%nat ->
    (prevI <= String.length s)%nat ->
    exists k, (k <= String.length s)%nat /\
              splitLoop s width rest i skip prevI = (take k s, drop k s).
Proof.
  induction rest as [|c r IH]; intros i skip prevI Hi Hp; simpl.
  - exists (String.length s).
    assert (Hfull : (take (String.length s) s, drop (String.length s) s)
                    = (s, "")).
    { unfold take, drop.
      now rewrite substring_all, Nat.sub_diag, substring_none. }
    rewrite Hfull. split; [lia|]. now destruct (Width s <=? width).
  - simpl in Hi. destruct skip as [|k].
    + destruct (Width (take i s) =? width).
      * exists i. split; [lia|reflexivity].
      * destruct (Width (take i s) >? width).
        -- exists prevI. split; [lia|reflexivity].
        -- apply IH; lia.
    + apply IH; lia.
Qed.

(** The two parts returned by [splitWithANSI] are a cut of the
    string. *)
Lemma splitWithANSI_concat (s : string) (width : Z) :
  (fst (splitWithANSI s width) ++ snd (splitWithANSI s width))%string = s.
Proof.
  unfold splitWithANSI.
  destruct (splitLoop_cut s width s 0 0 0) as (k & Hk & ->); try lia.
  simpl. now apply take_drop.
Qed.

Lemma splitLoop_skip_all (s : string) (width : Z) (r : string) :
  forall i prevI,
    splitLoop s width r i (String.length r) prevI = (s, "").
Proof.
  induction r as [|c r IH]; intros i prevI; simpl.
  - now destruct (Width s <=? width).
  - apply IH.
Qed.

(** On a text made of one rune, the loop tests the empty prefix only:
    unless the target is met or exceeded there, the whole text is
    returned, whatever its width. *)
Lemma splitWithANSI_single_rune (s : string) (width : Z) :
  s <> "" ->
  runeSize s = String.length s ->
  Width "" < width ->
  splitWithANSI s width = (s, "").
Proof.
  intros Hne Hsize Hw. unfold splitWithANSI.
  destruct s as [|c r]; [congruence|].
  cbn [splitLoop].
  change (take 0 (String c r)) with "".
  destruct (Width "" =? width) eqn:Heq; [apply Z.eqb_eq in Heq; lia|].
  destruct (Width "" >? width) eqn:Hgt; [apply Z.gtb_lt in Hgt; lia|].
  rewrite Hsize. simpl String.length.
  replace (S (String.length r) - 1)%nat with (String.length r) by lia.
  apply splitLoop_skip_all.
Qed.

(** The scans of two texts that share the well-formed prefix [p] agree
    as long as they are inside [p]: either both cut at the same offset
    before the end of [p], or both reach the end of [p] in the same
    state. *)
Lemma splitLoop_sync (p q rest : string) (width : Z) :
  forall restP i skip prevI,
    completeRunes restP skip = true ->
    (i + String.length restP = String.length p)%nat ->
    (prevI <= i)%nat ->
    (exists k, (k < String.length p)%nat /\
       splitLoop (p ++ q) width (restP ++ q) i skip prevI
       = (take k (p ++ q), drop k (p ++ q)) /\
       splitLoop (p ++ rest) width (restP ++ rest) i skip prevI
       = (take k (p ++ rest), drop k (p ++ rest))) \/
    (exists prevI',
       splitLoop (p ++ q) width (restP ++ q) i skip prevI
       = splitLoop (p ++ q) width q (String.length p) 0 prevI' /\
       splitLoop (p ++ rest) width (restP ++ rest) i skip prevI
       = splitLoop (p ++ rest) width rest (String.length p) 0 prevI').
Proof.
  induction restP as [|c r IH]; intros i skip prevI Hcomplete Hi Hprev.
  - simpl in Hcomplete. apply Nat.eqb_eq in Hcomplete. subst skip.
    simpl in Hi. replace i with (String.length p) by lia.
    right. exists prevI. split; reflexivity.
  - simpl in Hi. simpl append.
    destruct skip as [|k].
    + cbn [splitLoop].
      rewrite !take_app by lia.
      destruct (Width (take i p) =? width).
      * left. exists i. split; [lia|].
        rewrite !take_app by lia. split; reflexivity.
      * destruct (Width (take i p) >? width).
        -- left. exists prevI. split; [lia|].
           rewrite !take_app by lia. split; reflexivity.
        -- cbn [completeRunes] in Hcomplete.
           apply andb_prop in Hcomplete. destruct Hcomplete as [Hrune Hrest].
           pose proof (runeSize_app c r q Hrune) as Hq.
           pose proof (runeSize_app c r rest Hrune) as Hr.
           simpl append in Hq, Hr. rewrite Hq, Hr.
           apply IH; [assumption|lia|lia].
    + cbn [splitLoop]. cbn [completeRunes] in Hcomplete.
      apply IH; [assumption|lia|lia].
Qed.

(** Re-splitting: when the cut of [b] at [width] is a well-formed
    text exactly [width] cells wide, the same cut comes back from any
    text that starts with it. *)
Lemma splitWithANSI_resplit (b rest : string) (width : Z) :
  let p := fst (splitWithANSI b width) in
  wellFormedUTF8 p = true ->
  Width p = width ->
  fst (splitWithANSI (p ++ rest) width) = p.
Proof.
  intros p Hwf Hw.
  pose proof (splitWithANSI_concat b width) as Hcat.
  fold p in Hcat. set (q := snd (splitWithANSI b width)) in *.
  assert (Hb : splitWithANSI (p ++ q) width = (p, q)).
  { rewrite Hcat. unfold p, q. now destruct (splitWithANSI b width). }
  unfold splitWithANSI in *.
  destruct (splitLoop_sync p q rest width p 0 0 0 Hwf)
    as [(k & Hk & Hq & _)|(prevI' & Hq & Hr)]; try lia.
  - exfalso. rewrite Hq in Hb. injection Hb as Hb _.
    apply (f_equal String.length) in Hb.
    rewrite take_length in Hb; [lia|].
    rewrite append_length. lia.
  - rewrite Hr. destruct rest as [|c r].
    + simpl. destruct (Width (p ++ "") <=? width); simpl;
        clear; induction p as [|c p IH]; simpl; congruence.
    + cbn [splitLoop]. rewrite take_all_app, Hw, Z.eqb_refl.
      reflexivity.
Qed.

(** C8 (amended): for a background row at least [x] cells wide, the
    composited row is the background cut before column [x] (padded
    with blanks up to [x]), the foreground row, every style sequence
    that occurs in the background before the cut at column
    [x + width(fg)], in order, and the background after that cut; the
    replayed text carries exactly the style sequences of the
    background before the cut.  Re-splitting the composited row at
    column [x] gives back the background prefix when that prefix is
    well-formed text ending exactly at column [x].  Nothing is emitted
    between the background prefix and the foreground row. *)
Theorem overlay_row_replays_styles (bgLine fgLine : string) (x : Z) :
  let prefix := fst (splitWithANSI bgLine x) in
  let preSuffix := fst (splitWithANSI bgLine (iadd x (Width fgLine))) in
  let suffix := snd (splitWithANSI bgLine (iadd x (Width fgLine))) in
  let replay := joinEmpty (FindAllString preSuffix) in
  let row := (prefix ++ spaces (Z.to_nat (x - Width prefix))
              ++ fgLine ++ replay ++ suffix)%string in
  x <= Width bgLine ->
  fits (x - Width prefix) ->
  overlayRow bgLine fgLine x = Ok row /\
  (preSuffix ++ suffix)%string = bgLine /\
  (exists rest, (prefix ++ rest)%string = bgLine) /\
  FindAllString replay = FindAllString preSuffix /\
  (wellFormedUTF8 prefix = true -> Width prefix = x ->
   fst (splitWithANSI row x) = prefix).
Proof.
  intros prefix preSuffix suffix replay row Hx Hfit.
  split; [|split; [|split; [|split]]].
  - unfold overlayRow.
    destruct (Width bgLine <? x) eqn:Hlt; [apply Z.ltb_lt in Hlt; lia|].
    subst row. fold prefix.
    destruct (splitWithANSI bgLine x) as [p q] eqn:Hs1.
    destruct (splitWithANSI bgLine (iadd x (Width fgLine))) as [ps sf]
      eqn:Hs2.
    simpl in prefix, preSuffix, suffix. subst prefix preSuffix suffix.
    fold replay.
    destruct (Width p <? x) eqn:Hp.
    + apply Z.ltb_lt in Hp. rewrite (isub_fits _ _ Hfit).
      unfold Repeat_space.
      destruct (x - Width p <? 0) eqn:Hneg;
        [apply Z.ltb_lt in Hneg; lia|reflexivity].
    + apply Z.ltb_ge in Hp.
      replace (Z.to_nat (x - Width p)) with 0%nat by lia. reflexivity.
  - apply splitWithANSI_concat.
  - exists (snd (splitWithANSI bgLine x)). apply splitWithANSI_concat.
  - apply replay_same_styles.
  - intros Hwf Hw. subst row.
    replace (Z.to_nat (x - Width prefix)) with 0%nat by lia.
    apply (splitWithANSI_resplit bgLine _ x Hwf Hw).
Qed.

(** On a one-row background and a one-row foreground placed on row 0,
    [Overlay] is [overlayRow]. *)
Lemma Overlay_single_row (bg fg : string) (x : Z) :
  splitLines bg = [bg] -> splitLines fg = [fg] ->
  Overlay bg fg x 0 = overlayRow bg fg x.
Proof.
  intros Hb Hf. unfold Overlay. rewrite Hb, Hf. simpl.
  destruct (overlayRow bg fg x); reflexivity.
Qed.

End Overlay.
(** * The open chain *)

Lemma bind_Ok {A B : Type} (c : res A) (k : A -> res B) (b : B) :
  bind c k = Ok b -> exists a, c = Ok a /\ k a = Ok b.
Proof. destruct c; simpl; try discriminate. eauto. Qed.

Section Chain.

Context {E : Env}.

Lemma wellFormed_eq (m : Model E) :
  wellFormed m =
  match SubMenuState m with
  | Some c =>
      (exists item, index (Items m) (OpenSubMenu m) = Ok item /\
                    Items c = SubMenu item) /\
      levelOK c /\ wellFormed c
  | None => OpenSubMenu m = -1
  end.
Proof. destruct m; reflexivity. Qed.

Lemma wellFormed_set_Selection (m : Model E) (i : Z) :
  wellFormed (set_Selection m i) = wellFormed m.
Proof. destruct m; reflexivity. Qed.

Lemma wellFormed_set_Active (m : Model E) (b : bool) :
  wellFormed (set_Active m b) = wellFormed m.
Proof. destruct m; reflexivity. Qed.

Lemma wellFormed_set_Styles (m : Model E) (st : Styles Style) :
  wellFormed (set_Styles m st) = wellFormed m.
Proof. destruct m; reflexivity. Qed.

Lemma wellFormed_closeSubMenu (m : Model E) : wellFormed (closeSubMenu m).
Proof. rewrite wellFormed_eq. reflexivity. Qed.

Lemma wellFormed_linked (m : Model E) : wellFormed m -> linked m = true.
Proof.
  induction m as [m IH] using Model_chain_ind.
  rewrite wellFormed_eq, linked_eq.
  destruct (SubMenuState m) as [c|] eqn:Hsub.
  - intros ((item & Hi & _) & _ & Hc).
    apply index_inv in Hi. destruct Hi as [Hr _].
    rewrite (IH c eq_refl Hc).
    destruct (Z.eqb_spec (OpenSubMenu m) (-1)); [lia|reflexivity].
  - intros ->. reflexivity.
Qed.

Lemma wellFormed_set_child (m c c' : Model E) :
  SubMenuState m = Some c -> wellFormed m ->
  Items c' = Items c -> levelOK c' -> wellFormed c' ->
  wellFormed (set_SubMenuState m (Some c')).
Proof.
  intros Hsub Hw Hit Hl Hc.
  rewrite wellFormed_eq, Hsub in Hw. destruct Hw as ((item & Hi & Hs) & _).
  rewrite wellFormed_eq. simpl. repeat split; try assumption.
  - exists item. split; [exact Hi|congruence].
  - apply Hl.
  - apply Hl.
  - apply Hl.
  - apply Hl.
  - apply Hl.
Qed.

Lemma nodeStep_refl (m : Model E) : nodeStep m m.
Proof. split; [repeat split|]. split; [now left|auto]. Qed.

Lemma nodeStep_trans (m m1 m2 : Model E) :
  nodeStep m m1 -> nodeStep m1 m2 -> nodeStep m m2.
Proof.
  intros ((Hi & Hs & Hd) & Hsel & Hw) ((Hi' & Hs' & Hd') & Hsel' & Hw').
  repeat split; try congruence; [|auto].
  destruct Hsel' as [->|H]; [exact Hsel|right; now rewrite <- Hi].
Qed.

Lemma nodeStep_set_Selection (m : Model E) (sel : Z) :
  0 <= sel < len (Items m) -> nodeStep m (set_Selection m sel).
Proof.
  intros Hsel. split; [repeat split|]. split; [now right|].
  now rewrite wellFormed_set_Selection.
Qed.

Lemma nodeStep_set_Active (m : Model E) (b : bool) :
  nodeStep m (set_Active m b).
Proof.
  split; [repeat split|]. split; [now left|].
  now rewrite wellFormed_set_Active.
Qed.

Lemma nodeStep_closeSubMenu (m : Model E) : nodeStep m (closeSubMenu m).
Proof.
  split; [repeat split|]. split; [now left|].
  intros _. apply wellFormed_closeSubMenu.
Qed.

(** Opening the selected entry: either nothing changes, or the node
    gets a fresh child for the submenu of the selected entry. *)
Lemma openCurrentSelection_cases (m m' : Model E) :
  openCurrentSelection m = Ok m' ->
  exists item,
    index (Items m) (Selection m) = Ok item /\
    ((SubMenu item = [] /\ m' = m) \/
     (SubMenu item <> [] /\ m' = opened item m)).
Proof.
  unfold openCurrentSelection.
  destruct (index (Items m) (Selection m)) as [item| |] eqn:Hi; simpl;
    try discriminate.
  exists item. split; [reflexivity|].
  destruct (SubMenu item) as [|s sub] eqn:Hs.
  - left. simpl in H. split; [reflexivity|]. now injection H as <-.
  - right. split; [discriminate|].
    replace (len (s :: sub) >? 0) with true in H
      by (symmetry; apply Z.gtb_lt; unfold len; simpl; lia).
    injection H as <-. unfold opened. now rewrite Hs.
Qed.

Lemma wellFormed_opened (m : Model E) (item : MenuItem E) :
  index (Items m) (Selection m) = Ok item -> SubMenu item <> [] ->
  wellFormed (opened item m).
Proof.
  intros Hi Hs. rewrite wellFormed_eq. simpl.
  split; [exists item; split; [exact Hi|reflexivity]|].
  split; [|rewrite wellFormed_eq; reflexivity].
  repeat split; simpl; try assumption; try lia.
  destruct (SubMenu item); [now destruct Hs|unfold len; simpl; lia].
Qed.

Lemma openCurrentSelection_step (m m' : Model E) :
  openCurrentSelection m = Ok m' ->
  nodeStep m m' /\ Active m' = Active m /\ Selection m' = Selection m.
Proof.
  intros H. destruct (openCurrentSelection_cases m m' H)
    as (item & Hi & [[Hs ->]|[Hs ->]]).
  - split; [apply nodeStep_refl|split; reflexivity].
  - split; [|split; reflexivity].
    split; [repeat split|]. split; [now left|].
    intros _. now apply wellFormed_opened.
Qed.

(** ** Moves land on an index *)

Lemma skipForward_range (fuel : nat) (items : list (MenuItem E))
      (start : Z) :
  0 <= start < len items ->
  forall sel r, skipForward fuel items start sel = Ok r ->
                0 <= r < len items.
Proof.
  intros Hstart. induction fuel as [|f IH]; intros sel r; simpl;
    [discriminate|].
  intros H. apply bind_Ok in H. destruct H as (it & Hi & H).
  apply index_inv in Hi. destruct Hi as [Hr _].
  destruct (unselectable it).
  - match type of H with
    | (if ?s =? start then _ else _) = _ =>
        destruct (Z.eqb_spec s start) as [Heq|_]
    end.
    + injection H as <-. now rewrite Heq.
    + eapply IH; exact H.
  - now injection H as <-.
Qed.

Lemma skipBackward_range (fuel : nat) (items : list (MenuItem E))
      (start : Z) :
  0 <= start < len items ->
  forall sel r, skipBackward fuel items start sel = Ok r ->
                0 <= r < len items.
Proof.
  intros Hstart. induction fuel as [|f IH]; intros sel r; simpl;
    [discriminate|].
  intros H. apply bind_Ok in H. destruct H as (it & Hi & H).
  apply index_inv in Hi. destruct Hi as [Hr _].
  destruct (unselectable it).
  - match type of H with
    | (if ?s =? start then _ else _) = _ =>
        destruct (Z.eqb_spec s start) as [Heq|_]
    end.
    + injection H as <-. now rewrite Heq.
    + eapply IH; exact H.
  - now injection H as <-.
Qed.

Lemma moveNext_range (items : list (MenuItem E)) (x r : Z) :
  moveNext items x = Ok r -> 0 <= r < len items.
Proof.
  unfold moveNext. intros H.
  eapply skipForward_range; [|exact H].
  simpl in H. apply bind_Ok in H. destruct H as (it & Hi & _).
  apply index_inv in Hi. apply Hi.
Qed.

Lemma movePrev_range (items : list (MenuItem E)) (x r : Z) :
  movePrev items x = Ok r -> 0 <= r < len items.
Proof.
  unfold movePrev. intros H.
  eapply skipBackward_range; [|exact H].
  simpl in H. apply bind_Ok in H. destruct H as (it & Hi & _).
  apply index_inv in Hi. apply Hi.
Qed.

(** ** Key presses on one node *)

Lemma onHotkey_step (m : Model E) (i : nat) (item : MenuItem E)
      (m' : Model E) (cmd : Cmd) :
  nth_error (Items m) i = Some item ->
  onHotkey m i item = Ok (m', cmd) -> nodeStep m m'.
Proof.
  intros Hn. unfold onHotkey.
  assert (Hr : 0 <= Z.of_nat i < len (Items m)).
  { apply index_of_nat in Hn. apply index_inv in Hn. apply Hn. }
  pose proof (nodeStep_set_Selection m _ Hr) as Hstep.
  destruct (len (SubMenu item) >? 0).
  - intros H. apply bind_Ok in H. destruct H as (mo & Ho & H).
    injection H as <- <-.
    eapply nodeStep_trans; [exact Hstep|].
    now apply openCurrentSelection_step.
  - destruct (Action item); intros H; injection H as <- <-; exact Hstep.
Qed.

Lemma onKey_step (m : Model E) (key : string)
      (m' : Model E) (cmd : Cmd) :
  onKey m key = Ok (m', cmd) -> nodeStep m m'.
Proof.
  unfold onKey.
  repeat match goal with
         | |- context [if ?b then _ else _] => destruct b
         | |- context [bind ?c _] =>
             let H := fresh "Hc" in
             destruct c eqn:H; simpl; try discriminate
         | |- context [match Action ?i with _ => _ end] => destruct (Action i)
         end;
    intros H; injection H as <- <-;
    try apply nodeStep_refl; try apply nodeStep_set_Active;
    try apply nodeStep_closeSubMenu;
    try (apply nodeStep_set_Selection;
         first [eapply moveNext_range; eassumption
               |eapply movePrev_range; eassumption]);
    try (eapply openCurrentSelection_step; eassumption).
Qed.

Lemma findHotkey_nth (eq : string -> string -> bool) (key : string)
      (items : list (MenuItem E)) (i : nat) (item : MenuItem E) :
  findHotkey eq key items 0 = Some (i, item) ->
  nth_error items i = Some item.
Proof.
  intros H. apply findHotkey_found in H.
  destruct H as (j & -> & Hn & _). exact Hn.
Qed.

Lemma onKeyMsg_step (m : Model E) (key : string)
      (m' : Model E) (cmd : Cmd) :
  onKeyMsg m key = Ok (m', cmd) -> nodeStep m m'.
Proof.
  unfold onKeyMsg.
  destruct (findHotkey String.eqb key (Items m) 0) as [[i item]|] eqn:H1;
    [apply onHotkey_step; eapply findHotkey_nth; exact H1|].
  destruct (findHotkey EqualFold key (Items m) 0) as [[i item]|] eqn:H2;
    [apply onHotkey_step; eapply findHotkey_nth; exact H2|].
  apply onKey_step.
Qed.

Lemma intercept_step (m c : Model E) (msg : TeaMsg)
      (m' : Model E) (cmd : Cmd) :
  intercept m c msg = Ok (Some (m', cmd)) ->
  nodeStep m m' /\ Active m' = Active m.
Proof.
  unfold intercept.
  destruct (isDropdown m); [discriminate|].
  destruct msg as [key|mm|]; try discriminate.
  repeat match goal with
         | |- context [if ?b then _ else _] => destruct b
         | |- context [bind ?c _] =>
             let H := fresh "Hc" in
             destruct c eqn:H; simpl; try discriminate
         end;
    intros H; try discriminate; injection H as <- <-;
    match goal with
    | Ho : openCurrentSelection (set_Selection m ?sel) = Ok ?mo |- _ =>
        destruct (openCurrentSelection_step _ _ Ho) as (Hs & Ha & _);
        assert (Hr : 0 <= sel < len (Items m))
          by (first [eapply moveNext_range; eassumption
                    |eapply movePrev_range; eassumption]);
        split; [eapply nodeStep_trans;
                [apply (nodeStep_set_Selection m sel Hr)|exact Hs]
               |exact Ha]
    end.
Qed.

(** ** Pointer events on one node *)

Lemma hitDropdownItem_step (m : Model E) (msg : MouseMsg) (localY : Z)
      (items : list (MenuItem E)) :
  forall (i : nat) (currentY : Z) (h : bool) (cmd : Cmd) (m' : Model E),
    (forall k it, nth_error items k = Some it ->
                  nth_error (Items m) (i + k) = Some it) ->
    hitDropdownItem m msg localY items i currentY = Ok (h, cmd, m') ->
    nodeStep m m' /\ Active m' = Active m.
Proof.
  induction items as [|it rest IH]; intros i currentY h cmd m' Hsuffix;
    simpl.
  - intros H. injection H as <- <- <-. split; [apply nodeStep_refl|easy].
  - destruct ((localY >=? currentY) && _).
    + assert (Hr : 0 <= Z.of_nat i < len (Items m)).
      { specialize (Hsuffix 0%nat it eq_refl).
        rewrite Nat.add_0_r in Hsuffix.
        apply index_of_nat in Hsuffix. apply index_inv in Hsuffix.
        apply Hsuffix. }
      pose proof (nodeStep_set_Selection m _ Hr) as Hstep.
      destruct (IsSeparator it || Disabled it).
      * intros H. injection H as <- <- <-.
        split; [apply nodeStep_refl|easy].
      * destruct (Type_ msg).
        -- destruct (len (SubMenu it) >? 0).
           ++ intros H. apply bind_Ok in H. destruct H as (mo & Ho & H).
              injection H as <- <- <-.
              destruct (openCurrentSelection_step _ _ Ho) as (Hs & Ha & _).
              split; [eapply nodeStep_trans; eassumption|exact Ha].
           ++ destruct (Action it); intros H; injection H as <- <- <-;
                (split; [exact Hstep|reflexivity]).
        -- destruct (negb _ && negb _); intros H; injection H as <- <- <-.
           ++ split; [|reflexivity].
              eapply nodeStep_trans; [exact Hstep|].
              apply nodeStep_closeSubMenu.
           ++ split; [exact Hstep|reflexivity].
        -- intros H; injection H as <- <- <-.
           split; [exact Hstep|reflexivity].
    + apply IH. intros k it' Hk.
      replace (S i + k)%nat with (i + S k)%nat by lia.
      apply Hsuffix. exact Hk.
Qed.

Lemma hitBarItem_step (m : Model E) (msg : MouseMsg)
      (items : list (MenuItem E)) :
  forall (i : nat) (currentX : Z) (h : bool) (cmd : Cmd) (m' : Model E),
    (forall k it, nth_error items k = Some it ->
                  nth_error (Items m) (i + k) = Some it) ->
    hitBarItem m msg items i currentX = Ok (h, cmd, m') ->
    nodeStep m m' /\ (Active m = true -> Active m' = true).
Proof.
  induction items as [|it rest IH]; intros i currentX h cmd m' Hsuffix;
    simpl.
  - intros H. injection H as <- <- <-. split; [apply nodeStep_refl|easy].
  - intros H. apply bind_Ok in H. destruct H as (w & _ & H). revert H.
    destruct ((X msg >=? currentX) && _).
    + assert (Hr : 0 <= Z.of_nat i < len (Items m)).
      { specialize (Hsuffix 0%nat it eq_refl).
        rewrite Nat.add_0_r in Hsuffix.
        apply index_of_nat in Hsuffix. apply index_inv in Hsuffix.
        apply Hsuffix. }
      pose proof (nodeStep_set_Selection m _ Hr) as Hstep.
      destruct (Type_ msg).
      * set (m1 := if negb (Active m)
                   then set_Active (set_Selection m (Z.of_nat i)) true
                   else set_Selection m (Z.of_nat i)).
        assert (H1 : nodeStep m m1 /\ (Active m = true -> Active m1 = true)).
        { unfold m1.
          destruct (Active m) eqn:Hact; simpl.
          - split; [exact Hstep|intros _; exact Hact].
          - split; [|discriminate].
            eapply nodeStep_trans; [exact Hstep|apply nodeStep_set_Active]. }
        destruct H1 as [Hs1 Ha1]. clearbody m1.
        destruct (len (SubMenu it) >? 0).
        -- destruct (OpenSubMenu m1 =? Z.of_nat i).
           ++ intros H. injection H as <- <- <-.
              split; [|exact Ha1].
              eapply nodeStep_trans; [exact Hs1|apply nodeStep_closeSubMenu].
           ++ intros H. apply bind_Ok in H. destruct H as (mo & Ho & H).
              injection H as <- <- <-.
              destruct (openCurrentSelection_step _ _ Ho) as (Hs & Ha & _).
              split; [eapply nodeStep_trans; eassumption|].
              rewrite Ha. exact Ha1.
        -- destruct (Action it); intros H; injection H as <- <- <-;
             (split; [exact Hs1|exact Ha1]).
      * destruct (Active _ && _ && _).
        -- intros H. apply bind_Ok in H. destruct H as (mo & Ho & H).
           injection H as <- <- <-.
           destruct (openCurrentSelection_step _ _ Ho) as (Hs & Ha & _).
           split; [eapply nodeStep_trans; eassumption|].
           rewrite Ha. easy.
        -- intros H. injection H as <- <- <-. split; [exact Hstep|easy].
      * intros H. injection H as <- <- <-. split; [exact Hstep|easy].
    + apply IH. intros k it' Hk.
      replace (S i + k)%nat with (i + S k)%nat by lia.
      apply Hsuffix. exact Hk.
Qed.

Lemma checkSelf_step (m : Model E) (msg : MouseMsg) (baseX baseY : Z)
      (h : bool) (cmd : Cmd) (m' : Model E) :
  checkSelf m msg baseX baseY = Ok (h, cmd, m') ->
  nodeStep m m' /\ (Active m = true -> Active m' = true).
Proof.
  unfold checkSelf. destruct (isDropdown m).
  - intros H. apply bind_Ok in H. destruct H as ([w hh] & _ & H). revert H.
    destruct (_ && _ && _ && _).
    + intros H.
      apply hitDropdownItem_step in H; [|intros k it Hk; exact Hk].
      destruct H as [Hs Ha]. split; [exact Hs|congruence].
    + intros H. injection H as <- <- <-. split; [apply nodeStep_refl|easy].
  - destruct (_ && _).
    + intros H. apply hitBarItem_step in H; [exact H|].
      intros k it Hk; exact Hk.
    + intros H. injection H as <- <- <-. split; [apply nodeStep_refl|easy].
Qed.

Lemma levelOK_step (c c' : Model E) :
  levelOK c -> nodeStep c c' -> Active c' = true -> levelOK c'.
Proof.
  intros (Hne & Hd & _ & Hsel) ((Hi & _ & Hd') & Hs & _) Ha.
  unfold levelOK. rewrite Hi, Hd'. repeat split; try assumption.
  - destruct Hs as [->|Hs]; lia.
  - destruct Hs as [->|Hs]; lia.
Qed.

(** Replacing the child of [m] by what one step made of it. *)
Lemma nodeStep_set_child (m c c' : Model E) :
  SubMenuState m = Some c ->
  nodeStep c c' ->
  (wellFormed c -> levelOK c -> Active c' = true) ->
  nodeStep m (set_SubMenuState m (Some c')).
Proof.
  intros Hsub Hstep Hact.
  split; [repeat split|]. split; [now left|].
  intros Hw. pose proof Hw as Hw0.
  rewrite wellFormed_eq, Hsub in Hw. destruct Hw as (_ & Hl & Hc).
  apply (wellFormed_set_child m c c' Hsub Hw0).
  - apply Hstep.
  - apply (levelOK_step c c' Hl Hstep). auto.
  - apply Hstep. exact Hc.
Qed.

Lemma checkMouse_step (m : Model E) :
  forall (msg : MouseMsg) (baseX baseY : Z)
         (h : bool) (cmd : Cmd) (m' : Model E),
    checkMouse m msg baseX baseY = Ok (h, cmd, m') ->
    nodeStep m m' /\ (Active m = true -> Active m' = true).
Proof.
  induction m as [m IH] using Model_chain_ind.
  intros msg baseX baseY h cmd m'. rewrite checkMouse_eq.
  destruct (SubMenuState m) as [c|] eqn:Hsub;
    [|apply checkSelf_step].
  destruct (OpenSubMenu m =? -1) eqn:Hopen; [apply checkSelf_step|].
  intros H. apply bind_Ok in H. destruct H as ([subX subY] & _ & H).
  apply bind_Ok in H. destruct H as ([[hc cmdc] c'] & Hc & H).
  destruct (IH c eq_refl _ _ _ _ _ _ Hc) as (Hsc & Hac).
  assert (Hm1 : nodeStep m (set_SubMenuState m (Some c'))).
  { apply (nodeStep_set_child m c c' Hsub Hsc).
    intros _ Hl. apply Hac, Hl. }
  simpl in H. destruct hc.
  - injection H as <- <- <-. split; [exact Hm1|easy].
  - apply checkSelf_step in H. destruct H as [Hs Ha].
    split; [eapply nodeStep_trans; eassumption|exact Ha].
Qed.

Lemma handleMouse_step (m : Model E) (msg : MouseMsg)
      (m' : Model E) (cmd : Cmd) :
  handleMouse m msg = Ok (m', cmd) -> nodeStep m m'.
Proof.
  unfold handleMouse. intros H.
  apply bind_Ok in H. destruct H as ([[h c] m1] & Hc & H).
  apply checkMouse_step in Hc. destruct Hc as [Hs _].
  destruct (negb h && isRelease (Type_ msg)); injection H as <- <-;
    [|exact Hs].
  eapply nodeStep_trans; [exact Hs|].
  eapply nodeStep_trans; [apply nodeStep_set_Active|].
  apply nodeStep_closeSubMenu.
Qed.

(** ** Any event *)

Lemma Update_step (m : Model E) :
  forall (msg : TeaMsg) (m' : Model E) (cmd : Cmd),
    Update m msg = Ok (m', cmd) -> nodeStep m m'.
Proof.
  induction m as [m IH] using Model_chain_ind.
  intros msg m' cmd.
  destruct msg as [key|mm|] eqn:Hmsg;
    [|rewrite Update_mouse; apply handleMouse_step|];
    (rewrite Update_not_mouse by (intros mm; discriminate));
    (destruct (negb (Active m));
     [intros H; injection H as <- <-; apply nodeStep_refl|]);
    cbv zeta;
    (destruct (SubMenuState m) as [c|] eqn:Hsub;
     [|first [apply onKeyMsg_step
             |intros H; injection H as <- <-; apply nodeStep_refl]]);
    (destruct (OpenSubMenu m =? -1) eqn:Hopen;
     [first [apply onKeyMsg_step
            |intros H; injection H as <- <-; apply nodeStep_refl]|]);
    (destruct (intercept m c _) as [[[mi ci]|]| |] eqn:Hint; simpl;
     try discriminate;
     [intros H; injection H as <- <-;
      eapply intercept_step; eassumption|]);
    (destruct (Update c _) as [[c' cc]| |] eqn:Hc; simpl;
     try discriminate);
    pose proof (IH c eq_refl _ _ _ Hc) as Hsc;
    (destruct (Active c') eqn:Hac; simpl; intros H; injection H as <- <-;
     [apply (nodeStep_set_child m c c' Hsub Hsc); intros _ _; exact Hac
     |split; [repeat split|]; (split; [now left|]);
      intros _; apply wellFormed_closeSubMenu]).
Qed.

(** X1.  No event changes the entries, the style configuration or
    the kind of a node, and no event moves the selection to anything
    but an index of an entry. *)
Theorem update_keeps_configuration (m : Model E) (msg : TeaMsg)
        (m' : Model E) (cmd : Cmd) :
  Update m msg = Ok (m', cmd) ->
  Items m' = Items m /\ ModelStyles m' = ModelStyles m /\
  isDropdown m' = isDropdown m /\
  (Selection m' = Selection m \/ 0 <= Selection m' < len (Items m')).
Proof.
  intros H. apply Update_step in H.
  destruct H as ((Hi & Hs & Hd) & Hsel & _).
  repeat split; try assumption. now rewrite Hi.
Qed.

(** ** Reachable states *)

Lemma reachable_invariant (m : Model E) :
  reachable m ->
  wellFormed m /\ (Items m <> [] -> 0 <= Selection m < len (Items m)).
Proof.
  induction 1 as [items|m b _ IH|m st _ IH|m msg m' cmd _ IH Hup].
  - split; [rewrite wellFormed_eq; reflexivity|].
    simpl. intros Hne. destruct items; [now destruct Hne|].
    unfold len. simpl. lia.
  - now rewrite wellFormed_set_Active.
  - now rewrite wellFormed_set_Styles.
  - apply Update_step in Hup.
    destruct Hup as ((Hi & _) & Hsel & Hw). destruct IH as [IHw IHs].
    split; [auto|]. rewrite Hi. intros Hne.
    destruct Hsel as [->|Hsel]; auto.
Qed.

(** X2.  In every state that a host reaches, each open dropdown is a
    focused dropdown that shows the submenu of the entry named by its
    parent's open-child index, with a selection that is an index of
    one of its entries; a node without a child has no open-child
    index; and the selection of a bar with entries is an index of an
    entry. *)
Theorem reachable_chain_wellformed (m : Model E) :
  reachable m ->
  wellFormed m /\ (Items m <> [] -> 0 <= Selection m < len (Items m)).
Proof. apply reachable_invariant. Qed.

Lemma itemsBounded_inv (items : list (MenuItem E)) :
  itemsBounded items = true -> len items <= max_int.
Proof.
  unfold itemsBounded. intros H. apply andb_prop in H.
  destruct H as [H _]. now apply Z.leb_le.
Qed.

Lemma wellFormed_chainValid (m : Model E) :
  wellFormed m -> itemsBounded (Items m) = true ->
  0 <= Selection m < len (Items m) ->
  chainValid m = true.
Proof.
  induction m as [m IH] using Model_chain_ind.
  intros Hw Hb Hsel. rewrite chainValid_eq.
  apply andb_true_intro. split.
  - unfold nodeValid. rewrite Hb.
    destruct (Z.leb_spec 0 (Selection m)); [|lia].
    destruct (Z.ltb_spec (Selection m) (len (Items m))); [reflexivity|lia].
  - rewrite wellFormed_eq in Hw.
    destruct (SubMenuState m) as [c|] eqn:Hsub; [|reflexivity].
    destruct Hw as ((item & Hi & Hit) & (_ & _ & _ & Hr) & Hc).
    apply (IH c eq_refl Hc); [|exact Hr].
    rewrite Hit. eapply itemsBounded_index; eassumption.
Qed.

(** X3.  On a bar constructed with at least one entry (every entries
    slice of a length that fits [int]), no key press panics, in any
    state that the host reaches. *)
Theorem keys_never_panic (m : Model E) (key : string) :
  reachable m ->
  Items m <> [] ->
  itemsBounded (Items m) = true ->
  exists m' cmd, Update m (KeyMsg key) = Ok (m', cmd).
Proof.
  intros Hr Hne Hb.
  destruct (reachable_invariant m Hr) as [Hw Hsel].
  destruct (Update_key_valid m key) as (m' & cmd & Hu & _); [|eauto].
  apply wellFormed_chainValid; auto.
Qed.

Lemma wellFormed_child (m c : Model E) :
  wellFormed m -> SubMenuState m = Some c ->
  (OpenSubMenu m =? -1) = false /\ levelOK c /\ wellFormed c.
Proof.
  intros Hw Hsub. rewrite wellFormed_eq, Hsub in Hw.
  destruct Hw as ((item & Hi & _) & Hl & Hc).
  apply index_inv in Hi. destruct Hi as [Hr _].
  repeat split; try assumption; try apply Hl.
  apply Z.eqb_neq. lia.
Qed.

Lemma wellFormed_leaf (m : Model E) :
  wellFormed m -> SubMenuState m = None -> OpenSubMenu m = -1.
Proof. intros Hw Hsub. now rewrite wellFormed_eq, Hsub in Hw. Qed.

Lemma Update_other_wellFormed (m : Model E) :
  wellFormed m -> Update m OtherMsg = Ok (m, None).
Proof.
  induction m as [m IH] using Model_chain_ind.
  intros Hw. rewrite Update_other.
  destruct (negb (Active m)); [reflexivity|].
  destruct (SubMenuState m) as [c|] eqn:Hsub; [|reflexivity].
  destruct (wellFormed_child m c Hw Hsub) as (-> & (_ & _ & Ha & _) & Hc).
  unfold intercept. destruct (isDropdown m); simpl;
    rewrite (IH c eq_refl Hc); simpl; rewrite Ha; simpl;
    now rewrite (set_child_same m c Hsub).
Qed.

(** X4.  In every state that a host reaches, a message that is
    neither a key press nor a pointer event changes nothing and emits
    no command. *)
Theorem other_messages_ignored (m : Model E) :
  reachable m -> Update m OtherMsg = Ok (m, None).
Proof.
  intros Hr. apply Update_other_wellFormed.
  now apply reachable_invariant.
Qed.

(** ** Pointer events and focus *)


(** X10.  A bar without an open dropdown and a pointer event outside
    its row: a release takes the focus from the bar, any other event
    changes nothing; neither emits a command. *)
Theorem pointer_outside_bar_row (m : Model E) (msg : MouseMsg) :
  isDropdown m = false ->
  SubMenuState m = None ->
  fits (Height (Render (Bar (ModelStyles m)) "A")) ->
  Y msg < 0 \/ Height (Render (Bar (ModelStyles m)) "A") <= Y msg ->
  Update m (Mouse msg) =
  Ok (if isRelease (Type_ msg)
      then closeSubMenu (set_Active m false)
      else m, None).
Proof.
  intros Hd Hsub Hfit HY.
  rewrite Update_mouse. unfold handleMouse.
  rewrite checkMouse_eq, Hsub. unfold checkSelf. rewrite Hd.
  rewrite iadd_fits by (simpl; exact Hfit). simpl.
  replace ((Y msg >=? 0) && (Y msg <? Height (Render (Bar (ModelStyles m)) "A")))
    with false.
  - simpl. now destruct (isRelease (Type_ msg)).
  - symmetry. apply andb_false_iff. rewrite Z.geb_leb.
    destruct HY; [left; apply Z.leb_gt|right; apply Z.ltb_ge]; lia.
Qed.

(** ** Keys with an open chain *)

Lemma deepest_eq (m : Model E) :
  deepest m = match SubMenuState m with
              | Some c => deepest c
              | None => m
              end.
Proof. destruct m; reflexivity. Qed.

Lemma closeDeepest_eq (m : Model E) :
  closeDeepest m =
  match SubMenuState m with
  | Some c =>
      match SubMenuState c with
      | Some _ => set_SubMenuState m (Some (closeDeepest c))
      | None => closeSubMenu m
      end
  | None => m
  end.
Proof. destruct m; reflexivity. Qed.

Lemma onDeepest_eq (f : Model E -> Model E) (m : Model E) :
  onDeepest f m =
  match SubMenuState m with
  | Some c => set_SubMenuState m (Some (onDeepest f c))
  | None => f m
  end.
Proof. destruct m; reflexivity. Qed.

Lemma Active_closeDeepest (m : Model E) :
  Active (closeDeepest m) = Active m.
Proof.
  rewrite closeDeepest_eq.
  destruct (SubMenuState m) as [c|]; [|reflexivity].
  now destruct (SubMenuState c).
Qed.

Lemma openLevels_eq (m : Model E) :
  openLevels m = match SubMenuState m with
                 | Some c => S (openLevels c)
                 | None => O
                 end.
Proof. destruct m; reflexivity. Qed.

Lemma openLevels_closeDeepest (m : Model E) :
  openLevels (closeDeepest m) = Nat.pred (openLevels m).
Proof.
  induction m as [m IH] using Model_chain_ind.
  rewrite closeDeepest_eq, (openLevels_eq m).
  destruct (SubMenuState m) as [c|] eqn:Hsub;
    [|now rewrite openLevels_eq, Hsub].
  specialize (IH c eq_refl). rewrite (openLevels_eq c) in IH |- *.
  destruct (SubMenuState c) as [cc|] eqn:Hsubc.
  - rewrite openLevels_eq. simpl. rewrite IH. reflexivity.
  - reflexivity.
Qed.

Lemma openLevels_onDeepest (f : Model E -> Model E) (m : Model E) :
  openLevels (onDeepest f m) = (openLevels m + openLevels (f (deepest m)))%nat.
Proof.
  induction m as [m IH] using Model_chain_ind.
  rewrite onDeepest_eq, deepest_eq, (openLevels_eq m).
  destruct (SubMenuState m) as [c|] eqn:Hsub; [|reflexivity].
  rewrite openLevels_eq. simpl. now rewrite (IH c eq_refl).
Qed.

(** A key that closes a dropdown, on a chain of dropdowns. *)
Lemma closing_key_dropdown (key : string) :
  key = "esc" \/ key = "left" ->
  forall m : Model E,
    wellFormed m -> Active m = true -> isDropdown m = true ->
    spec_hotkeyMatch key (Items (deepest m)) = None ->
    Update m (KeyMsg key) =
    Ok (match SubMenuState m with
        | Some _ => closeDeepest m
        | None => set_Active m false
        end, None).
Proof.
  intros Hkey m.
  induction m as [m IH] using Model_chain_ind.
  intros Hw Ha Hd Hhot. rewrite Update_key, Ha. simpl.
  rewrite deepest_eq in Hhot. rewrite closeDeepest_eq.
  destruct (SubMenuState m) as [c|] eqn:Hsub.
  - destruct (wellFormed_child m c Hw Hsub)
      as (-> & (_ & Hdc & Hac & _) & Hc).
    unfold intercept. rewrite Hd. simpl.
    rewrite (IH c eq_refl Hc Hac Hdc Hhot). simpl.
    destruct (SubMenuState c) as [cc|] eqn:Hsubc.
    + now rewrite Active_closeDeepest, Hac.
    + reflexivity.
  - rewrite (onKeyMsg_no_hotkey m key Hhot). unfold onKey.
    destruct Hkey as [-> | ->]; simpl; now rewrite Hd.
Qed.

(** The same key sent on by a parent that does not intercept it. *)
Lemma closing_key_delegated (key : string) (m c : Model E) :
  key = "esc" \/ key = "left" ->
  wellFormed m -> Active m = true -> SubMenuState m = Some c ->
  intercept m c (KeyMsg key) = Ok None ->
  spec_hotkeyMatch key (Items (deepest m)) = None ->
  Update m (KeyMsg key) = Ok (closeDeepest m, None).
Proof.
  intros Hkey Hw Ha Hsub Hint Hhot.
  destruct (wellFormed_child m c Hw Hsub)
    as (Hopen & (_ & Hdc & Hac & _) & Hc).
  rewrite Update_key, Ha, Hsub, Hopen, Hint. simpl.
  rewrite deepest_eq, Hsub in Hhot.
  rewrite (closing_key_dropdown key Hkey c Hc Hac Hdc Hhot). simpl.
  rewrite (closeDeepest_eq m), Hsub.
  destruct (SubMenuState c) as [cc|] eqn:Hsubc.
  - now rewrite Active_closeDeepest, Hac.
  - reflexivity.
Qed.

(** X5.  With a chain open, the escape key closes the deepest open
    level and nothing else: the levels above it, the focus and every
    selection stay.  (The key reaches the deepest level only; there
    it acts as escape unless an entry has it as its hotkey.) *)
Theorem esc_closes_deepest_level (m : Model E) :
  wellFormed m ->
  Active m = true ->
  SubMenuState m <> None ->
  spec_hotkeyMatch "esc" (Items (deepest m)) = None ->
  Update m (KeyMsg "esc") = Ok (closeDeepest m, None) /\
  openLevels (closeDeepest m) = Nat.pred (openLevels m) /\
  Active (closeDeepest m) = true.
Proof.
  intros Hw Ha Hsub Hhot.
  split; [|split; [apply openLevels_closeDeepest
                  |now rewrite Active_closeDeepest]].
  destruct (SubMenuState m) as [c|] eqn:Hs; [|now destruct Hsub].
  apply (closing_key_delegated "esc" m c); auto.
  unfold intercept. now destruct (isDropdown m).
Qed.

(** X6.  The left key closes the deepest open level when that level
    is a dropdown below a dropdown: that is, on a bar with two or
    more levels open, and on a dropdown with one or more. *)
Theorem left_closes_deepest_level (m : Model E) :
  wellFormed m ->
  Active m = true ->
  (isDropdown m = true /\ (1 <= openLevels m)%nat) \/
  (2 <= openLevels m)%nat ->
  spec_hotkeyMatch "left" (Items (deepest m)) = None ->
  Update m (KeyMsg "left") = Ok (closeDeepest m, None) /\
  openLevels (closeDeepest m) = Nat.pred (openLevels m) /\
  Active (closeDeepest m) = true.
Proof.
  intros Hw Ha Hdepth Hhot.
  split; [|split; [apply openLevels_closeDeepest
                  |now rewrite Active_closeDeepest]].
  rewrite (openLevels_eq m) in Hdepth.
  destruct (SubMenuState m) as [c|] eqn:Hsub; [|lia].
  apply (closing_key_delegated "left" m c); auto.
  unfold intercept.
  destruct (isDropdown m) eqn:Hd; [reflexivity|].
  destruct Hdepth as [[Hf _]|Hdepth]; [discriminate|].
  destruct (wellFormed_child m c Hw Hsub) as (_ & _ & Hc).
  rewrite (openLevels_eq c) in Hdepth.
  destruct (SubMenuState c) as [cc|] eqn:Hsubc; [|lia].
  destruct (wellFormed_child c cc Hc Hsubc) as (Hopen & _).
  simpl. unfold hasOpenSubmenu. now rewrite Hsubc, Hopen.
Qed.

Lemma wantsToHandleRight_deepest (m : Model E) :
  wellFormed m ->
  wantsToHandleRight m =
  if len (Items (deepest m)) >? 0 then
    it <- index (Items (deepest m)) (Selection (deepest m)) ;;
    Ok (len (SubMenu it) >? 0)
  else Ok false.
Proof.
  induction m as [m IH] using Model_chain_ind.
  intros Hw. rewrite wantsToHandleRight_eq, deepest_eq. cbv zeta.
  destruct (SubMenuState m) as [c|] eqn:Hsub; [|reflexivity].
  destruct (wellFormed_child m c Hw Hsub) as (-> & _ & Hc).
  now apply IH.
Qed.

Lemma len_pos {A : Type} (l : list A) : l <> [] -> (len l >? 0) = true.
Proof.
  intros Hne. apply Z.gtb_lt.
  destruct l; [now destruct Hne|unfold len; simpl; lia].
Qed.

Lemma Active_onDeepest_opened (item : MenuItem E) (m : Model E) :
  Active (onDeepest (opened item) m) = Active m.
Proof.
  rewrite onDeepest_eq. now destruct (SubMenuState m).
Qed.

(** The right key on a chain of dropdowns whose deepest selection has
    a submenu. *)
Lemma right_key_dropdown (item : MenuItem E) :
  SubMenu item <> [] ->
  forall m : Model E,
    wellFormed m -> Active m = true -> isDropdown m = true ->
    index (Items (deepest m)) (Selection (deepest m)) = Ok item ->
    spec_hotkeyMatch "right" (Items (deepest m)) = None ->
    Update m (KeyMsg "right") = Ok (onDeepest (opened item) m, None).
Proof.
  intros Hs m.
  induction m as [m IH] using Model_chain_ind.
  intros Hw Ha Hd Hi Hhot. rewrite Update_key, Ha. simpl.
  rewrite deepest_eq in Hhot, Hi. rewrite onDeepest_eq.
  destruct (SubMenuState m) as [c|] eqn:Hsub.
  - destruct (wellFormed_child m c Hw Hsub)
      as (-> & (_ & Hdc & Hac & _) & Hc).
    unfold intercept. rewrite Hd. simpl.
    rewrite (IH c eq_refl Hc Hac Hdc Hi Hhot). simpl.
    now rewrite Active_onDeepest_opened, Hac.
  - rewrite (onKeyMsg_no_hotkey m _ Hhot). unfold onKey. simpl.
    rewrite Hd, Hi. simpl. rewrite (len_pos _ Hs).
    now rewrite (openCurrentSelection_submenu m item Hi Hs).
Qed.

(** X7.  With a chain open, the right key opens the submenu of the
    entry selected at the deepest open level, when that entry has
    one: the chain grows by one level and nothing else changes. *)
Theorem right_opens_deepest_submenu (m : Model E) (item : MenuItem E) :
  wellFormed m ->
  Active m = true ->
  SubMenuState m <> None ->
  index (Items (deepest m)) (Selection (deepest m)) = Ok item ->
  SubMenu item <> [] ->
  spec_hotkeyMatch "right" (Items (deepest m)) = None ->
  Update m (KeyMsg "right") = Ok (onDeepest (opened item) m, None) /\
  openLevels (onDeepest (opened item) m) = S (openLevels m).
Proof.
  intros Hw Ha Hsub Hi Hs Hhot.
  split; [|rewrite openLevels_onDeepest; simpl; lia].
  destruct (SubMenuState m) as [c|] eqn:Hsm; [|now destruct Hsub].
  destruct (wellFormed_child m c Hw Hsm)
    as (Hopen & (_ & Hdc & Hac & _) & Hc).
  assert (Hint : intercept m c (KeyMsg "right") = Ok None).
  { unfold intercept. destruct (isDropdown m); [reflexivity|]. simpl.
    rewrite (wantsToHandleRight_deepest c Hc).
    rewrite deepest_eq, Hsm in Hi.
    assert (Hne : Items (deepest c) <> []).
    { intros He. rewrite He in Hi. unfold index in Hi.
      destruct (_ <? 0); [discriminate|].
      now destruct (Z.to_nat _). }
    rewrite (len_pos _ Hne), Hi. simpl. now rewrite (len_pos _ Hs). }
  rewrite Update_key, Ha, Hsm, Hopen, Hint. simpl.
  rewrite deepest_eq, Hsm in Hi, Hhot.
  rewrite (right_key_dropdown item Hs c Hc Hac Hdc Hi Hhot). simpl.
  rewrite Active_onDeepest_opened, Hac. simpl.
  now rewrite (onDeepest_eq _ m), Hsm.
Qed.

(** A key that a node without a child answers by [d'], still
    focused, sent down a chain that does not intercept it. *)
Lemma key_at_deepest (key : string) (d' : Model E) (cmd : Cmd) :
  (key =? "left")%string = false -> (key =? "right")%string = false ->
  Active d' = true ->
  forall m : Model E,
    wellFormed m -> Active m = true ->
    onKeyMsg (deepest m) key = Ok (d', cmd) ->
    Update m (KeyMsg key) = Ok (onDeepest (fun _ => d') m, cmd).
Proof.
  intros Hl Hr Ha' m.
  induction m as [m IH] using Model_chain_ind.
  intros Hw Ha Hleaf. rewrite Update_key, Ha. simpl.
  rewrite deepest_eq in Hleaf. rewrite onDeepest_eq.
  destruct (SubMenuState m) as [c|] eqn:Hsub; [|exact Hleaf].
  destruct (wellFormed_child m c Hw Hsub)
    as (-> & (_ & _ & Hac & _) & Hc).
  assert (Hint : intercept m c (KeyMsg key) = Ok None).
  { unfold intercept. destruct (isDropdown m); [reflexivity|].
    now rewrite Hl, Hr. }
  rewrite Hint. simpl.
  rewrite (IH c eq_refl Hc Hac Hleaf). simpl.
  assert (Hact : Active (onDeepest (fun _ => d') c) = true).
  { rewrite onDeepest_eq. destruct (SubMenuState c); [exact Hac|exact Ha']. }
  now rewrite Hact.
Qed.

Lemma onKeyMsg_hotkey (m : Model E) (key : string) (i : nat) :
  spec_hotkeyMatch key (Items m) = Some i ->
  exists item,
    nth_error (Items m) i = Some item /\
    selectable item = true /\
    onKeyMsg m key = Ok (spec_hotkeyOutcome m i item).
Proof.
  unfold spec_hotkeyMatch, onKeyMsg.
  destruct (firstIndex (hotkeyCandidate String.eqb key) (Items m) 0)
    as [j|] eqn:H1.
  - intros H. injection H as ->.
    destruct (findHotkey_firstIndex_some _ _ _ _ _ H1)
      as (item & k & Hf & -> & Hn & Hcand).
    exists item. rewrite Hf. simpl in *.
    split; [exact Hn|]. split.
    + unfold hotkeyCandidate in Hcand.
      apply andb_prop in Hcand. destruct Hcand as [Hcand _].
      apply andb_prop in Hcand. apply Hcand.
    + now apply onHotkey_outcome.
  - rewrite (findHotkey_firstIndex_none _ _ _ _ H1).
    intros H2.
    destruct (findHotkey_firstIndex_some _ _ _ _ _ H2)
      as (item & k & Hf & -> & Hn & Hcand).
    exists item. rewrite Hf. simpl in *.
    split; [exact Hn|]. split.
    + unfold hotkeyCandidate in Hcand.
      apply andb_prop in Hcand. destruct Hcand as [Hcand _].
      apply andb_prop in Hcand. apply Hcand.
    + now apply onHotkey_outcome.
Qed.

(** X30.  With a chain open, a key other than left and right is
    matched against the hotkeys of the deepest open level only: on a
    match there, that level selects the entry and opens its submenu
    or emits its action, and the levels above stay as they are; the
    hotkeys of the bar and of the levels in between are not
    consulted. *)
Theorem hotkey_reaches_deepest_level (m : Model E) (key : string) (i : nat) :
  wellFormed m ->
  Active m = true ->
  (key =? "left")%string = false ->
  (key =? "right")%string = false ->
  spec_hotkeyMatch key (Items (deepest m)) = Some i ->
  exists item,
    nth_error (Items (deepest m)) i = Some item /\
    selectable item = true /\
    Update m (KeyMsg key)
    = Ok (onDeepest (fun d => fst (spec_hotkeyOutcome d i item)) m,
          snd (spec_hotkeyOutcome (deepest m) i item)).
Proof.
  intros Hw Ha Hl Hr Hmatch.
  destruct (onKeyMsg_hotkey (deepest m) key i Hmatch)
    as (item & Hn & Hsel & Hout).
  exists item. split; [exact Hn|]. split; [exact Hsel|].
  assert (Hd : forall d : Model E,
             Active (fst (spec_hotkeyOutcome d i item)) = Active d).
  { intros d. unfold spec_hotkeyOutcome. now destruct (SubMenu item). }
  assert (Hdeep : Active (deepest m) = true).
  { clear Hmatch Hn Hout. revert Hw Ha.
    induction m as [m IH] using Model_chain_ind.
    intros Hw Ha. rewrite deepest_eq.
    destruct (SubMenuState m) as [c|] eqn:Hsub; [|exact Ha].
    destruct (wellFormed_child m c Hw Hsub) as (_ & (_ & _ & Hac & _) & Hc).
    now apply (IH c eq_refl). }
  rewrite (key_at_deepest key (fst (spec_hotkeyOutcome (deepest m) i item))
             (snd (spec_hotkeyOutcome (deepest m) i item)) Hl Hr);
    try assumption.
  - f_equal. f_equal.
    clear. induction m as [m IH] using Model_chain_ind.
    rewrite !(onDeepest_eq _ m), (deepest_eq m).
    destruct (SubMenuState m) as [c|] eqn:Hsub; [|reflexivity].
    now rewrite (IH c eq_refl).
  - now rewrite Hd.
  - rewrite Hout. now destruct (spec_hotkeyOutcome (deepest m) i item).
Qed.

(** X8.  With a dropdown open on the bar, the bar itself takes the
    left key when only that one level is open, and the right key when
    the entry selected at the deepest level has no submenu: its
    selection moves to the previous or next entry as without a
    dropdown, and the submenu of that entry is opened if it has one.
    No hotkey is consulted. *)
Theorem bar_switches_menu (m c : Model E) :
  wellFormed m ->
  Active m = true ->
  isDropdown m = false ->
  SubMenuState m = Some c ->
  (SubMenuState c = None ->
   Update m (KeyMsg "left") =
   sel <- movePrev (Items m) (Selection m) ;;
   m' <- openCurrentSelection (set_Selection m sel) ;;
   Ok (m', None)) /\
  (forall item,
      index (Items (deepest m)) (Selection (deepest m)) = Ok item ->
      SubMenu item = [] ->
      Update m (KeyMsg "right") =
      sel <- moveNext (Items m) (Selection m) ;;
      m' <- openCurrentSelection (set_Selection m sel) ;;
      Ok (m', None)).
Proof.
  intros Hw Ha Hd Hsub.
  destruct (wellFormed_child m c Hw Hsub) as (Hopen & _ & Hc).
  split.
  - intros Hleaf. rewrite Update_key, Ha, Hsub, Hopen. simpl.
    unfold intercept. rewrite Hd. simpl.
    unfold hasOpenSubmenu. rewrite Hleaf, andb_false_r. simpl.
    destruct (movePrev _ _); simpl; try reflexivity.
    now destruct (openCurrentSelection _).
  - intros item Hi Hs. rewrite Update_key, Ha, Hsub, Hopen. simpl.
    unfold intercept. rewrite Hd. simpl.
    rewrite (wantsToHandleRight_deepest c Hc).
    rewrite deepest_eq, Hsub in Hi. rewrite Hi. simpl. rewrite Hs. simpl.
    change (len (@nil (MenuItem E)) >? 0) with false.
    destruct (len (Items (deepest c)) >? 0); simpl;
      (destruct (moveNext _ _); simpl; try reflexivity;
       now destruct (openCurrentSelection _)).
Qed.

End Chain.
(** * Moving the selection back and forth *)

Section Moves.

Context {E : Env}.

Lemma skipBackward_first (fuel : nat) (items : list (MenuItem E))
      (start sel : Z) :
  len items <= max_int ->
  0 <= start < len items ->
  0 <= sel < len items ->
  (forall j, passedBackward (len items) start sel j ->
             selectable_at items j = false) ->
  (if sel <=? start then len items - start + sel else sel - start)
    <= Z.of_nat fuel ->
  exists r,
    skipBackward fuel items start sel = Ok r /\
    0 <= r < len items /\
    ((selectable_at items r = true /\
      forall j, passedBackward (len items) start r j ->
                selectable_at items j = false) \/
     (r = start /\
      forall j, 0 <= j < len items -> selectable_at items j = false)).
Proof.
  revert sel.
  induction fuel as [|f IH]; intros sel Hmax Hstart Hsel Hpassed Hfuel.
  - destruct (sel <=? start) eqn:Hc;
      [apply Z.leb_le in Hc | apply Z.leb_gt in Hc]; simpl in Hfuel; lia.
  - simpl.
    destruct (index_in_range items sel Hsel) as [it Hit].
    rewrite Hit. simpl.
    pose proof (selectable_at_index items sel it Hit) as Hsa.
    destruct (unselectable it) eqn:Hu; simpl in Hsa.
    + assert (Hw : isub sel 1 = sel - 1) by no_overflow.
      assert (Hw' : isub (len items) 1 = len items - 1) by no_overflow.
      rewrite Hw, Hw'.
      set (sel' := if sel - 1 <? 0 then len items - 1 else sel - 1).
      assert (Hcases : (1 <= sel /\ sel' = sel - 1) \/
                       (sel = 0 /\ sel' = len items - 1)).
      { unfold sel'. destruct (sel - 1 <? 0) eqn:Hlt.
        - apply Z.ltb_lt in Hlt. right. lia.
        - apply Z.ltb_ge in Hlt. left. lia. }
      clearbody sel'.
      destruct (sel' =? start) eqn:Heq.
      * apply Z.eqb_eq in Heq. exists sel'. split; [reflexivity|].
        split; [lia|]. right. split; [assumption|].
        intros j Hj.
        destruct (Z.eq_dec j sel) as [->|Hne]; [assumption|].
        apply Hpassed. unfold passedBackward. split; [assumption|]. lia.
      * apply Z.eqb_neq in Heq.
        apply IH; try assumption; try lia.
        -- intros j [Hj Hp].
           destruct (Z.eq_dec j sel) as [->|Hne]; [assumption|].
           apply Hpassed. unfold passedBackward. split; [assumption|]. lia.
        -- revert Hfuel. cases_on_comparisons; lia.
    + exists sel. split; [reflexivity|]. split; [assumption|].
      left. split; assumption.
Qed.

Lemma nextIndex_range (n x : Z) :
  0 <= x < n -> 0 <= nextIndex n x < n.
Proof.
  intros Hx. unfold nextIndex.
  destruct (x + 1 >=? n) eqn:Hge; [lia|].
  rewrite Z.geb_leb in Hge. apply Z.leb_gt in Hge. lia.
Qed.

Lemma prevIndex_range (n x : Z) :
  0 <= x < n -> 0 <= prevIndex n x < n.
Proof.
  intros Hx. unfold prevIndex.
  destruct (x - 1 <? 0) eqn:Hlt; [lia|].
  apply Z.ltb_ge in Hlt. lia.
Qed.

(** Move-next from an index: the first selectable entry after it in
    cyclic order, or the next position when no entry is selectable. *)
Lemma moveNext_first (items : list (MenuItem E)) (x : Z) :
  len items <= max_int ->
  0 <= x < len items ->
  exists r,
    moveNext items x = Ok r /\
    0 <= r < len items /\
    ((selectable_at items r = true /\
      forall j, 0 <= j < len items ->
                (x < j < r \/ (r <= x /\ (x < j \/ j < r))) ->
                selectable_at items j = false) \/
     (r = nextIndex (len items) x /\
      forall j, 0 <= j < len items -> selectable_at items j = false)).
Proof.
  intros Hmax Hx. unfold moveNext.
  assert (Hw : iadd x 1 = x + 1) by no_overflow.
  rewrite Hw. fold (nextIndex (len items) x).
  pose proof (nextIndex_range _ _ Hx) as Hstart.
  assert (Hcases : (x + 1 < len items /\ nextIndex (len items) x = x + 1) \/
                   (x + 1 = len items /\ nextIndex (len items) x = 0)).
  { unfold nextIndex. destruct (x + 1 >=? len items) eqn:Hge.
    - rewrite Z.geb_leb in Hge. apply Z.leb_le in Hge. right. lia.
    - rewrite Z.geb_leb in Hge. apply Z.leb_gt in Hge. left. lia. }
  set (start := nextIndex (len items) x) in *. clearbody start.
  destruct (skipForward_spec (S (List.length items)) items start start)
    as (r & Hr & Hrange & Hres); try assumption; try lia.
  - intros j [Hj Hp]. lia.
  - rewrite Z.leb_refl. unfold len. lia.
  - exists r. split; [assumption|]. split; [assumption|].
    destruct Hres as [[Hsel Hfirst]|Hnone]; [left|right; assumption].
    split; [assumption|].
    intros j Hj Hbetween. apply Hfirst.
    unfold passedForward. split; [assumption|]. lia.
Qed.

(** Move-previous from an index: the first selectable entry before it
    in cyclic order, or the previous position when no entry is
    selectable. *)
Lemma movePrev_first (items : list (MenuItem E)) (x : Z) :
  len items <= max_int ->
  0 <= x < len items ->
  exists r,
    movePrev items x = Ok r /\
    0 <= r < len items /\
    ((selectable_at items r = true /\
      forall j, 0 <= j < len items ->
                (r < j < x \/ (x <= r /\ (j < x \/ r < j))) ->
                selectable_at items j = false) \/
     (r = prevIndex (len items) x /\
      forall j, 0 <= j < len items -> selectable_at items j = false)).
Proof.
  intros Hmax Hx. unfold movePrev.
  assert (Hw : isub x 1 = x - 1) by no_overflow.
  assert (Hw' : isub (len items) 1 = len items - 1) by no_overflow.
  rewrite Hw, Hw'. fold (prevIndex (len items) x).
  pose proof (prevIndex_range _ _ Hx) as Hstart.
  assert (Hcases : (1 <= x /\ prevIndex (len items) x = x - 1) \/
                   (x = 0 /\ prevIndex (len items) x = len items - 1)).
  { unfold prevIndex. destruct (x - 1 <? 0) eqn:Hlt.
    - apply Z.ltb_lt in Hlt. right. lia.
    - apply Z.ltb_ge in Hlt. left. lia. }
  set (start := prevIndex (len items) x) in *. clearbody start.
  destruct (skipBackward_first (S (List.length items)) items start start)
    as (r & Hr & Hrange & Hres); try assumption; try lia.
  - intros j [Hj Hp]. lia.
  - rewrite Z.leb_refl. unfold len. lia.
  - exists r. split; [assumption|]. split; [assumption|].
    destruct Hres as [[Hsel Hfirst]|Hnone]; [left|right; assumption].
    split; [assumption|].
    intros j Hj Hbetween. apply Hfirst.
    unfold passedBackward. split; [assumption|]. lia.
Qed.

(** X11.  From a selectable entry, move-previous undoes move-next and
    move-next undoes move-previous: each returns to the entry the
    other started from. *)
Theorem move_next_prev_inverse (items : list (MenuItem E)) (x : Z) :
  len items <= max_int ->
  0 <= x < len items ->
  selectable_at items x = true ->
  (exists r, moveNext items x = Ok r /\ movePrev items r = Ok x) /\
  (exists r, movePrev items x = Ok r /\ moveNext items r = Ok x).
Proof.
  intros Hmax Hx Hsel. split.
  - destruct (moveNext_first items x Hmax Hx) as (r & Hr & Hrange & Hres).
    exists r. split; [exact Hr|].
    destruct Hres as [[Hsr Hbetween]|[_ Hnone]];
      [|rewrite (Hnone x Hx) in Hsel; discriminate].
    destruct (movePrev_first items r Hmax Hrange)
      as (r' & Hr' & Hrange' & Hres').
    rewrite Hr'. f_equal.
    destruct Hres' as [[Hsr' Hbetween']|[_ Hnone]];
      [|rewrite (Hnone x Hx) in Hsel; discriminate].
    assert (H1 : ~ (x < r' < r \/ (r <= x /\ (x < r' \/ r' < r)))).
    { intros H. rewrite (Hbetween r' Hrange' H) in Hsr'. discriminate. }
    assert (H2 : ~ (r' < x < r \/ (r <= r' /\ (x < r \/ r' < x)))).
    { intros H. rewrite (Hbetween' x Hx H) in Hsel. discriminate. }
    lia.
  - destruct (movePrev_first items x Hmax Hx) as (r & Hr & Hrange & Hres).
    exists r. split; [exact Hr|].
    destruct Hres as [[Hsr Hbetween]|[_ Hnone]];
      [|rewrite (Hnone x Hx) in Hsel; discriminate].
    destruct (moveNext_first items r Hmax Hrange)
      as (r' & Hr' & Hrange' & Hres').
    rewrite Hr'. f_equal.
    destruct Hres' as [[Hsr' Hbetween']|[_ Hnone]];
      [|rewrite (Hnone x Hx) in Hsel; discriminate].
    assert (H1 : ~ (r < r' < x \/ (x <= r /\ (r' < x \/ r < r')))).
    { intros H. rewrite (Hbetween r' Hrange' H) in Hsr'. discriminate. }
    assert (H2 : ~ (r < x < r' \/ (r' <= r /\ (r < x \/ x < r')))).
    { intros H. rewrite (Hbetween' x Hx H) in Hsel. discriminate. }
    lia.
Qed.

(** X12.  When no entry can be selected, the moves still return: the
    selection advances by one position (move-next) or goes back by one
    position (move-previous), around the ends. *)
Theorem moves_without_selectable_entry (items : list (MenuItem E)) (x : Z) :
  len items <= max_int ->
  0 <= x < len items ->
  hasSelectable items = false ->
  moveNext items x = Ok (nextIndex (len items) x) /\
  movePrev items x = Ok (prevIndex (len items) x).
Proof.
  intros Hmax Hx Hnone.
  assert (Hno : forall r, 0 <= r < len items ->
                          selectable_at items r = true -> False).
  { intros r Hr Hs.
    assert (hasSelectable items = true)
      by (apply hasSelectable_at; eauto).
    congruence. }
  split.
  - destruct (moveNext_first items x Hmax Hx) as (r & Hr & Hrange & Hres).
    destruct Hres as [[Hsr _]|[-> _]]; [now destruct (Hno r)|exact Hr].
  - destruct (movePrev_first items x Hmax Hx) as (r & Hr & Hrange & Hres).
    destruct Hres as [[Hsr _]|[-> _]]; [now destruct (Hno r)|exact Hr].
Qed.

End Moves.

(** * Labels, bar entries and the dropdown offset *)

Lemma substring_length_le (s : string) :
  forall n k, (String.length (substring n k s) <= String.length s)%nat.
Proof.
  induction s as [|c s IH]; intros [|n] [|k]; simpl; try lia.
  - specialize (IH 0%nat k). lia.
  - specialize (IH n 0%nat). lia.
  - specialize (IH n (S k)). lia.
Qed.

(** An occurrence found by [String.index] lies inside the text. *)
Lemma index_bound (s1 s2 : string) :
  forall n m, String.index n s1 s2 = Some m ->
              (m + String.length s1 <= String.length s2)%nat.
Proof.
  induction s2 as [|b s2 IH]; intros n m; cbn [String.index String.length].
  - destruct n; [|discriminate].
    destruct s1; [|discriminate]. intros H. injection H as <-. simpl. lia.
  - destruct n as [|n].
    + destruct (prefix s1 (String b s2)) eqn:Hp.
      * intros H. injection H as <-.
        apply prefix_correct in Hp.
        pose proof (substring_length_le (String b s2) 0 (String.length s1))
          as Hle.
        rewrite Hp in Hle. simpl in *. lia.
      * destruct (String.index 0 s1 s2) as [k|] eqn:Hk; [|discriminate].
        intros H. injection H as <-. specialize (IH _ _ Hk). lia.
    + destruct (String.index n s1 s2) as [k|] eqn:Hk; [|discriminate].
      intros H. injection H as <-. specialize (IH _ _ Hk). lia.
Qed.

(** Cutting a text at two offsets gives three parts that concatenate
    back to it. *)
Lemma substring_three (s : string) :
  forall i k,
    (i + k <= String.length s)%nat ->
    (substring 0 i s ++ substring i k s
       ++ substring (i + k) (String.length s - (i + k)) s)%string = s.
Proof.
  induction s as [|c s IH]; intros i k Hik; simpl in Hik.
  - assert (i = 0%nat) by lia. assert (k = 0%nat) by lia. now subst.
  - destruct i as [|i].
    + change (substring 0 0 (String c s)) with "". cbn [String.append].
      cbn [Nat.add].
      exact (take_drop (String c s) k Hik).
    + cbn [Nat.add]. simpl. f_equal. apply IH. lia.
Qed.

Lemma substring_length (s : string) :
  forall i k, (i + k <= String.length s)%nat ->
              String.length (substring i k s) = k.
Proof.
  induction s as [|c s IH]; intros i k Hik; simpl in Hik.
  - assert (i = 0%nat) by lia. assert (k = 0%nat) by lia. now subst.
  - destruct i as [|i]; destruct k as [|k]; simpl; try reflexivity.
    + rewrite IH by lia. reflexivity.
    + apply (IH i 0%nat). lia.
    + apply IH. lia.
Qed.

Section GeometryMore.

Context {E : Env}.

(** The three slices of [renderLabel] at an offset where a text of
    the hotkey's length fits. *)
Lemma label_slices (label : string) (i k : nat) :
  slen label <= max_int ->
  (i + k <= String.length label)%nat ->
  slice label 0 (Z.of_nat i) = Ok (substring 0 i label) /\
  iadd (Z.of_nat i) (Z.of_nat k) = Z.of_nat (i + k) /\
  slice label (Z.of_nat i) (Z.of_nat (i + k)) = Ok (substring i k label) /\
  slice label (Z.of_nat (i + k)) (slen label)
  = Ok (substring (i + k) (String.length label - (i + k)) label).
Proof.
  intros Hmax Hik. unfold slen in *.
  assert (Hw : iadd (Z.of_nat i) (Z.of_nat k) = Z.of_nat (i + k)).
  { rewrite iadd_fits; [lia|]. unfold fits, min_int, max_int in *. lia. }
  unfold slice, slen. repeat split; try exact Hw.
  - replace ((0 <=? 0) && (0 <=? Z.of_nat i)
             && (Z.of_nat i <=? Z.of_nat (String.length label))) with true
      by (symmetry; rewrite !andb_true_iff, !Z.leb_le; lia).
    do 2 f_equal. lia.
  - replace ((0 <=? Z.of_nat i) && (Z.of_nat i <=? Z.of_nat (i + k))
             && (Z.of_nat (i + k) <=? Z.of_nat (String.length label)))
      with true
      by (symmetry; rewrite !andb_true_iff, !Z.leb_le; lia).
    f_equal. f_equal; lia.
  - replace ((0 <=? Z.of_nat (i + k))
             && (Z.of_nat (i + k) <=? Z.of_nat (String.length label))
             && (Z.of_nat (String.length label)
                 <=? Z.of_nat (String.length label))) with true
      by (symmetry; rewrite !andb_true_iff, !Z.leb_le; lia).
    f_equal. f_equal; lia.
Qed.

(** [renderLabel] with the hotkey found at offset [i]. *)
Lemma renderLabel_at (m : Model E) (item : MenuItem E) (baseStyle : Style)
      (i : nat) :
  slen (Label item) <= max_int ->
  (i + String.length (Hotkey item) <= String.length (Label item))%nat ->
  let pre := substring 0 i (Label item) in
  let hot := substring i (String.length (Hotkey item)) (Label item) in
  let post := substring (i + String.length (Hotkey item))
                        (String.length (Label item)
                         - (i + String.length (Hotkey item)))
                        (Label item) in
  (pre <- slice (Label item) 0 (Z.of_nat i) ;;
   hot <- slice (Label item) (Z.of_nat i)
                (iadd (Z.of_nat i) (slen (Hotkey item))) ;;
   post <- slice (Label item) (iadd (Z.of_nat i) (slen (Hotkey item)))
                 (slen (Label item)) ;;
   Ok (Render baseStyle pre
       ++ Render (Inherit (HotkeyStyle (ModelStyles m)) baseStyle) hot
       ++ (if (post =? "")%string then ""
           else Render (Inline baseStyle) post))%string)
  = Ok (Render baseStyle pre
        ++ Render (Inherit (HotkeyStyle (ModelStyles m)) baseStyle) hot
        ++ (if (post =? "")%string then ""
            else Render (Inline baseStyle) post))%string.
Proof.
  intros Hmax Hik pre hot post.
  destruct (label_slices (Label item) i (String.length (Hotkey item))
              Hmax Hik) as (H1 & Hw & H2 & H3).
  unfold slen at 1 2. rewrite Hw, H1, H2, H3. reflexivity.
Qed.

(** The offset at which [renderLabel] finds the hotkey: none, or an
    offset at which a text of the hotkey's length fits. *)
Lemma hotkey_offset_cases (label hotkey : string) :
  (forall s, String.length (ToLower s) = String.length s) ->
  let idx := if strings_Index label hotkey =? -1
             then strings_Index (ToLower label) (ToLower hotkey)
             else strings_Index label hotkey in
  idx = -1 \/
  exists i : nat,
    idx = Z.of_nat i /\
    (i + String.length hotkey <= String.length label)%nat /\
    (strings_Index label hotkey <> -1 ->
     strings_Index label hotkey = Z.of_nat i /\
     substring i (String.length hotkey) label = hotkey).
Proof.
  intros Hlow. unfold strings_Index.
  destruct (String.index 0 hotkey label) as [i|] eqn:Hi.
  - replace (Z.of_nat i =? -1) with false by (symmetry; apply Z.eqb_neq; lia).
    right. exists i. split; [reflexivity|].
    split; [eapply index_bound; exact Hi|].
    intros _. split; [reflexivity|]. eapply index_correct1; exact Hi.
  - change (-1 =? -1) with true. cbv iota.
    destruct (String.index 0 (ToLower hotkey) (ToLower label))
      as [i|] eqn:Hl; [|now left].
    right. exists i. split; [reflexivity|].
    pose proof (index_bound _ _ _ _ Hl) as Hb. rewrite !Hlow in Hb.
    split; [exact Hb|]. intros H. now destruct H.
Qed.

(** X13.  Where lower-casing keeps the byte length, [renderLabel]
    never panics.  It either renders the label whole, or cuts it into
    three spans that concatenate back to the label, the middle one as
    long as the hotkey and rendered in the hotkey style; when the
    hotkey occurs literally in the label, the middle span is the
    hotkey at its first occurrence. *)
Theorem render_label_spans (m : Model E) (item : MenuItem E)
        (baseStyle : Style) :
  (forall s, String.length (ToLower s) = String.length s) ->
  slen (Label item) <= max_int ->
  renderLabel m item baseStyle = Ok (Render baseStyle (Label item)) \/
  exists pre hot post,
    Label item = (pre ++ hot ++ post)%string /\
    String.length hot = String.length (Hotkey item) /\
    (strings_Index (Label item) (Hotkey item) <> -1 ->
     hot = Hotkey item /\
     Z.of_nat (String.length pre)
     = strings_Index (Label item) (Hotkey item)) /\
    renderLabel m item baseStyle
    = Ok (Render baseStyle pre
          ++ Render (Inherit (HotkeyStyle (ModelStyles m)) baseStyle) hot
          ++ (if (post =? "")%string then ""
              else Render (Inline baseStyle) post))%string.
Proof.
  intros Hlow Hmax. unfold renderLabel.
  destruct ((Hotkey item =? "")%string || Disabled item); [now left|].
  cbv zeta.
  destruct (hotkey_offset_cases (Label item) (Hotkey item) Hlow)
    as [Hidx|(i & Hidx & Hb & Hexact)]; rewrite Hidx; [now left|].
  replace (Z.of_nat i =? -1) with false by (symmetry; apply Z.eqb_neq; lia).
  right.
  exists (substring 0 i (Label item)),
         (substring i (String.length (Hotkey item)) (Label item)),
         (substring (i + String.length (Hotkey item))
                    (String.length (Label item)
                     - (i + String.length (Hotkey item))) (Label item)).
  split; [symmetry; now apply substring_three|].
  split; [now apply substring_length|].
  split.
  - intros Hne. destruct (Hexact Hne) as [-> Hs]. split; [exact Hs|].
    change (substring 0 i (Label item)) with (take i (Label item)).
    rewrite take_length by lia. reflexivity.
  - now apply renderLabel_at.
Qed.

Lemma renderLabel_total (m : Model E) (item : MenuItem E)
      (baseStyle : Style) :
  (forall s, String.length (ToLower s) = String.length s) ->
  slen (Label item) <= max_int ->
  exists l, renderLabel m item baseStyle = Ok l.
Proof.
  intros Hlow Hmax. unfold renderLabel.
  destruct ((Hotkey item =? "")%string || Disabled item); [eauto|].
  cbv zeta.
  destruct (hotkey_offset_cases (Label item) (Hotkey item) Hlow)
    as [Hidx|(i & Hidx & Hb & _)]; rewrite Hidx;
    [change (-1 =? -1) with true; eauto|].
  replace (Z.of_nat i =? -1) with false by (symmetry; apply Z.eqb_neq; lia).
  rewrite (renderLabel_at m item baseStyle i Hmax Hb). eauto.
Qed.

(** ** The bar as measured and as rendered *)

Lemma measureItem_as_rendered (m : Model E) (i : Z) (item : MenuItem E) :
  index (Items m) i = Ok item ->
  Disabled item = false \/ IsSeparator item = true ->
  measureItem m i = v <- barView m i item ;; Ok (Width v).
Proof.
  intros Hi Hd. unfold measureItem, barView. rewrite Hi. simpl.
  destruct (IsSeparator item); [reflexivity|].
  destruct Hd as [->|Hd]; [|discriminate].
  now destruct (renderLabel m item _).
Qed.

Lemma barViews_nth (m : Model E) (items : list (MenuItem E)) :
  forall (i : Z) (views : list string),
    barViews m items i = Ok views ->
    List.length views = List.length items /\
    forall (k : nat) (item : MenuItem E),
      nth_error items k = Some item ->
      exists v, nth_error views k = Some v /\
                barView m (i + Z.of_nat k) item = Ok v.
Proof.
  induction items as [|it rest IH]; intros i views; simpl.
  - intros H. injection H as <-. split; [reflexivity|].
    intros [|k] item; discriminate.
  - intros H. apply bind_Ok in H. destruct H as (v & Hv & H).
    apply bind_Ok in H. destruct H as (vs & Hvs & H).
    injection H as <-.
    destruct (IH _ _ Hvs) as [Hlen Hnth].
    split; [simpl; now rewrite Hlen|].
    intros [|k] item Hk; simpl in Hk.
    + injection Hk as <-. exists v. split; [reflexivity|].
      now rewrite Z.add_0_r.
    + destruct (Hnth k item Hk) as (v' & Hv' & Hb).
      exists v'. split; [exact Hv'|].
      replace (i + Z.of_nat (S k)) with (i + 1 + Z.of_nat k) by lia.
      exact Hb.
Qed.

(** X14.  The bar is hit-tested as it is rendered: [renderBarContent]
    renders one view per entry, and the width that the hit test
    measures for an entry is the width of its view, for every entry
    that is not disabled.  (A disabled entry is rendered in the
    disabled style and measured in the style of an enabled one.) *)
Theorem bar_measured_as_rendered (m : Model E) (views : list string) :
  barViews m (Items m) 0 = Ok views ->
  List.length views = List.length (Items m) /\
  forall (k : nat) (item : MenuItem E),
    nth_error (Items m) k = Some item ->
    Disabled item = false \/ IsSeparator item = true ->
    exists v, nth_error views k = Some v /\
              measureItem m (Z.of_nat k) = Ok (Width v).
Proof.
  intros H. destruct (barViews_nth m (Items m) 0 views H) as [Hlen Hnth].
  split; [exact Hlen|].
  intros k item Hk Hd.
  destruct (Hnth k item Hk) as (v & Hv & Hb). simpl in Hb.
  exists v. split; [exact Hv|].
  rewrite (measureItem_as_rendered m _ item (index_of_nat _ _ _ Hk) Hd).
  now rewrite Hb.
Qed.

Lemma dropdownOffsetLoop_as_hit_test (m : Model E) (bound : Z) :
  Active m = false \/ bound <= Selection m ->
  (forall j it, 0 <= j < bound -> index (Items m) j = Ok it ->
                IsSeparator it = false) ->
  forall (n : nat) (i acc : Z),
    0 <= i -> i + Z.of_nat n <= bound ->
    dropdownOffsetLoop m n i acc = barSubmenuX m n i acc.
Proof.
  intros Hsel Hsep.
  induction n as [|n IH]; intros i acc Hi Hn; simpl; [reflexivity|].
  unfold measureItem.
  destruct (index (Items m) i) as [it| |] eqn:Hit; simpl; try reflexivity.
  rewrite (Hsep i it) by (try assumption; lia).
  replace (Active m && (i =? Selection m)) with false.
  - destruct (renderLabel m it _); simpl; try reflexivity.
    apply IH; lia.
  - symmetry. destruct Hsel as [->|Hsel]; [reflexivity|].
    apply andb_false_iff. right. apply Z.eqb_neq. lia.
Qed.

(** X15.  The offset of the open dropdown that the bar reports to the
    host is the x-origin at which the bar hit-tests that dropdown,
    provided no entry before the open one is a separator and the
    selection is not before the open entry (or the bar is not
    focused). *)
Theorem bar_offset_is_hit_origin (m : Model E) :
  isDropdown m = false ->
  Active m = false \/ OpenSubMenu m <= Selection m ->
  (forall j it, 0 <= j < OpenSubMenu m -> index (Items m) j = Ok it ->
                IsSeparator it = false) ->
  submenuOrigin m 0 0 =
  offset <- getDropdownOffset m ;;
  Ok (offset, iadd 0 (Height (Render (Bar (ModelStyles m)) "A"))).
Proof.
  intros Hd Hsel Hsep. unfold submenuOrigin, getDropdownOffset.
  rewrite Hd.
  destruct (Z.eqb_spec (OpenSubMenu m) (-1)) as [->|Hopen]; [reflexivity|].
  destruct (Z.le_gt_cases 0 (OpenSubMenu m)) as [Hnn|Hneg].
  - rewrite (dropdownOffsetLoop_as_hit_test m (OpenSubMenu m) Hsel Hsep);
      [reflexivity|lia|lia].
  - replace (Z.to_nat (OpenSubMenu m)) with 0%nat by lia. reflexivity.
Qed.

End GeometryMore.

Section BarRendering.

Context {E : Env} {V : ViewEnv E}.

Lemma barViews_total (m : Model E) (items : list (MenuItem E)) :
  (forall s, String.length (ToLower s) = String.length s) ->
  (forall item, In item items -> slen (Label item) <= max_int) ->
  forall i, exists views, barViews m items i = Ok views.
Proof.
  intros Hlow. induction items as [|it rest IH]; intros Hmax i; simpl.
  - eauto.
  - assert (Hv : exists v, barView m i it = Ok v).
    { unfold barView. destruct (IsSeparator it); [eauto|].
      destruct (renderLabel_total m it
                  (UnsetPadding
                     (if Disabled it
                      then Inherit (DisabledStyle (ModelStyles m))
                                   (Item (ModelStyles m))
                      else if Active m && (i =? Selection m)
                           then SelectedItem (ModelStyles m)
                           else Item (ModelStyles m))) Hlow)
        as [l Hl]; [apply Hmax; now left|].
      cbv zeta. rewrite Hl. simpl. eauto. }
    destruct Hv as [v ->]. simpl.
    destruct (IH (fun item H => Hmax item (or_intror H)) (i + 1))
      as [vs ->].
    simpl. eauto.
Qed.

(** X16.  Where lower-casing keeps the byte length, rendering the bar
    never panics, whatever the text on the right and the target
    width: a spacer is added only when its width is positive. *)
Theorem bar_rendering_returns (m : Model E) (right : string) (width : Z) :
  (forall s, String.length (ToLower s) = String.length s) ->
  (forall item, In item (Items m) -> slen (Label item) <= max_int) ->
  exists v, ViewBarWithRightSide m right width = Ok v.
Proof.
  intros Hlow Hmax. unfold ViewBarWithRightSide.
  destruct (isDropdown m); [eauto|].
  unfold renderBarContent.
  destruct (barViews_total m (Items m) Hlow Hmax 0) as [views ->]. simpl.
  destruct (width >? 0); simpl; [|eauto].
  match goal with
  | |- context [if ?w >? 0 then _ else _] =>
      destruct (Z.gtb_spec w 0) as [Hpos|_]; simpl; [|eauto];
      unfold Repeat_space;
      replace (w <? 0) with false by (symmetry; apply Z.ltb_ge; lia)
  end.
  simpl. eauto.
Qed.

End BarRendering.

(** * More on the overlay *)

(** ** Lines *)

Lemma splitLines_nonempty (s : string) :
  exists l ls, splitLines s = l :: ls.
Proof.
  induction s as [|c r IH]; simpl; [eauto|].
  destruct (Ascii.eqb c newline); [eauto|].
  destruct IH as (l & ls & ->). eauto.
Qed.

Lemma joinLines_cons (l : string) (ls : list string) :
  ls <> [] ->
  joinLines (l :: ls) = (l ++ String newline (joinLines ls))%string.
Proof. destruct ls; [now intros []|reflexivity]. Qed.

Lemma joinLines_splitLines (s : string) : joinLines (splitLines s) = s.
Proof.
  induction s as [|c r IH]; simpl; [reflexivity|].
  destruct (Ascii.eqb_spec c newline) as [->|Hne].
  - destruct (splitLines_nonempty r) as (l & ls & Hr).
    rewrite joinLines_cons by (rewrite Hr; discriminate).
    now rewrite IH.
  - destruct (splitLines_nonempty r) as (l & ls & Hr). rewrite Hr in *.
    destruct ls as [|l' ls'].
    + simpl in *. now rewrite IH.
    + rewrite joinLines_cons in IH by discriminate.
      rewrite joinLines_cons by discriminate.
      cbn [String.append]. now rewrite IH.
Qed.

Lemma splitLines_oneLine (s : string) :
  forallb oneLine (splitLines s) = true.
Proof.
  induction s as [|c r IH]; simpl; [reflexivity|].
  destruct (Ascii.eqb c newline) eqn:Hc; [exact IH|].
  destruct (splitLines r) as [|l ls]; simpl in *; rewrite Hc; simpl;
    [reflexivity|exact IH].
Qed.

Lemma splitLines_one (l : string) :
  oneLine l = true -> splitLines l = [l].
Proof.
  induction l as [|c r IH]; simpl; [reflexivity|].
  intros H. apply andb_prop in H. destruct H as [Hc Hr].
  apply negb_true_iff in Hc. rewrite Hc, (IH Hr). reflexivity.
Qed.

Lemma splitLines_app_newline (l rest : string) :
  oneLine l = true ->
  splitLines (l ++ String newline rest) = l :: splitLines rest.
Proof.
  induction l as [|c r IH]; simpl.
  - intros _. reflexivity.
  - intros H. apply andb_prop in H. destruct H as [Hc Hr].
    apply negb_true_iff in Hc. rewrite Hc, (IH Hr). reflexivity.
Qed.

Lemma splitLines_joinLines (lines : list string) :
  lines <> [] -> forallb oneLine lines = true ->
  splitLines (joinLines lines) = lines.
Proof.
  induction lines as [|l ls IH]; [now intros []|].
  intros _ H. simpl in H. apply andb_prop in H. destruct H as [Hl Hls].
  destruct ls as [|l' ls'].
  - simpl. now apply splitLines_one.
  - rewrite joinLines_cons by discriminate.
    rewrite splitLines_app_newline by exact Hl.
    rewrite IH; [reflexivity|discriminate|exact Hls].
Qed.

Lemma append_assoc (a b c : string) :
  ((a ++ b) ++ c)%string = (a ++ (b ++ c))%string.
Proof. induction a as [|x a IH]; simpl; [reflexivity|now rewrite IH]. Qed.

Lemma joinLines_app (a b : list string) :
  a <> [] -> b <> [] ->
  joinLines (a ++ b) = (joinLines a ++ String newline (joinLines b))%string.
Proof.
  induction a as [|l ls IH]; [now intros []|].
  intros _ Hb. destruct ls as [|l' ls'].
  - simpl app. now rewrite joinLines_cons.
  - change ((l :: l' :: ls') ++ b)%list with (l :: ((l' :: ls') ++ b))%list.
    rewrite !joinLines_cons by discriminate.
    rewrite IH by (discriminate || assumption).
    cbn [String.append]. now rewrite append_assoc.
Qed.

(** ** Texts without a line break *)

Lemma oneLine_app (a b : string) :
  oneLine (a ++ b) = oneLine a && oneLine b.
Proof.
  induction a as [|c r IH]; simpl; [reflexivity|].
  now rewrite IH, andb_assoc.
Qed.

Lemma oneLine_substring (s : string) :
  oneLine s = true -> forall n k, oneLine (substring n k s) = true.
Proof.
  induction s as [|c r IH]; intros H n k.
  - destruct n, k; reflexivity.
  - simpl in H. apply andb_prop in H. destruct H as [Hc Hr].
    destruct n as [|n]; destruct k as [|k]; simpl; auto.
    rewrite Hc. simpl. auto.
Qed.

Lemma oneLine_spaces (n : nat) : oneLine (spaces n) = true.
Proof. induction n as [|n IH]; simpl; [reflexivity|exact IH]. Qed.

Lemma not_newline (c : ascii) :
  byteOf c <> 10 -> Ascii.eqb c newline = false.
Proof.
  intros H. destruct (Ascii.eqb_spec c newline) as [->|]; [|reflexivity].
  now destruct H.
Qed.

Lemma sgrTail_oneLine (s t : string) :
  sgrTail s = Some t -> oneLine t = true.
Proof.
  revert t. induction s as [|c r IH]; intros t; simpl; [discriminate|].
  destruct (within 48 57 (byteOf c) || (byteOf c =? 59)) eqn:Hd.
  - destruct (sgrTail r) as [u|]; [|discriminate].
    intros H. injection H as <-. simpl. rewrite (IH u eq_refl).
    rewrite not_newline; [reflexivity|].
    unfold within in Hd. intros Heq. rewrite Heq in Hd. discriminate.
  - destruct (byteOf c =? 109) eqn:Hm; [|discriminate].
    intros H. injection H as <-. simpl.
    rewrite not_newline; [reflexivity|].
    intros Heq. rewrite Heq in Hm. discriminate.
Qed.

Lemma sgrAt_oneLine (s t : string) :
  sgrAt s = Some t -> oneLine t = true.
Proof.
  unfold sgrAt. destruct s as [|c0 [|c1 r]]; try discriminate.
  destruct (Ascii.eqb c0 escape && (byteOf c1 =? 91)) eqn:Hh;
    [|discriminate].
  destruct (sgrTail r) as [u|] eqn:Hu; [|discriminate].
  intros H. injection H as <-.
  apply andb_prop in Hh. destruct Hh as [H0 H1].
  apply Ascii.eqb_eq in H0. subst c0. apply Z.eqb_eq in H1.
  simpl. rewrite (sgrTail_oneLine _ _ Hu).
  rewrite (not_newline c1) by lia. reflexivity.
Qed.

Lemma findAllFrom_oneLine (s : string) :
  forall skip, forallb oneLine (findAllFrom skip s) = true.
Proof.
  induction s as [|c r IH]; intros skip; [reflexivity|].
  cbn [findAllFrom]. destruct skip as [|k]; [|apply IH].
  destruct (sgrAt (String c r)) as [t|] eqn:Ht; [|apply IH].
  simpl. now rewrite (sgrAt_oneLine _ _ Ht), IH.
Qed.

Lemma joinEmpty_oneLine (parts : list string) :
  forallb oneLine parts = true -> oneLine (joinEmpty parts) = true.
Proof.
  induction parts as [|p ps IH]; simpl; [reflexivity|].
  intros H. apply andb_prop in H. destruct H as [Hp Hps].
  unfold joinEmpty in *. simpl. now rewrite oneLine_app, Hp, IH.
Qed.

(** ** Lists of rows *)

Lemma nth_error_setAt_other {A : Type} (l : list A) (k j : nat) (v : A) :
  j <> k -> nth_error (setAt l k v) j = nth_error l j.
Proof.
  revert k j. induction l as [|a l IH]; intros k j Hne.
  - now destruct k.
  - destruct k as [|k]; destruct j as [|j]; simpl; try reflexivity.
    + now destruct Hne.
    + apply IH. lia.
Qed.

Lemma length_setAt {A : Type} (l : list A) (k : nat) (v : A) :
  List.length (setAt l k v) = List.length l.
Proof.
  revert k. induction l as [|a l IH]; intros [|k]; simpl; auto.
Qed.

Lemma forallb_setAt {A : Type} (p : A -> bool) (l : list A) (k : nat)
      (v : A) :
  forallb p l = true -> p v = true -> forallb p (setAt l k v) = true.
Proof.
  revert k. induction l as [|a l IH]; intros [|k] Hl Hv; simpl in *; auto.
  - apply andb_prop in Hl. destruct Hl as [_ Hl]. now rewrite Hv.
  - apply andb_prop in Hl. destruct Hl as [Ha Hl]. rewrite Ha. simpl. auto.
Qed.

Section OverlayMore.

Context {E : Env}.

(** ** Where [splitWithANSI] cuts *)

Lemma splitLoop_rune_cut (s : string) (width : Z) (rest : string) :
  forall i skip prevI,
    (i + String.length rest = String.length s)%nat ->
    exists k,
      (k = prevI \/ In k (runeStartsFrom rest i skip)
       \/ k = String.length s) /\
      splitLoop s width rest i skip prevI = (take k s, drop k s).
Proof.
  induction rest as [|c r IH]; intros i skip prevI Hi.
  - exists (String.length s). split; [auto|].
    simpl. unfold take, drop.
    rewrite substring_all, Nat.sub_diag, substring_none.
    now destruct (Width s <=? width).
  - cbn [splitLoop runeStartsFrom]. cbn [String.length] in Hi.
    destruct skip as [|k].
    + destruct (Width (take i s) =? width).
      * exists i. split; [right; left; now left|reflexivity].
      * destruct (Width (take i s) >? width).
        -- exists prevI. split; [now left|reflexivity].
        -- destruct (IH (S i) (runeSize (String c r) - 1)%nat i)
             as (k & Hk & Hres); [lia|].
           exists k. split; [|exact Hres].
           destruct Hk as [->|[Hk|Hk]]; auto.
           ++ right; left; now left.
           ++ right; left; now right.
    + destruct (IH (S i) k prevI) as (k' & Hk & Hres); [lia|].
      exists k'. split; [|exact Hres]. exact Hk.
Qed.

(** X17.  [splitWithANSI] cuts the text at the start of a rune or at
    its end, never inside a rune, and loses nothing: the two parts
    concatenate back to the text. *)
Theorem split_cuts_between_runes (s : string) (width : Z) :
  exists k,
    (In k (runeStarts s) \/ k = String.length s) /\
    splitWithANSI s width = (take k s, drop k s) /\
    (fst (splitWithANSI s width) ++ snd (splitWithANSI s width))%string = s.
Proof.
  destruct (splitLoop_rune_cut s width s 0 0 0 eq_refl) as (k & Hk & Hres).
  exists k. split; [|split; [exact Hres|apply splitWithANSI_concat]].
  destruct Hk as [->|[Hk|Hk]]; auto.
  destruct s as [|c r]; [now right|]. left. now left.
Qed.

Lemma splitLoop_bounded (s : string) (width : Z) (rest : string) :
  forall i skip prevI,
    Width (take prevI s) <= width ->
    let r := splitLoop s width rest i skip prevI in
    Width (fst r) <= width \/ r = (s, "").
Proof.
  induction rest as [|c r IH]; intros i skip prevI Hprev.
  - right. simpl. now destruct (Width s <=? width).
  - cbn [splitLoop]. destruct skip as [|k]; [|now apply IH].
    destruct (Z.eqb_spec (Width (take i s)) width) as [Heq|Hne].
    + left. simpl. lia.
    + destruct (Z.gtb_spec (Width (take i s)) width) as [Hgt|Hle].
      * left. exact Hprev.
      * apply IH. lia.
Qed.

(** X18.  Unless the empty text is already wider than the target, the
    first part returned by [splitWithANSI] is no wider than the
    target, except when the whole text is returned. *)
Theorem split_prefix_bounded (s : string) (width : Z) :
  Width "" <= width ->
  Width (fst (splitWithANSI s width)) <= width \/
  splitWithANSI s width = (s, "").
Proof.
  intros H0. apply (splitLoop_bounded s width s 0 0 0).
  unfold take. now rewrite substring_none.
Qed.

(** ** Rows *)

Lemma overlayRow_oneLine (bgLine fgLine : string) (x : Z) (line : string) :
  oneLine bgLine = true -> oneLine fgLine = true ->
  overlayRow bgLine fgLine x = Ok line -> oneLine line = true.
Proof.
  intros Hb Hf. unfold overlayRow.
  destruct (Width bgLine <? x).
  - unfold Repeat_space. destruct (_ <? 0); simpl; [discriminate|].
    intros H. injection H as <-.
    now rewrite !oneLine_app, Hb, Hf, oneLine_spaces.
  - unfold splitWithANSI.
    destruct (splitLoop_cut bgLine x bgLine 0 0 0) as (k & _ & ->); try lia.
    destruct (splitLoop_cut bgLine (iadd x (Width fgLine)) bgLine 0 0 0)
      as (k' & _ & ->); try lia.
    assert (Hpad : forall p,
               (if Width (take k bgLine) <? x
                then Repeat_space (isub x (Width (take k bgLine)))
                else Ok "") = Ok p -> oneLine p = true).
    { intros p. destruct (_ <? x).
      - unfold Repeat_space. destruct (_ <? 0); [discriminate|].
        intros H. injection H as <-. apply oneLine_spaces.
      - intros H. now injection H as <-. }
    intros H. apply bind_Ok in H. destruct H as (p & Hp & H).
    injection H as <-.
    rewrite !oneLine_app, (Hpad p Hp), Hf.
    unfold take, drop. rewrite !oneLine_substring by exact Hb.
    rewrite joinEmpty_oneLine by apply findAllFrom_oneLine.
    reflexivity.
Qed.

Lemma overlayLines_rows (fgLines : list string) (x y : Z) :
  forall (bgLines : list string) (i : Z) (out : list string),
    0 <= y + i ->
    y + i + len fgLines <= max_int ->
    overlayLines bgLines fgLines x y i = Ok out ->
    (List.length bgLines <= List.length out)%nat /\
    (forallb oneLine bgLines = true -> forallb oneLine fgLines = true ->
     forallb oneLine out = true) /\
    forall j : nat,
      (j < List.length bgLines)%nat ->
      Z.of_nat j < y + i \/ y + i + len fgLines <= Z.of_nat j ->
      nth_error out j = nth_error bgLines j.
Proof.
  induction fgLines as [|fgLine rest IH]; intros bgLines i out Hlo Hhi.
  - simpl. intros H. injection H as <-. auto.
  - cbn [overlayLines].
    assert (Hlen : len (fgLine :: rest) = 1 + len rest)
      by (unfold len; simpl List.length; lia).
    rewrite Hlen in *.
    assert (Hrow : iadd y i = y + i).
    { apply iadd_fits. unfold fits, min_int, max_int in *.
      unfold len in *. lia. }
    rewrite Hrow.
    destruct (Z.geb_spec (y + i) (len bgLines)) as [Hge|Hlt].
    + intros H. apply bind_Ok in H. destruct H as (pad & Hpad & H).
      apply IH in H; [|lia|lia].
      destruct H as (Hl & Ho & Hn). rewrite length_app in Hl. simpl in Hl.
      split; [lia|]. split.
      * intros Hb Hf. simpl in Hf. apply andb_prop in Hf.
        destruct Hf as [Hf Hr]. apply Ho; [|exact Hr].
        rewrite forallb_app, Hb. simpl.
        unfold Repeat_space in Hpad. destruct (x <? 0); [discriminate|].
        injection Hpad as <-.
        now rewrite oneLine_app, oneLine_spaces, Hf.
      * intros j Hj Hrange.
        rewrite Hn; [|rewrite length_app; simpl; lia|lia].
        now apply nth_error_app1.
    + intros H. apply bind_Ok in H. destruct H as (bgLine & Hbg & H).
      apply bind_Ok in H. destruct H as (line & Hline & H).
      apply IH in H; [|lia|lia].
      destruct H as (Hl & Ho & Hn). rewrite length_setAt in Hl.
      split; [exact Hl|]. split.
      * intros Hb Hf. simpl in Hf. apply andb_prop in Hf.
        destruct Hf as [Hf Hr]. apply Ho; [|exact Hr].
        apply forallb_setAt; [exact Hb|].
        apply (overlayRow_oneLine bgLine fgLine x line); try assumption.
        apply index_inv in Hbg. destruct Hbg as [_ Hnth].
        rewrite forallb_forall in Hb. apply Hb.
        eapply nth_error_In; exact Hnth.
      * intros j Hj Hrange.
        rewrite Hn; [|rewrite length_setAt; lia|lia].
        apply nth_error_setAt_other. unfold len in *. lia.
Qed.

(** X19.  [Overlay] changes no row of the background that the
    foreground does not cover, and removes none: such a row is in the
    result at the same position, unchanged. *)
Theorem overlay_keeps_other_rows (bg fg : string) (x y : Z) (r : string) :
  0 <= y ->
  y + len (splitLines fg) <= max_int ->
  Overlay bg fg x y = Ok r ->
  (List.length (splitLines bg) <= List.length (splitLines r))%nat /\
  forall j : nat,
    (j < List.length (splitLines bg))%nat ->
    Z.of_nat j < y \/ y + len (splitLines fg) <= Z.of_nat j ->
    nth_error (splitLines r) j = nth_error (splitLines bg) j.
Proof.
  intros Hy Hmax. unfold Overlay. intros H.
  apply bind_Ok in H. destruct H as (out & Hout & H). injection H as <-.
  apply overlayLines_rows in Hout; [|lia|lia].
  destruct Hout as (Hl & Ho & Hn).
  assert (Hne : out <> []).
  { destruct (splitLines_nonempty bg) as (l & ls & Hbg).
    rewrite Hbg in Hl. simpl in Hl. destruct out; [simpl in Hl; lia|].
    discriminate. }
  rewrite splitLines_joinLines;
    [|exact Hne|apply Ho; apply splitLines_oneLine].
  split; [exact Hl|].
  intros j Hj Hrange. apply Hn; [exact Hj|lia].
Qed.

(** X20.  A negative row makes [Overlay] panic, whatever the texts
    and the column. *)
Theorem overlay_negative_row_panics (bg fg : string) (x y : Z) :
  min_int <= y < 0 ->
  Overlay bg fg x y = Panic.
Proof.
  intros Hy. unfold Overlay.
  destruct (splitLines_nonempty fg) as (l & ls & ->).
  cbn [overlayLines].
  rewrite iadd_fits by (unfold fits, min_int, max_int in *; lia).
  rewrite Z.add_0_r.
  destruct (Z.geb_spec y (len (splitLines bg))) as [Hge|_];
    [unfold len in Hge; lia|].
  unfold index. destruct (Z.ltb_spec y 0); [reflexivity|lia].
Qed.

Lemma overlayLines_below (fgLines : list string) (x y : Z) :
  0 <= x ->
  forall (bgLines : list string) (i : Z),
    len bgLines <= y + i ->
    y + i + len fgLines <= max_int ->
    overlayLines bgLines fgLines x y i =
    Ok (bgLines
        ++ map (fun l => (spaces (Z.to_nat x) ++ l)%string) fgLines)%list.
Proof.
  intros Hx.
  induction fgLines as [|fgLine rest IH]; intros bgLines i Hlo Hhi.
  - simpl. now rewrite app_nil_r.
  - cbn [overlayLines].
    assert (Hlen : len (fgLine :: rest) = 1 + len rest)
      by (unfold len; simpl List.length; lia).
    rewrite Hlen in *.
    rewrite iadd_fits
      by (unfold fits, min_int, max_int, len in *; lia).
    destruct (Z.geb_spec (y + i) (len bgLines)) as [_|Hlt]; [|lia].
    unfold Repeat_space. destruct (Z.ltb_spec x 0); [lia|]. simpl.
    rewrite IH.
    + now rewrite <- app_assoc.
    + unfold len in *. rewrite length_app. simpl. lia.
    + lia.
Qed.

(** X21.  Placed at a row at or below the end of the background, the
    foreground is appended directly after the last row of the
    background, each of its rows indented by [x] blanks; no empty
    rows are inserted in between. *)
Theorem overlay_below_background (bg fg : string) (x y : Z) :
  0 <= x ->
  len (splitLines bg) <= y ->
  y + len (splitLines fg) <= max_int ->
  Overlay bg fg x y =
  Ok (bg ++ String newline
        (joinLines (map (fun l => (spaces (Z.to_nat x) ++ l)%string)
                        (splitLines fg))))%string.
Proof.
  intros Hx Hy Hmax. unfold Overlay.
  rewrite overlayLines_below by (try assumption; lia). simpl.
  destruct (splitLines_nonempty bg) as (b & bs & Hb).
  destruct (splitLines_nonempty fg) as (f & fs & Hf).
  rewrite joinLines_app.
  - now rewrite joinLines_splitLines.
  - rewrite Hb. discriminate.
  - rewrite Hf. discriminate.
Qed.

Lemma overlayRow_total (bgLine fgLine : string) (x : Z) :
  (forall s, 0 <= Width s) ->
  0 <= x <= max_int ->
  exists line, overlayRow bgLine fgLine x = Ok line.
Proof.
  intros Hw Hx. unfold overlayRow.
  assert (Hpad : forall w, 0 <= w -> w < x ->
                           exists p, Repeat_space (isub x w) = Ok p).
  { intros w Hw0 Hlt. unfold Repeat_space.
    rewrite isub_fits by (unfold fits, min_int, max_int in *; lia).
    destruct (Z.ltb_spec (x - w) 0); [lia|eauto]. }
  destruct (Z.ltb_spec (Width bgLine) x) as [Hlt|Hge].
  - destruct (Hpad _ (Hw bgLine) Hlt) as [p ->]. simpl. eauto.
  - destruct (splitWithANSI bgLine x) as [prefix q].
    destruct (splitWithANSI bgLine (iadd x (Width fgLine)))
      as [preSuffix suffix].
    destruct (Z.ltb_spec (Width prefix) x) as [Hlt|_].
    + destruct (Hpad _ (Hw prefix) Hlt) as [p ->]. simpl. eauto.
    + simpl. eauto.
Qed.

Lemma overlayLines_total (fgLines : list string) (x y : Z) :
  (forall s, 0 <= Width s) ->
  0 <= x <= max_int ->
  forall (bgLines : list string) (i : Z),
    0 <= y + i ->
    y + i + len fgLines <= max_int ->
    exists out, overlayLines bgLines fgLines x y i = Ok out.
Proof.
  intros Hw Hx.
  induction fgLines as [|fgLine rest IH]; intros bgLines i Hlo Hhi.
  - simpl. eauto.
  - cbn [overlayLines].
    assert (Hlen : len (fgLine :: rest) = 1 + len rest)
      by (unfold len; simpl List.length; lia).
    rewrite Hlen in *.
    rewrite iadd_fits
      by (unfold fits, min_int, max_int, len in *; lia).
    destruct (Z.geb_spec (y + i) (len bgLines)) as [Hge|Hlt].
    + unfold Repeat_space. destruct (Z.ltb_spec x 0); [lia|]. simpl.
      apply IH; lia.
    + destruct (index_in_range bgLines (y + i)) as [bgLine ->]; [lia|].
      simpl.
      destruct (overlayRow_total bgLine fgLine x Hw Hx) as [line ->].
      simpl. apply IH; lia.
Qed.

(** X22.  Where no text has a negative width, [Overlay] at a column
    and a row that are not negative never panics. *)
Theorem overlay_returns (bg fg : string) (x y : Z) :
  (forall s, 0 <= Width s) ->
  0 <= x <= max_int ->
  0 <= y ->
  y + len (splitLines fg) <= max_int ->
  exists r, Overlay bg fg x y = Ok r.
Proof.
  intros Hw Hx Hy Hmax. unfold Overlay.
  destruct (overlayLines_total (splitLines fg) x y Hw Hx (splitLines bg) 0)
    as [out ->]; [lia|lia|].
  simpl. eauto.
Qed.

End OverlayMore.

(** * Pointer events on the rows of a dropdown and the entries of the bar *)

Section PointerMore.

Context {E : Env}.

Lemma set_Active_same (m : Model E) :
  Active m = true -> set_Active m true = m.
Proof. destruct m; simpl. now intros ->. Qed.

(** The rows of a dropdown in a style whose rows are one line high:
    the row at offset [localY] is the entry at that index. *)
Lemma hitDropdownItem_unit (m : Model E) (msg : MouseMsg) (localY : Z)
      (it : MenuItem E) :
  Height (Render (SeparatorStyle (ModelStyles m)) "-") = 1 ->
  Height (Render (DropdownItem (ModelStyles m)) "A") = 1 ->
  OpenSubMenu m = -1 ->
  0 <= localY < max_int ->
  index (Items m) localY = Ok it ->
  forall (items : list (MenuItem E)) (i : nat),
    Z.of_nat i <= localY ->
    nth_error items (Z.to_nat localY - i) = Some it ->
    hitDropdownItem m msg localY items i (Z.of_nat i) =
    Ok (if unselectable it then (true, None, m)
        else match Type_ msg with
             | MouseRelease =>
                 if len (SubMenu it) >? 0
                 then (true, None, opened it (set_Selection m localY))
                 else (true, actionCmd it, set_Selection m localY)
             | _ => (true, None, set_Selection m localY)
             end).
Proof.
  intros Hsep Hrow Hopen Hy Hidx.
  induction items as [|it0 rest IH]; intros i Hi Hnth.
  - now destruct (Z.to_nat localY - i)%nat.
  - cbn [hitDropdownItem].
    replace (if IsSeparator it0
             then Height (Render (SeparatorStyle (ModelStyles m)) "-")
             else Height (Render (DropdownItem (ModelStyles m)) "A"))
      with 1 by (destruct (IsSeparator it0); congruence).
    rewrite iadd_fits by (unfold fits, min_int, max_int in *; lia).
    destruct (Z.eq_dec localY (Z.of_nat i)) as [Heq|Hne].
    + replace (Z.to_nat localY - i)%nat with 0%nat in Hnth by lia.
      simpl in Hnth. injection Hnth as ->.
      replace ((localY >=? Z.of_nat i) && (localY <? Z.of_nat i + 1))
        with true
        by (symmetry; rewrite andb_true_iff, Z.geb_leb, Z.leb_le, Z.ltb_lt;
            lia).
      fold (unselectable it). destruct (unselectable it); [reflexivity|].
      rewrite <- Heq.
      destruct (Type_ msg); try reflexivity.
      * destruct (SubMenu it) as [|s sub] eqn:Hsub.
        -- change (len (@nil (MenuItem E)) >? 0) with false.
           unfold actionCmd. now destruct (Action it).
        -- replace (len (s :: sub) >? 0) with true
             by (symmetry; apply Z.gtb_lt; unfold len; simpl; lia).
           rewrite (openCurrentSelection_submenu (set_Selection m localY) it)
             by (simpl; congruence).
           reflexivity.
      * simpl. rewrite Hopen. reflexivity.
    + replace ((localY >=? Z.of_nat i) && (localY <? Z.of_nat i + 1))
        with false
        by (symmetry; rewrite andb_false_iff, Z.ltb_ge; right; lia).
      replace (Z.of_nat i + 1) with (Z.of_nat (S i)) by lia.
      apply IH; [lia|].
      replace (Z.to_nat localY - i)%nat with (S (Z.to_nat localY - S i))
        in Hnth by lia.
      exact Hnth.
Qed.

(** X28.  A dropdown without an open child, in a style whose rows
    are one line high, and a pointer event inside its rectangle on
    the row of an entry: a separator or a disabled entry absorbs the
    event and nothing changes; on any other entry the selection moves
    to that entry, and a release opens its submenu or, when it has
    none, emits its action. *)
Theorem dropdown_pointer_on_row (m : Model E) (msg : MouseMsg)
        (baseX baseY width height : Z) (it : MenuItem E) :
  let row := isub (isub (Y msg) baseY)
                  (Height (BorderTop (Dropdown (ModelStyles m)))) in
  isDropdown m = true ->
  SubMenuState m = None ->
  OpenSubMenu m = -1 ->
  Height (Render (SeparatorStyle (ModelStyles m)) "-") = 1 ->
  Height (Render (DropdownItem (ModelStyles m)) "A") = 1 ->
  getDropdownDimensions m = Ok (width, height) ->
  baseX <= X msg < iadd baseX width ->
  baseY <= Y msg < iadd baseY height ->
  0 <= row < max_int ->
  index (Items m) row = Ok it ->
  checkMouse m msg baseX baseY =
  Ok (if unselectable it then (true, None, m)
      else match Type_ msg with
           | MouseRelease =>
               if len (SubMenu it) >? 0
               then (true, None, opened it (set_Selection m row))
               else (true, actionCmd it, set_Selection m row)
           | _ => (true, None, set_Selection m row)
           end).
Proof.
  intros row Hd Hsub Hopen Hsep Hrow Hdim HX HY Hr Hidx.
  rewrite checkMouse_eq, Hsub. unfold checkSelf. rewrite Hd, Hdim.
  cbn [bind].
  replace ((X msg >=? baseX) && (X msg <? iadd baseX width)
           && (Y msg >=? baseY) && (Y msg <? iadd baseY height)) with true
    by (symmetry; rewrite !andb_true_iff, !Z.geb_leb, !Z.leb_le, !Z.ltb_lt;
        lia).
  fold row.
  apply (hitDropdownItem_unit m msg row it Hsep Hrow Hopen Hr Hidx
           (Items m) 0%nat); [lia|].
  rewrite Nat.sub_0_r. apply index_inv in Hidx. apply Hidx.
Qed.

(** The entries of the bar from entry [i] on: the entry whose span
    holds the column of the event is entry [k]. *)
Lemma hitBarItem_at (m : Model E) (msg : MouseMsg) (baseX : Z)
      (wd : nat -> Z) (k : nat) (it : MenuItem E) :
  (forall j, (j <= k)%nat ->
             measureItem m (Z.of_nat j) = Ok (wd j) /\ 0 <= wd j) ->
  min_int <= baseX ->
  baseX + sumTo wd (S k) <= max_int ->
  baseX + sumTo wd k <= X msg < baseX + sumTo wd (S k) ->
  forall (items : list (MenuItem E)) (i : nat),
    (i <= k)%nat ->
    nth_error items (k - i) = Some it ->
    hitBarItem m msg items i (baseX + sumTo wd i) =
    let m1 := set_Selection m (Z.of_nat k) in
    match Type_ msg with
    | MouseRelease =>
        let m1 := if negb (Active m1) then set_Active m1 true else m1 in
        if len (SubMenu it) >? 0 then
          if OpenSubMenu m1 =? Z.of_nat k
          then Ok (true, None, closeSubMenu m1)
          else m' <- openCurrentSelection m1 ;; Ok (true, None, m')
        else Ok (true, actionCmd it, m1)
    | MouseMotion =>
        if Active m1 && negb (OpenSubMenu m1 =? -1)
           && negb (OpenSubMenu m1 =? Z.of_nat k)
        then m' <- openCurrentSelection m1 ;; Ok (true, None, m')
        else Ok (true, None, m1)
    | MouseOther => Ok (true, None, m1)
    end.
Proof.
  intros Hw Hbase Hmax HX.
  assert (Hmono : forall a b, (a <= b)%nat -> (b <= S k)%nat ->
                              sumTo wd a <= sumTo wd b).
  { intros a b Hab Hb. induction Hab as [|b Hab IH]; [lia|].
    simpl. destruct (Hw b) as [_ H0]; [lia|].
    specialize (IH ltac:(lia)). lia. }
  assert (Hnn : forall a, (a <= S k)%nat -> 0 <= sumTo wd a).
  { intros a Ha. exact (Hmono 0%nat a ltac:(lia) Ha). }
  induction items as [|it0 rest IH]; intros i Hi Hnth.
  - now destruct (k - i)%nat.
  - cbn [hitBarItem].
    destruct (Hw i Hi) as [Hmi Hwi]. rewrite Hmi. cbn [bind].
    pose proof (Hmono i (S i) ltac:(lia) ltac:(lia)) as H1.
    pose proof (Hmono (S i) (S k) ltac:(lia) ltac:(lia)) as H2.
    pose proof (Hnn i ltac:(lia)) as H3.
    assert (Hadd : iadd (baseX + sumTo wd i) (wd i)
                   = baseX + sumTo wd (S i)).
    { cbn [sumTo] in *. rewrite iadd_fits; [lia|].
      unfold fits, min_int, max_int in *. lia. }
    rewrite Hadd.
    destruct (Nat.eq_dec i k) as [->|Hne].
    + rewrite Nat.sub_diag in Hnth. simpl in Hnth. injection Hnth as ->.
      replace ((X msg >=? baseX + sumTo wd k)
               && (X msg <? baseX + sumTo wd (S k))) with true
        by (symmetry; rewrite andb_true_iff, Z.geb_leb, Z.leb_le, Z.ltb_lt;
            lia).
      unfold actionCmd. cbv zeta.
      destruct (Type_ msg); try reflexivity.
      destruct (len (SubMenu it) >? 0); [reflexivity|].
      now destruct (Action it).
    + pose proof (Hmono (S i) k ltac:(lia) ltac:(lia)) as H4.
      replace ((X msg >=? baseX + sumTo wd i)
               && (X msg <? baseX + sumTo wd (S i))) with false
        by (symmetry; rewrite andb_false_iff, Z.ltb_ge; right; lia).
      apply IH; [lia|].
      replace (k - i)%nat with (S (k - S i)) in Hnth by lia.
      exact Hnth.
Qed.

(** X29.  A bar without an open dropdown and a pointer event in its
    row, at a column inside the span of entry [k] (the spans are the
    measured widths laid side by side from the base column): the
    selection moves to entry [k], whether or not it can be selected;
    a release also gives the bar the focus and opens the submenu of
    the entry or, when it has none, emits its action. *)
Theorem bar_pointer_on_entry (m : Model E) (msg : MouseMsg)
        (baseX baseY : Z) (wd : nat -> Z) (k : nat) (it : MenuItem E) :
  isDropdown m = false ->
  SubMenuState m = None ->
  OpenSubMenu m = -1 ->
  nth_error (Items m) k = Some it ->
  (forall j, (j <= k)%nat ->
             measureItem m (Z.of_nat j) = Ok (wd j) /\ 0 <= wd j) ->
  min_int <= baseX ->
  baseX + sumTo wd (S k) <= max_int ->
  baseX + sumTo wd k <= X msg < baseX + sumTo wd (S k) ->
  baseY <= Y msg < iadd baseY (Height (Render (Bar (ModelStyles m)) "A")) ->
  checkMouse m msg baseX baseY =
  Ok (match Type_ msg with
      | MouseRelease =>
          let m1 := set_Active (set_Selection m (Z.of_nat k)) true in
          if len (SubMenu it) >? 0
          then (true, None, opened it m1)
          else (true, actionCmd it, m1)
      | _ => (true, None, set_Selection m (Z.of_nat k))
      end).
Proof.
  intros Hd Hsub Hopen Hnth Hw Hbase Hmax HX HY.
  rewrite checkMouse_eq, Hsub. unfold checkSelf. rewrite Hd.
  replace ((Y msg >=? baseY)
           && (Y msg <? iadd baseY (Height (Render (Bar (ModelStyles m)) "A"))))
    with true
    by (symmetry; rewrite andb_true_iff, Z.geb_leb, Z.leb_le, Z.ltb_lt; lia).
  replace baseX with (baseX + sumTo wd 0) at 1 by (simpl; lia).
  rewrite (hitBarItem_at m msg baseX wd k it Hw Hbase Hmax HX (Items m) 0%nat);
    [|lia|now rewrite Nat.sub_0_r].
  cbv zeta.
  assert (Hm1 : (if negb (Active (set_Selection m (Z.of_nat k)))
                 then set_Active (set_Selection m (Z.of_nat k)) true
                 else set_Selection m (Z.of_nat k))
                = set_Active (set_Selection m (Z.of_nat k)) true).
  { change (Active (set_Selection m (Z.of_nat k))) with (Active m).
    destruct (Active m) eqn:Ha; [|reflexivity].
    simpl. symmetry. now apply set_Active_same. }
  rewrite Hm1.
  change (OpenSubMenu (set_Active (set_Selection m (Z.of_nat k)) true))
    with (OpenSubMenu m).
  change (OpenSubMenu (set_Selection m (Z.of_nat k))) with (OpenSubMenu m).
  rewrite Hopen.
  destruct (Type_ msg).
  - destruct (SubMenu it) as [|s sub] eqn:Hs; [reflexivity|].
    cbv zeta.
    replace (len (s :: sub) >? 0) with true
      by (symmetry; apply Z.gtb_lt; unfold len; simpl; lia).
    replace (-1 =? Z.of_nat k) with false by (symmetry; apply Z.eqb_neq; lia).
    rewrite (openCurrentSelection_submenu _ it);
      [reflexivity|simpl; now apply index_of_nat|congruence].
  - now rewrite andb_false_r.
  - reflexivity.
Qed.

End PointerMore.

(** * The open chain as layers *)

Section Layers.

Context {E : Env} {V : ViewEnv E}.

Lemma getLayersRecursive_eq (m : Model E) (baseX baseY : Z) :
  getLayersRecursive m baseX baseY =
  currentView <- renderSingleDropdown m ;;
  let layers := [DropdownLayer.mk currentView baseX baseY] in
  match SubMenuState m with
  | Some c =>
      if OpenSubMenu m =? -1 then Ok layers
      else
        let menuWidth := Width currentView in
        let yOffset := iadd (Selection m) 1 in
        subLayers <- getLayersRecursive c (iadd baseX menuWidth)
                                        (iadd baseY yOffset) ;;
        Ok (layers ++ subLayers)%list
  | None => Ok layers
  end.
Proof. destruct m; reflexivity. Qed.

Lemma linked_child (m c : Model E) :
  linked m = true -> SubMenuState m = Some c ->
  (OpenSubMenu m =? -1) = false /\ linked c = true.
Proof.
  intros Hl Hsub. rewrite linked_eq, Hsub in Hl.
  apply andb_prop in Hl. destruct Hl as [Ho Hc].
  apply negb_true_iff in Ho. auto.
Qed.

(** The layers of a chain: one per level, the first at the base
    position with the rendering of the node, each next one to the
    right of the one before by its width and below it by its
    selection and one row. *)
Lemma getLayersRecursive_chain (m : Model E) :
  forall (baseX baseY : Z) (layers : list DropdownLayer.t),
    linked m = true ->
    getLayersRecursive m baseX baseY = Ok layers ->
    List.length layers = S (openLevels m) /\
    (exists l rest,
        layers = l :: rest /\
        DropdownLayer.X l = baseX /\ DropdownLayer.Y l = baseY) /\
    (forall k l c,
        nth_error layers k = Some l -> level m k = Some c ->
        renderSingleDropdown c = Ok (DropdownLayer.Content l)) /\
    (forall k l l' c,
        nth_error layers k = Some l -> nth_error layers (S k) = Some l' ->
        level m k = Some c ->
        DropdownLayer.X l'
        = iadd (DropdownLayer.X l) (Width (DropdownLayer.Content l)) /\
        DropdownLayer.Y l'
        = iadd (DropdownLayer.Y l) (iadd (Selection c) 1)).
Proof.
  induction m as [m IH] using Model_chain_ind.
  intros baseX baseY layers Hl. rewrite getLayersRecursive_eq.
  intros H. apply bind_Ok in H. destruct H as (view & Hview & H).
  cbv zeta in H. rewrite (openLevels_eq m).
  destruct (SubMenuState m) as [c|] eqn:Hsub.
  - destruct (linked_child m c Hl Hsub) as [Hopen Hlc].
    rewrite Hopen in H.
    apply bind_Ok in H. destruct H as (sub & Hs & H). injection H as <-.
    destruct (IH c eq_refl _ _ _ Hlc Hs)
      as (Hlen & (l1 & rest1 & -> & Hx1 & Hy1) & Hcontent & Hnext).
    split; [simpl in *; now rewrite Hlen|].
    split; [eexists; eexists; split; [reflexivity|split; reflexivity]|].
    split.
    + intros [|k] l c0 Hk Hlev; simpl in Hk, Hlev.
      * injection Hk as <-. injection Hlev as <-. exact Hview.
      * rewrite Hsub in Hlev. eapply Hcontent; eassumption.
    + intros [|k] l l' c0 Hk Hk' Hlev; simpl in Hk, Hk', Hlev.
      * injection Hk as <-. injection Hk' as <-. injection Hlev as <-.
        simpl. split; congruence.
      * rewrite Hsub in Hlev. eapply Hnext; eassumption.
  - injection H as <-.
    split; [reflexivity|].
    split; [eexists; eexists; split; [reflexivity|split; reflexivity]|].
    split.
    + intros [|k] l c0 Hk Hlev; simpl in Hk, Hlev.
      * injection Hk as <-. injection Hlev as <-. exact Hview.
      * now destruct k.
    + intros [|k] l l' c0 Hk Hk' Hlev; simpl in Hk, Hk'.
      * discriminate.
      * now destruct k.
Qed.

(** X23.  [ViewDropdownLayers] gives the host one layer per open
    level, outermost first: layer [k] is the rendering of the level
    [k+1] of the chain; the first sits at (0, 0) and comes with the
    offset of [getDropdownOffset]; each next layer sits to the right
    of the one before by the width of that layer's rendering and
    below it by that level's selection and one row.  Without an open
    dropdown there is no layer and the offset is 0. *)
Theorem dropdown_layers_follow_chain (m : Model E)
        (layers : list DropdownLayer.t) (offset : Z) :
  linked m = true ->
  ViewDropdownLayers m = Ok (layers, offset) ->
  List.length layers = openLevels m /\
  (layers = [] -> offset = 0) /\
  (forall l, nth_error layers 0 = Some l ->
             DropdownLayer.X l = 0 /\ DropdownLayer.Y l = 0 /\
             getDropdownOffset m = Ok offset) /\
  (forall k l c,
      nth_error layers k = Some l -> level m (S k) = Some c ->
      renderSingleDropdown c = Ok (DropdownLayer.Content l)) /\
  (forall k l l' c,
      nth_error layers k = Some l -> nth_error layers (S k) = Some l' ->
      level m (S k) = Some c ->
      DropdownLayer.X l'
      = iadd (DropdownLayer.X l) (Width (DropdownLayer.Content l)) /\
      DropdownLayer.Y l'
      = iadd (DropdownLayer.Y l) (iadd (Selection c) 1)).
Proof.
  intros Hl. unfold ViewDropdownLayers. rewrite (openLevels_eq m).
  destruct (SubMenuState m) as [c|] eqn:Hsub.
  - destruct (linked_child m c Hl Hsub) as [Hopen Hlc]. rewrite Hopen.
    intros H. apply bind_Ok in H. destruct H as (off & Hoff & H).
    apply bind_Ok in H. destruct H as (ls & Hls & H).
    injection H as <- <-.
    destruct (getLayersRecursive_chain c _ _ _ Hlc Hls)
      as (Hlen & (l1 & rest1 & -> & Hx1 & Hy1) & Hcontent & Hnext).
    split; [exact Hlen|]. split; [discriminate|]. split.
    + intros l Hk. simpl in Hk. injection Hk as <-. auto.
    + split.
      * intros k l c0 Hk Hlev. simpl in Hlev. rewrite Hsub in Hlev.
        eapply Hcontent; eassumption.
      * intros k l l' c0 Hk Hk' Hlev. simpl in Hlev. rewrite Hsub in Hlev.
        eapply Hnext; eassumption.
  - intros H. injection H as <- <-.
    split; [reflexivity|]. split; [reflexivity|]. split; [discriminate|].
    split; intros [|k]; discriminate.
Qed.

End Layers.

Section LayerRows.

Context {E : Env} {V : ViewEnv E}.

Lemma dropdownSubmenuY_unit (m : Model E) :
  Height (Render (SeparatorStyle (ModelStyles m)) "-") = 1 ->
  Height (Render (DropdownItem (ModelStyles m)) "A") = 1 ->
  forall (n : nat) (i yOffset : Z),
    0 <= i -> i + Z.of_nat n <= len (Items m) ->
    0 <= yOffset -> yOffset + Z.of_nat n <= max_int ->
    dropdownSubmenuY m n i yOffset = Ok (yOffset + Z.of_nat n).
Proof.
  intros Hsep Hrow.
  induction n as [|n IH]; intros i yOffset Hi Hn Hy Hmax; simpl.
  - f_equal. lia.
  - destruct (index_in_range (Items m) i) as [it ->]; [lia|]. simpl.
    replace (if IsSeparator it
             then Height (Render (SeparatorStyle (ModelStyles m)) "-")
             else Height (Render (DropdownItem (ModelStyles m)) "A"))
      with 1 by (destruct (IsSeparator it); congruence).
    rewrite iadd_fits by (unfold fits, min_int, max_int in *; lia).
    rewrite IH by lia. f_equal. lia.
Qed.

(** X24.  A dropdown whose selection is its open entry, in a style
    whose rows and top border are one line high: the row at which the
    layer of its child is placed is the row at which the child is
    hit-tested. *)
Theorem nested_layer_row_is_hit_row (m : Model E) (baseX baseY : Z)
        (l0 l1 : DropdownLayer.t) (rest : list DropdownLayer.t)
        (subX subY : Z) :
  isDropdown m = true ->
  Selection m = OpenSubMenu m ->
  0 <= OpenSubMenu m <= len (Items m) ->
  len (Items m) < max_int ->
  Height (Render (SeparatorStyle (ModelStyles m)) "-") = 1 ->
  Height (Render (DropdownItem (ModelStyles m)) "A") = 1 ->
  Height (BorderTop (Dropdown (ModelStyles m))) = 1 ->
  getLayersRecursive m baseX baseY = Ok (l0 :: l1 :: rest) ->
  submenuOrigin m baseX baseY = Ok (subX, subY) ->
  DropdownLayer.Y l1 = subY.
Proof.
  intros Hd Hsel Hopen Hmax Hsep Hrow Htop Hlayers Horigin.
  (* the layer *)
  rewrite getLayersRecursive_eq in Hlayers.
  apply bind_Ok in Hlayers. destruct Hlayers as (view & _ & H).
  cbv zeta in H.
  destruct (SubMenuState m) as [c|]; [|discriminate].
  destruct (OpenSubMenu m =? -1); [discriminate|].
  apply bind_Ok in H. destruct H as (sub & Hsub & H).
  injection H as _ Hrest.
  rewrite getLayersRecursive_eq in Hsub.
  apply bind_Ok in Hsub. destruct Hsub as (view1 & _ & Hsub).
  assert (Hy : DropdownLayer.Y l1 = iadd baseY (iadd (Selection m) 1)).
  { cbv zeta in Hsub.
    destruct (SubMenuState c) as [cc|].
    - destruct (OpenSubMenu c =? -1).
      + injection Hsub as <-. now injection Hrest as <-.
      + apply bind_Ok in Hsub. destruct Hsub as (s2 & _ & Hsub).
        injection Hsub as <-. now injection Hrest as <-.
    - injection Hsub as <-. now injection Hrest as <-. }
  (* the hit test *)
  unfold submenuOrigin in Horigin. rewrite Hd in Horigin.
  apply bind_Ok in Horigin. destruct Horigin as ([w h] & _ & Horigin).
  rewrite Htop in Horigin.
  rewrite (dropdownSubmenuY_unit m Hsep Hrow) in Horigin by lia.
  cbn [bind] in Horigin.
  assert (HsubY : iadd baseY (1 + Z.of_nat (Z.to_nat (OpenSubMenu m))) = subY)
    by congruence.
  rewrite <- HsubY, Hy, Hsel.
  rewrite (iadd_fits (OpenSubMenu m) 1)
    by (unfold fits, min_int, max_int in *; lia).
  f_equal. lia.
Qed.

End LayerRows.

Section DropdownRendering.

Context {E : Env} {V : ViewEnv E}.

Lemma fold_max_elem (f : MenuItem E -> Z) (items : list (MenuItem E))
      (it : MenuItem E) :
  In it items ->
  forall a, f it <= fold_left (fun acc x => Z.max acc (f x)) items a.
Proof.
  induction items as [|x rest IH]; intros Hin a; [now destruct Hin|].
  simpl. destruct Hin as [->|Hin].
  - pose proof (fold_max_ge f rest (Z.max a (f it))). lia.
  - now apply IH.
Qed.

Lemma rightColumnWidth_shortcut (items : list (MenuItem E))
      (it : MenuItem E) :
  In it items -> Width (Shortcut it) <= rightColumnWidth items.
Proof.
  intros Hin. unfold rightColumnWidth, maxShortcutWidth.
  pose proof (fold_max_elem (fun x => Width (Shortcut x)) items it Hin 0)
    as H.
  cbv beta in H.
  destruct (_ && (_ <? 2)) eqn:Hc; [|assumption].
  apply andb_prop in Hc. destruct Hc as [_ Hc]. apply Z.ltb_lt in Hc.
  unfold maxShortcutWidth in Hc. lia.
Qed.

Lemma rightColumnWidth_submenu (items : list (MenuItem E))
      (it : MenuItem E) :
  In it items -> (len (SubMenu it) >? 0) = true ->
  2 <= rightColumnWidth items.
Proof.
  intros Hin Hs. unfold rightColumnWidth.
  assert (Hany : anySubmenu items = true).
  { unfold anySubmenu. apply existsb_exists. eauto. }
  rewrite Hany. simpl.
  destruct (Z.ltb_spec (maxShortcutWidth items) 2); lia.
Qed.

Lemma dropdownRow_total (m : Model E) (standardWidth i : Z)
      (item : MenuItem E) :
  (forall s, String.length (ToLower s) = String.length s) ->
  (forall s, 0 <= Width s) ->
  slen (Label item) <= max_int ->
  maxLabelWidth (Items m) + 2 + rightColumnWidth (Items m) <= max_int ->
  In item (Items m) ->
  (IsSeparator item = false ->
   forall l, renderLabel m item (rowBaseStyle m i item) = Ok l ->
             Width l <= maxLabelWidth (Items m) + 2) ->
  exists v,
    dropdownRow m (maxLabelWidth (Items m)) (rightColumnWidth (Items m))
                standardWidth i item = Ok v.
Proof.
  intros Hlow Hw Hlabel Hsum Hin Hfit. unfold dropdownRow. cbv zeta.
  pose proof (maxLabelWidth_nonneg (Items m)) as HL.
  pose proof (rightColumnWidth_nonneg (Items m)) as HR.
  destruct (IsSeparator item) eqn:Hsep.
  - unfold strings_Repeat.
    match goal with
    | |- context [(if ?c then 0 else ?e) <? 0] =>
        replace ((if c then 0 else e) <? 0) with false
          by (symmetry; apply Z.ltb_ge;
              destruct (Z.ltb_spec e 0); simpl; lia)
    end.
    simpl. eauto.
  - assert (Hstyle :
      UnsetPadding
        (if Disabled item
         then Inherit (DisabledStyle (ModelStyles m))
                      (DropdownItem (ModelStyles m))
         else if i =? Selection m
              then DropdownSelected (ModelStyles m)
              else DropdownItem (ModelStyles m))
      = rowBaseStyle m i item) by reflexivity.
    rewrite Hstyle.
    destruct (renderLabel_total m item (rowBaseStyle m i item) Hlow Hlabel)
      as [l Hl].
    rewrite Hl. cbn [bind].
    specialize (Hfit eq_refl l Hl). pose proof (Hw l) as Hl0.
    assert (Hpad : iadd (isub (maxLabelWidth (Items m)) (Width l)) 2
                   = maxLabelWidth (Items m) - Width l + 2).
    { rewrite isub_fits by (unfold fits, min_int, max_int in *; lia).
      apply iadd_fits. unfold fits, min_int, max_int in *. lia. }
    rewrite Hpad. unfold Repeat_space at 1.
    destruct (Z.ltb_spec (maxLabelWidth (Items m) - Width l + 2) 0); [lia|].
    cbn [bind].
    destruct (negb (Shortcut item =? "")%string).
    + pose proof (rightColumnWidth_shortcut _ _ Hin) as Hs.
      pose proof (Hw (Shortcut item)) as Hs0.
      rewrite isub_fits by (unfold fits, min_int, max_int in *; lia).
      unfold Repeat_space.
      destruct (Z.ltb_spec (rightColumnWidth (Items m)
                            - Width (Shortcut item)) 0); [lia|].
      simpl. eauto.
    + destruct (len (SubMenu item) >? 0) eqn:Hsub.
      * pose proof (rightColumnWidth_submenu _ _ Hin Hsub) as Hs.
        rewrite isub_fits by (unfold fits, min_int, max_int in *; lia).
        unfold Repeat_space.
        destruct (Z.ltb_spec (rightColumnWidth (Items m) - 2) 0); [lia|].
        simpl. eauto.
      * destruct (rightColumnWidth (Items m) >? 0); [|simpl; eauto].
        unfold Repeat_space.
        destruct (Z.ltb_spec (rightColumnWidth (Items m)) 0); [lia|].
        simpl. eauto.
Qed.

Lemma dropdownRows_total (m : Model E) (standardWidth : Z)
      (items : list (MenuItem E)) :
  (forall s, String.length (ToLower s) = String.length s) ->
  (forall s, 0 <= Width s) ->
  maxLabelWidth (Items m) + 2 + rightColumnWidth (Items m) <= max_int ->
  forall (i : nat),
    (forall k item, nth_error items k = Some item ->
                    nth_error (Items m) (i + k) = Some item) ->
    (forall k item,
        nth_error (Items m) k = Some item ->
        slen (Label item) <= max_int /\
        (IsSeparator item = false ->
         forall l, renderLabel m item (rowBaseStyle m (Z.of_nat k) item)
                   = Ok l ->
                   Width l <= maxLabelWidth (Items m) + 2)) ->
    exists rows,
      List.length rows = List.length items /\
      dropdownRows m (maxLabelWidth (Items m)) (rightColumnWidth (Items m))
                   standardWidth items (Z.of_nat i) = Ok rows.
Proof.
  intros Hlow Hw Hsum.
  induction items as [|item rest IH]; intros i Hsuffix Hfit.
  - exists []. split; reflexivity.
  - cbn [dropdownRows].
    pose proof (Hsuffix 0%nat item eq_refl) as Hnth.
    rewrite Nat.add_0_r in Hnth.
    destruct (Hfit _ _ Hnth) as [Hlabel Hwide].
    destruct (dropdownRow_total m standardWidth (Z.of_nat i) item
                Hlow Hw Hlabel Hsum (nth_error_In _ _ Hnth) Hwide)
      as [v ->].
    cbn [bind].
    replace (Z.of_nat i + 1) with (Z.of_nat (S i)) by lia.
    destruct (IH (S i)) as (rows & Hlen & ->).
    + intros k it Hk. replace (S i + k)%nat with (i + S k)%nat by lia.
      now apply Hsuffix.
    + exact Hfit.
    + cbn [bind]. exists (v :: rows). split; [simpl; now rewrite Hlen|].
      reflexivity.
Qed.

(** X25.  [renderSingleDropdown] returns, with one row per entry,
    provided lower-casing keeps the byte length, no text has a
    negative width, the column widths add up within [int], and no
    label is rendered more than two cells wider than the widest label
    text.  (The padding after a label is the widest label text, less
    the rendered label, plus two; the right column is never narrower
    than a shortcut hint or the submenu mark.) *)
Theorem dropdown_rendering_returns (m : Model E) :
  (forall s, String.length (ToLower s) = String.length s) ->
  (forall s, 0 <= Width s) ->
  maxLabelWidth (Items m) + 2 + rightColumnWidth (Items m) <= max_int ->
  (forall k item,
      nth_error (Items m) k = Some item ->
      slen (Label item) <= max_int /\
      (IsSeparator item = false ->
       forall l, renderLabel m item (rowBaseStyle m (Z.of_nat k) item) = Ok l ->
                 Width l <= maxLabelWidth (Items m) + 2)) ->
  exists rows,
    List.length rows = List.length (Items m) /\
    renderSingleDropdown m
    = Ok (Render (Dropdown (ModelStyles m)) (JoinVertical rows)).
Proof.
  intros Hlow Hw Hsum Hfit. unfold renderSingleDropdown.
  rewrite measureColumns_spec. simpl.
  fold (maxLabelWidth (Items m)) (maxShortcutWidth (Items m)).
  fold (rightColumnWidth (Items m)).
  pose proof (maxLabelWidth_nonneg (Items m)) as HL.
  pose proof (rightColumnWidth_nonneg (Items m)) as HR.
  rewrite (iadd_fits (maxLabelWidth (Items m)) 2)
    by (unfold fits, min_int, max_int in *; lia).
  rewrite iadd_fits by (unfold fits, min_int, max_int in *; lia).
  unfold Repeat_space at 1.
  destruct (Z.ltb_spec (maxLabelWidth (Items m) + 2
                        + rightColumnWidth (Items m)) 0); [lia|].
  cbn [bind].
  match goal with
  | |- context [dropdownRows m _ _ ?sw _ _] =>
      destruct (dropdownRows_total m sw (Items m) Hlow Hw Hsum 0%nat)
        as (rows & Hlen & Hrows)
  end.
  - intros k item Hk. exact Hk.
  - exact Hfit.
  - simpl in Hrows. rewrite Hrows. cbn [bind]. eauto.
Qed.

End DropdownRendering.

(** * The example application *)

Section HostProperties.

Context {E : Env}.

Variable Time : Type.
Variable actionStyle : Style.

Local Notation "'model'" := (Example.model Time).
Local Notation "'hostUpdate'" := (Example.Update Time actionStyle).
Local Notation "'pressEsc'" := (Example.pressEsc Time actionStyle).

Lemma closeDeepest_fields (m : Model E) :
  Items (closeDeepest m) = Items m /\
  Selection (closeDeepest m) = Selection m /\
  isDropdown (closeDeepest m) = isDropdown m /\
  ModelStyles (closeDeepest m) = ModelStyles m.
Proof.
  rewrite closeDeepest_eq.
  destruct (SubMenuState m) as [c|]; [|auto].
  destruct (SubMenuState c); auto.
Qed.

Lemma Items_closeDeepest (m : Model E) : Items (closeDeepest m) = Items m.
Proof. apply closeDeepest_fields. Qed.

Lemma childrenLackHotkey_eq (key : string) (m : Model E) :
  childrenLackHotkey key m =
  match SubMenuState m with
  | Some c =>
      spec_hotkeyMatch key (Items c) = None /\ childrenLackHotkey key c
  | None => True
  end.
Proof. destruct m; reflexivity. Qed.

Lemma childrenLackHotkey_deepest (key : string) (m : Model E) :
  SubMenuState m <> None -> childrenLackHotkey key m ->
  spec_hotkeyMatch key (Items (deepest m)) = None.
Proof.
  induction m as [m IH] using Model_chain_ind.
  rewrite childrenLackHotkey_eq, deepest_eq.
  destruct (SubMenuState m) as [c|] eqn:Hsub; [|now intros []].
  intros _ [Hc Hrest].
  destruct (SubMenuState c) as [cc|] eqn:Hsubc.
  - apply (IH c eq_refl); [rewrite Hsubc; discriminate|exact Hrest].
  - now rewrite deepest_eq, Hsubc.
Qed.

Lemma childrenLackHotkey_closeDeepest (key : string) (m : Model E) :
  childrenLackHotkey key m -> childrenLackHotkey key (closeDeepest m).
Proof.
  induction m as [m IH] using Model_chain_ind.
  rewrite closeDeepest_eq, (childrenLackHotkey_eq key m).
  destruct (SubMenuState m) as [c|] eqn:Hsub.
  - intros [Hc Hrest].
    destruct (SubMenuState c) as [cc|] eqn:Hsubc.
    + rewrite childrenLackHotkey_eq. simpl. split.
      * rewrite Items_closeDeepest. exact Hc.
      * now apply (IH c eq_refl).
    + now rewrite childrenLackHotkey_eq.
  - intros _. now rewrite childrenLackHotkey_eq, Hsub.
Qed.

Lemma closeSubMenu_closeDeepest (m : Model E) :
  closeSubMenu (closeDeepest m) = closeSubMenu m.
Proof.
  rewrite closeDeepest_eq.
  destruct (SubMenuState m) as [c|]; [|reflexivity].
  now destruct (SubMenuState c).
Qed.

Lemma closeSubMenu_leaf (m : Model E) :
  SubMenuState m = None -> OpenSubMenu m = -1 -> closeSubMenu m = m.
Proof. destruct m; simpl. now intros -> ->. Qed.

Lemma set_menubar_same (h : model) : Example.set_menubar Time h (Example.menubar Time h) = h.
Proof. now destruct h. Qed.

(** The escape key with a chain open: the host sends it on, and the
    bar closes the deepest level. *)
Lemma host_esc_forwarded (h : model) (c : Model E) :
  wellFormed (Example.menubar Time h) ->
  Active (Example.menubar Time h) = true ->
  SubMenuState (Example.menubar Time h) = Some c ->
  childrenLackHotkey "esc" (Example.menubar Time h) ->
  hostUpdate h (Example.HostKeyMsg Time "esc") =
  Ok (Example.set_menubar Time h (closeDeepest (Example.menubar Time h)),
      Example.menubarCmd None).
Proof.
  intros Hw Ha Hsub Hlack.
  destruct (wellFormed_child _ c Hw Hsub) as (Hopen & _).
  unfold Example.Update. simpl. rewrite Ha, Hopen. simpl.
  unfold Example.forward. simpl.
  rewrite (closing_key_delegated "esc" _ c); auto.
  - unfold intercept. now destruct (isDropdown _).
  - apply childrenLackHotkey_deepest; [now rewrite Hsub|exact Hlack].
Qed.

Lemma wellFormed_closeDeepest (m : Model E) :
  wellFormed m -> wellFormed (closeDeepest m).
Proof.
  induction m as [m IH] using Model_chain_ind.
  intros Hw. rewrite closeDeepest_eq.
  destruct (SubMenuState m) as [c|] eqn:Hsub; [|exact Hw].
  destruct (wellFormed_child m c Hw Hsub) as (_ & Hl & Hc).
  destruct (SubMenuState c) as [cc|] eqn:Hsubc;
    [|apply wellFormed_closeSubMenu].
  apply (wellFormed_set_child m c _ Hsub Hw).
  - apply Items_closeDeepest.
  - destruct Hl as (H1 & H2 & H3 & H4).
    destruct (closeDeepest_fields c) as (Ei & Es & Ed & _).
    unfold levelOK. rewrite Ei, Es, Ed, Active_closeDeepest.
    repeat split; assumption || apply H4.
  - now apply (IH c eq_refl).
Qed.

Lemma pressEsc_unwinds (n : nat) :
  forall h : model,
    openLevels (Example.menubar Time h) = n ->
    wellFormed (Example.menubar Time h) ->
    Active (Example.menubar Time h) = true ->
    childrenLackHotkey "esc" (Example.menubar Time h) ->
    pressEsc n h
    = Ok (Example.set_menubar Time h
            (closeSubMenu (Example.menubar Time h))) /\
    pressEsc (S n) h
    = Ok (Example.set_menubar Time h
            (set_Active (closeSubMenu (Example.menubar Time h)) false)).
Proof.
  induction n as [|n IH]; intros h Hn Hw Ha Hlack;
    rewrite openLevels_eq in Hn;
    destruct (SubMenuState (Example.menubar Time h)) as [c|] eqn:Hsub;
    try discriminate.
  - pose proof (wellFormed_leaf _ Hw Hsub) as Hopen.
    rewrite (closeSubMenu_leaf _ Hsub Hopen).
    split; [simpl; now rewrite set_menubar_same|].
    cbn [Example.pressEsc]. unfold Example.Update. simpl.
    rewrite Ha, Hopen. reflexivity.
  - injection Hn as Hn.
    assert (Hstep : forall k,
               pressEsc (S k) h
               = pressEsc k (Example.set_menubar Time h
                               (closeDeepest (Example.menubar Time h)))).
    { intros k. cbn [Example.pressEsc].
      now rewrite (host_esc_forwarded h c Hw Ha Hsub Hlack). }
    rewrite !Hstep.
    destruct (IH (Example.set_menubar Time h
                    (closeDeepest (Example.menubar Time h))))
      as [H1 H2]; simpl.
    + rewrite openLevels_closeDeepest, (openLevels_eq (Example.menubar Time h)),
        Hsub, Hn. reflexivity.
    + now apply wellFormed_closeDeepest.
    + now rewrite Active_closeDeepest.
    + now apply childrenLackHotkey_closeDeepest.
    + simpl in H1, H2. rewrite closeSubMenu_closeDeepest in H1, H2.
      split; assumption.
Qed.

(** X26.  In the example application, pressing the escape key
    repeatedly unwinds a focused bar: one press for each open level
    closes the chain level by level, leaving the bar focused with its
    selection; one more press takes the focus from the bar.  (No
    entry of an open dropdown has the escape key as its hotkey.) *)
Theorem host_esc_unwinds_chain (h : model) :
  wellFormed (Example.menubar Time h) ->
  Active (Example.menubar Time h) = true ->
  childrenLackHotkey "esc" (Example.menubar Time h) ->
  pressEsc (openLevels (Example.menubar Time h)) h
  = Ok (Example.set_menubar Time h
          (closeSubMenu (Example.menubar Time h))) /\
  pressEsc (S (openLevels (Example.menubar Time h))) h
  = Ok (Example.set_menubar Time h
          (set_Active (closeSubMenu (Example.menubar Time h)) false)).
Proof. intros Hw Ha Hlack. now apply pressEsc_unwinds. Qed.

(** X27.  In the example application, with no dropdown open the
    escape key toggles the focus of the bar and is not passed on to
    it: a second press restores the state. *)
Theorem host_esc_toggles_focus (h : model) :
  OpenSubMenu (Example.menubar Time h) = -1 ->
  exists h1,
    hostUpdate h (Example.HostKeyMsg Time "esc")
    = Ok (h1, Example.menubarCmd None) /\
    Example.menubar Time h1
    = set_Active (Example.menubar Time h)
                 (negb (Active (Example.menubar Time h))) /\
    hostUpdate h1 (Example.HostKeyMsg Time "esc")
    = Ok (h, Example.menubarCmd None).
Proof.
  intros Hopen. destruct h as [mb q w hh ct nw]. simpl in Hopen.
  unfold Example.Update. simpl.
  destruct mb as [items act sel open sub st dd]. simpl in *. subst open.
  destruct act; simpl; eexists; (split; [reflexivity|]);
    (split; [reflexivity|]); reflexivity.
Qed.

End HostProperties.


(** * Instances on the reference environment *)

Import Reference.

#[local] Existing Instance Reference.env.

(** ** Opening a submenu *)

Lemma open_submenu_creates_child_witness :
  index (Items demoBar) (Selection demoBar)
  = Ok (submenu "File" "F" fileMenu) /\
  SubMenu (submenu "File" "F" fileMenu) <> [] /\
  exists m' child,
    openCurrentSelection demoBar = Ok m' /\
    SubMenuState m' = Some child /\
    OpenSubMenu m' = Selection demoBar /\
    Items m' = Items demoBar /\ Selection m' = Selection demoBar /\
    Active m' = Active demoBar /\ isDropdown m' = isDropdown demoBar /\
    ModelStyles m' = ModelStyles demoBar /\
    Items child = SubMenu (submenu "File" "F" fileMenu) /\
    isDropdown child = true /\
    Active child = true /\
    ModelStyles child = ModelStyles demoBar /\
    Selection child = 0 /\
    OpenSubMenu child = -1 /\
    SubMenuState child = None.
Proof.
  split; [reflexivity|]. split; [discriminate|].
  apply (open_submenu_creates_child demoBar (submenu "File" "F" fileMenu));
    [reflexivity|discriminate].
Defined.

(** The submenu of [sepFirstBar] starts with a separator; its first
    selectable entry is entry 1, yet the opened child selects entry
    0. *)
Lemma open_submenu_selection_not_adjusted :
  let child := freshChild (E := env) defaultStyles
                          [Separator; entry "Exit" "x"] in
  openCurrentSelection sepFirstBar
  = Ok (set_SubMenuState (set_OpenSubMenu sepFirstBar 0) (Some child)) /\
  spec_initialSelection (Items child) = 1 /\
  Selection child = 0 /\
  Selection child <> spec_initialSelection (Items child).
Proof.
  split; [reflexivity|].
  split; [reflexivity|]. split; [reflexivity|]. discriminate.
Qed.

(** ** The selection invariant *)

Lemma selection_invariant_preserved_witness :
  chainValid demoDropdown = true /\
  selectionInvariant demoDropdown = true /\
  (forall key, exists m' cmd,
      Update demoDropdown (KeyMsg key) = Ok (m', cmd) /\
      chainValid m' = true /\ selectionInvariant m' = true) /\
  (isDropdown demoDropdown = true ->
   forall msg baseX baseY handled cmd m',
     checkMouse demoDropdown msg baseX baseY = Ok (handled, cmd, m') ->
     selectionInvariant m' = true) /\
  (dropdownChain demoDropdown = true ->
   forall msg baseX baseY, exists handled cmd m',
     checkMouse demoDropdown msg baseX baseY = Ok (handled, cmd, m') /\
     selectionInvariant m' = true) /\
  (forall items, Selection (New (E := env) items) = 0).
Proof.
  split; [vm_compute; reflexivity|].
  split; [vm_compute; reflexivity|].
  apply (selection_invariant_preserved demoDropdown); vm_compute; reflexivity.
Defined.

(** [demoDropdown] is a chain of two dropdown levels; a release on
    its second row (Recent, already open) is handled and keeps the
    selection. *)
Example dropdown_release_handled :
  dropdownChain demoDropdown = true /\
  openLevels demoDropdown = 1%nat /\
  Selection demoDropdown = 1 /\
  checkMouse demoDropdown (mkMouse 2 2 MouseRelease) 0 0
  = Ok (true, None, demoDropdown).
Proof.
  split; [vm_compute; reflexivity|]. repeat split; reflexivity.
Qed.

(** A node constructed over entries that start with a separator
    selects the separator although a selectable entry exists. *)
Lemma new_selects_leading_separator :
  hasSelectable sepFirstItems = true /\
  selectable_at sepFirstItems (Selection (New sepFirstItems)) = false /\
  selectionInvariant (New sepFirstItems) = false.
Proof. repeat split; reflexivity. Qed.

(** Moving the pointer over the separator of the bar selects it. *)
Example bar_motion_selects_separator :
  let m' := run demoOpen [Mouse (mkMouse 7 0 MouseMotion)] in
  Update demoOpen (Mouse (mkMouse 7 0 MouseMotion)) = Ok (m', None) /\
  selectionInvariant demoOpen = true /\
  Selection m' = 1 /\
  selectionInvariant m' = false.
Proof. repeat split; reflexivity. Qed.

(** ** Move-next *)

Lemma move_next_cycles_witness :
  len fileMenu <= max_int /\
  0 <= 0 < len fileMenu /\
  hasSelectable fileMenu = true /\
  (forall k, (0 < k)%nat ->
     exists r, iterNext k fileMenu 0 = Ok r /\
               selectable_at fileMenu r = true) /\
  (selectable_at fileMenu 0 = true ->
   exists k, (0 < k <= List.length fileMenu)%nat /\
             iterNext k fileMenu 0 = Ok 0).
Proof.
  assert (H1 : len fileMenu <= max_int)
    by (apply Z.leb_le; vm_compute; reflexivity).
  assert (H2 : 0 <= 0 < len fileMenu)
    by (split; [apply Z.leb_le|apply Z.ltb_lt]; vm_compute; reflexivity).
  split; [exact H1|]. split; [exact H2|]. split; [reflexivity|].
  apply (move_next_cycles fileMenu 0 H1 H2). reflexivity.
Defined.

Lemma iterNext_sepFirst_stuck (k : nat) :
  iterNext k sepFirstItems 1 = Ok 1.
Proof. induction k as [|k IH]; [reflexivity|exact IH]. Qed.

(** From a selection on the leading separator, move-next reaches entry
    1 and stays there: it never comes back to the start. *)
Lemma move_next_never_returns_to_separator :
  len sepFirstItems <> 0 /\
  hasSelectable sepFirstItems = true /\
  Selection (New sepFirstItems) = 0 /\
  ~ exists k, (0 < k)%nat /\ iterNext k sepFirstItems 0 = Ok 0.
Proof.
  split; [discriminate|]. split; [reflexivity|]. split; [reflexivity|].
  intros (k & Hk & Hiter).
  destruct k as [|k]; [lia|].
  change (iterNext (S k) sepFirstItems 0)
    with (iterNext k sepFirstItems 1) in Hiter.
  rewrite iterNext_sepFirst_stuck in Hiter. discriminate.
Qed.

(** ** Hotkeys *)

Lemma hotkey_matching_witness :
  Active demoBar = true /\
  (OpenSubMenu demoBar = -1 \/ SubMenuState demoBar = None) /\
  (match spec_hotkeyMatch "h" (Items demoBar) with
   | Some i =>
       exists item,
         nth_error (Items demoBar) i = Some item /\
         selectable item = true /\
         Update demoBar (KeyMsg "h") = Ok (spec_hotkeyOutcome demoBar i item)
   | None =>
       isNavKey "h" = false -> Update demoBar (KeyMsg "h") = Ok (demoBar, None)
   end /\
   ((forall it, In it (Items demoBar) -> selectable it = true ->
                Hotkey it <> "" ->
                ("h" =? Hotkey it)%string = false /\
                EqualFold (Env := env) "h" (Hotkey it) = false) ->
    isNavKey "h" = false ->
    Update demoBar (KeyMsg "h") = Ok (demoBar, None))).
Proof.
  split; [reflexivity|]. split; [left; reflexivity|].
  apply (hotkey_matching demoBar "h"); [reflexivity|left; reflexivity].
Defined.

(** The key ["s"] is the hotkey of the disabled entry 0 of
    [sharedHotkeyBar]; pressing it selects entry 1 and emits its
    action. *)
Lemma shared_hotkey_of_disabled_entry_matches :
  let m' := run sharedHotkeyBar [KeyMsg "s"] in
  nth_error (Items sharedHotkeyBar) 0
  = Some (disabled (action "Save" "s" "save file")) /\
  Disabled (disabled (action "Save" "s" "save file")) = true /\
  Hotkey (disabled (action "Save" "s" "save file")) = "s" /\
  Update sharedHotkeyBar (KeyMsg "s") = Ok (m', Some (fun _ => "search")) /\
  Selection sharedHotkeyBar = 0 /\
  Selection m' = 1.
Proof. repeat split; reflexivity. Qed.

(** ** One open chain *)

Lemma demoDeep_reachable : reachable demoDeep.
Proof.
  assert (H1 : Update demoBar (KeyMsg "enter") = Ok (demoOpen, None))
    by reflexivity.
  assert (H2 : Update demoOpen (KeyMsg "down") = Ok (demoDown, None))
    by reflexivity.
  assert (H3 : Update demoDown (KeyMsg "right") = Ok (demoDeep, None))
    by reflexivity.
  eapply reach_Update; [|exact H3].
  eapply reach_Update; [|exact H2].
  eapply reach_Update; [|exact H1].
  apply reach_New.
Defined.

Lemma single_open_chain_witness :
  reachable demoDeep /\
  linked demoDeep = true /\
  forall (b : Z) (item : MenuItem env),
    index (Items demoDeep) b = Ok item ->
    SubMenu item <> [] ->
    exists m',
      openCurrentSelection (set_Selection demoDeep b) = Ok m' /\
      OpenSubMenu m' = b /\
      SubMenuState m'
      = Some (freshChild (ModelStyles demoDeep) (SubMenu item)) /\
      openLevels m' = 1%nat /\
      linked m' = true.
Proof.
  split; [exact demoDeep_reachable|].
  apply (single_open_chain demoDeep). exact demoDeep_reachable.
Defined.

(** With File and Recent open, opening Help on the bar leaves Help
    alone open. *)
Example open_sibling_replaces_chain :
  let m' := mkModel (E := env) demoItems true 2 2
                    (Some (freshChild (E := env) defaultStyles helpMenu))
                    defaultStyles false in
  openLevels demoDeep = 2%nat /\
  openCurrentSelection (set_Selection demoDeep 2) = Ok m' /\
  openLevels m' = 1%nat.
Proof. repeat split; reflexivity. Qed.

(** ** Click outside *)

Lemma release_outside_closes_witness :
  Type_ (mkMouse 100 100 MouseRelease) = MouseRelease /\
  checkMouse demoDeep (mkMouse 100 100 MouseRelease) 0 0
  = Ok (false, None, demoDeep) /\
  Update demoDeep (Mouse (mkMouse 100 100 MouseRelease)) =
  Ok (mkModel (Items demoDeep) false (Selection demoDeep) (-1) None
              (ModelStyles demoDeep) (isDropdown demoDeep), None).
Proof.
  assert (H : checkMouse demoDeep (mkMouse 100 100 MouseRelease) 0 0
              = Ok (false, None, demoDeep))
    by reflexivity.
  split; [reflexivity|]. split; [exact H|].
  apply (release_outside_closes demoDeep (mkMouse 100 100 MouseRelease)
                                None demoDeep); [reflexivity|exact H].
Defined.

(** ** Dropdown dimensions *)

Lemma dropdown_dimensions_witness :
  let m := shortHintDropdown in
  let st := ModelStyles m in
  let inner := maxLabelWidth (Items m) + 2 + rightColumnWidth (Items m) in
  let row := Width (Render (DropdownItem st) (spaces (Z.to_nat inner))) in
  inner <= max_int /\
  fits (row + fst (GetFrameSize (Dropdown st))) /\
  fits (len (Items m) + snd (GetFrameSize (Dropdown st))) /\
  getDropdownDimensions m =
  Ok (row + fst (GetFrameSize (Dropdown st)),
      len (Items m) + snd (GetFrameSize (Dropdown st))) /\
  (row = inner + GetHorizontalFrameSize (DropdownItem st) ->
   getDropdownDimensions m =
   Ok (inner + GetHorizontalFrameSize (DropdownItem st)
       + fst (GetFrameSize (Dropdown st)),
       len (Items m) + snd (GetFrameSize (Dropdown st)))).
Proof.
  intros m st inner row.
  assert (H1 : inner <= max_int)
    by (apply Z.leb_le; vm_compute; reflexivity).
  assert (H2 : fits (row + fst (GetFrameSize (Dropdown st))))
    by (split; apply Z.leb_le; vm_compute; reflexivity).
  assert (H3 : fits (len (Items m) + snd (GetFrameSize (Dropdown st))))
    by (split; apply Z.leb_le; vm_compute; reflexivity).
  split; [exact H1|]. split; [exact H2|]. split; [exact H3|].
  exact (dropdown_dimensions m H1 H2 H3).
Defined.

(** One entry has a one-cell shortcut hint and another has a submenu:
    the right column is 2 cells wide, not the 1 cell of the widest
    hint. *)
Lemma dropdown_width_short_shortcut :
  getDropdownDimensions shortHintDropdown = Ok (9, 4) /\
  spec_rightColumnWidth (Items shortHintDropdown) = 1 /\
  rightColumnWidth (Items shortHintDropdown) = 2 /\
  spec_dropdownWidth shortHintDropdown = 8 /\
  (forall w h, getDropdownDimensions shortHintDropdown = Ok (w, h) ->
               w <> spec_dropdownWidth shortHintDropdown).
Proof.
  repeat split; try reflexivity.
  intros w h H. vm_compute in H. injection H as <- <-. discriminate.
Qed.

(** ** Splitting and compositing *)

(** C10, at the input [s = wide], [width = 1]: the only rune start of
    [s] is offset 0, where the scanned width is 0, so the loop ends
    without a cut and the whole string is returned: the first part is
    2 cells wide, more than the target 1. *)
Theorem split_wide_tail_overshoots :
  splitWithANSI (E := env) wide 1 = (wide, "") /\
  Width (Env := env) (fst (splitWithANSI (E := env) wide 1)) = 2 /\
  ~ Width (Env := env) (fst (splitWithANSI (E := env) wide 1)) <= 1.
Proof.
  split; [reflexivity|]. split; [reflexivity|].
  vm_compute. intros H. apply H. reflexivity.
Qed.

Lemma overlay_row_replays_styles_witness :
  let bgLine := (red ++ "abcd" ++ reset)%string in
  let fgLine := "X" in
  let x := 1 in
  let prefix := fst (splitWithANSI bgLine x) in
  let preSuffix := fst (splitWithANSI bgLine (iadd x (Width fgLine))) in
  let suffix := snd (splitWithANSI bgLine (iadd x (Width fgLine))) in
  let replay := joinEmpty (FindAllString preSuffix) in
  let row := (prefix ++ spaces (Z.to_nat (x - Width prefix))
              ++ fgLine ++ replay ++ suffix)%string in
  x <= Width bgLine /\
  fits (x - Width prefix) /\
  overlayRow bgLine fgLine x = Ok row /\
  (preSuffix ++ suffix)%string = bgLine /\
  (exists rest, (prefix ++ rest)%string = bgLine) /\
  FindAllString replay = FindAllString preSuffix /\
  (wellFormedUTF8 prefix = true -> Width prefix = x ->
   fst (splitWithANSI row x) = prefix).
Proof.
  intros bgLine fgLine x prefix preSuffix suffix replay row.
  assert (H1 : x <= Width bgLine)
    by (apply Z.leb_le; vm_compute; reflexivity).
  assert (H2 : fits (x - Width prefix))
    by (split; apply Z.leb_le; vm_compute; reflexivity).
  split; [exact H1|]. split; [exact H2|].
  exact (overlay_row_replays_styles bgLine fgLine x H1 H2).
Defined.

(** In that example the background prefix is well formed and ends at
    column 1, and the suffix is preceded by the replayed red. *)
Example overlay_row_example :
  let bgLine := (red ++ "abcd" ++ reset)%string in
  let prefix := fst (splitWithANSI bgLine 1) in
  prefix = (red ++ "a")%string /\
  wellFormedUTF8 prefix = true /\
  Width prefix = 1 /\
  overlayRow bgLine "X" 1 = Ok (red ++ "a" ++ "X" ++ red ++ "cd" ++ reset)%string.
Proof. repeat split; vm_compute; reflexivity. Qed.

(** A plain foreground row placed on a red background row: where the
    foreground row begins, the red of the background is still in
    effect. *)
Lemma overlay_background_style_reaches_foreground :
  let r := (red ++ "aX" ++ red ++ "cd" ++ reset)%string in
  Overlay (E := env) (red ++ "abcd" ++ reset)%string "X" 1 0 = Ok r /\
  activeStyle "X" = [] /\
  activeStyle (fst (splitWithANSI (E := env) r 1)) = [red] /\
  ~ spec_foregroundIsolated (E := env) r 1.
Proof.
  split; [vm_compute; reflexivity|].
  split; [reflexivity|]. split; [vm_compute; reflexivity|].
  unfold spec_foregroundIsolated. vm_compute. discriminate.
Qed.

(** The row of [Overlay wide "X" 1 0]: the background cut meant for
    column 1 keeps the whole two-cell rune, so the foreground row
    lands on column 2. *)
Example overlay_wide_background :
  Overlay (E := env) wide "X" 1 0 = Ok (wide ++ "X")%string /\
  fst (splitWithANSI (E := env) (wide ++ "X")%string 1) = "".
Proof. split; reflexivity. Qed.


(** * More instances on the reference environment *)

Import ReferenceViews.

#[local] Existing Instance ReferenceViews.views.

Lemma toLower_length (s : string) :
  String.length (toLower s) = String.length s.
Proof. induction s as [|c s IH]; simpl; [reflexivity|now rewrite IH]. Defined.

Lemma width_nonneg (s : string) : 0 <= width s.
Proof.
  unfold width. generalize (splitLines s). intros rows.
  assert (H : forall a, a <= fold_left
                               (fun w l => Z.max w (lineWidth l 0 false 0))
                               rows a).
  { induction rows as [|l rows IH]; intros a; simpl; [lia|].
    specialize (IH (Z.max a (lineWidth l 0 false 0))). lia. }
  apply H.
Defined.

Lemma demoDeep_wellFormed : wellFormed demoDeep.
Proof. apply reachable_invariant. exact demoDeep_reachable. Defined.

Lemma demoDown_wellFormed : wellFormed demoDown.
Proof.
  assert (H1 : Update demoBar (KeyMsg "enter") = Ok (demoOpen, None))
    by reflexivity.
  assert (H2 : Update demoOpen (KeyMsg "down") = Ok (demoDown, None))
    by reflexivity.
  apply reachable_invariant.
  eapply reach_Update; [|exact H2].
  eapply reach_Update; [|exact H1].
  apply reach_New.
Defined.

Lemma demoOpen_wellFormed : wellFormed demoOpen.
Proof.
  assert (H1 : Update demoBar (KeyMsg "enter") = Ok (demoOpen, None))
    by reflexivity.
  apply reachable_invariant.
  eapply reach_Update; [|exact H1].
  apply reach_New.
Defined.

(** ** Configuration and reachable states *)

Lemma update_keeps_configuration_witness :
  Update demoBar (KeyMsg "enter") = Ok (demoOpen, None) /\
  Items demoOpen = Items demoBar /\
  ModelStyles demoOpen = ModelStyles demoBar /\
  isDropdown demoOpen = isDropdown demoBar /\
  (Selection demoOpen = Selection demoBar \/
   0 <= Selection demoOpen < len (Items demoOpen)).
Proof.
  split; [reflexivity|].
  apply (update_keeps_configuration demoBar (KeyMsg "enter") demoOpen None).
  reflexivity.
Defined.

Lemma reachable_chain_wellformed_witness :
  reachable demoDeep /\
  wellFormed demoDeep /\
  (Items demoDeep <> [] ->
   0 <= Selection demoDeep < len (Items demoDeep)).
Proof.
  split; [exact demoDeep_reachable|].
  apply (reachable_chain_wellformed demoDeep). exact demoDeep_reachable.
Defined.

Lemma keys_never_panic_witness :
  reachable demoDeep /\
  Items demoDeep <> [] /\
  itemsBounded (Items demoDeep) = true /\
  exists m' cmd, Update demoDeep (KeyMsg "x") = Ok (m', cmd).
Proof.
  split; [exact demoDeep_reachable|].
  split; [discriminate|]. split; [reflexivity|].
  apply (keys_never_panic demoDeep "x");
    [exact demoDeep_reachable|discriminate|reflexivity].
Defined.

Lemma other_messages_ignored_witness :
  reachable demoDeep /\ Update demoDeep OtherMsg = Ok (demoDeep, None).
Proof.
  split; [exact demoDeep_reachable|].
  apply (other_messages_ignored demoDeep). exact demoDeep_reachable.
Defined.

(** ** Keys with an open chain *)

Lemma esc_closes_deepest_level_witness :
  wellFormed demoDeep /\
  Active demoDeep = true /\
  SubMenuState demoDeep <> None /\
  spec_hotkeyMatch "esc" (Items (deepest demoDeep)) = None /\
  Update demoDeep (KeyMsg "esc") = Ok (closeDeepest demoDeep, None) /\
  openLevels (closeDeepest demoDeep) = Nat.pred (openLevels demoDeep) /\
  Active (closeDeepest demoDeep) = true.
Proof.
  split; [exact demoDeep_wellFormed|]. split; [reflexivity|].
  split; [discriminate|]. split; [reflexivity|].
  apply (esc_closes_deepest_level demoDeep);
    [exact demoDeep_wellFormed|reflexivity|discriminate|reflexivity].
Defined.

Lemma left_closes_deepest_level_witness :
  wellFormed demoDeep /\
  Active demoDeep = true /\
  (2 <= openLevels demoDeep)%nat /\
  spec_hotkeyMatch "left" (Items (deepest demoDeep)) = None /\
  Update demoDeep (KeyMsg "left") = Ok (closeDeepest demoDeep, None) /\
  openLevels (closeDeepest demoDeep) = Nat.pred (openLevels demoDeep) /\
  Active (closeDeepest demoDeep) = true.
Proof.
  split; [exact demoDeep_wellFormed|]. split; [reflexivity|].
  split; [simpl; lia|]. split; [reflexivity|].
  apply (left_closes_deepest_level demoDeep);
    [exact demoDeep_wellFormed|reflexivity|right; simpl; lia|reflexivity].
Defined.

Lemma right_opens_deepest_submenu_witness :
  let item := submenu "Recent" "R" recentMenu in
  wellFormed demoDown /\
  Active demoDown = true /\
  SubMenuState demoDown <> None /\
  index (Items (deepest demoDown)) (Selection (deepest demoDown)) = Ok item /\
  SubMenu item <> [] /\
  spec_hotkeyMatch "right" (Items (deepest demoDown)) = None /\
  Update demoDown (KeyMsg "right")
  = Ok (onDeepest (opened item) demoDown, None) /\
  openLevels (onDeepest (opened item) demoDown) = S (openLevels demoDown).
Proof.
  intros item.
  split; [exact demoDown_wellFormed|]. split; [reflexivity|].
  split; [discriminate|]. split; [reflexivity|].
  split; [discriminate|]. split; [reflexivity|].
  apply (right_opens_deepest_submenu demoDown item);
    [exact demoDown_wellFormed|reflexivity|discriminate|reflexivity
    |discriminate|reflexivity].
Defined.

Lemma hotkey_reaches_deepest_level_witness :
  wellFormed demoOpen /\
  Active demoOpen = true /\
  spec_hotkeyMatch "x" (Items (deepest demoOpen)) = Some 4%nat /\
  exists item,
    nth_error (Items (deepest demoOpen)) 4 = Some item /\
    selectable item = true /\
    Update demoOpen (KeyMsg "x")
    = Ok (onDeepest (fun d => fst (spec_hotkeyOutcome d 4 item)) demoOpen,
          snd (spec_hotkeyOutcome (deepest demoOpen) 4 item)).
Proof.
  split; [exact demoOpen_wellFormed|]. split; [reflexivity|].
  split; [reflexivity|].
  apply (hotkey_reaches_deepest_level demoOpen "x" 4);
    [exact demoOpen_wellFormed|reflexivity|reflexivity|reflexivity
    |reflexivity].
Defined.

Lemma bar_switches_menu_witness :
  let c := freshChild (E := env) defaultStyles fileMenu in
  wellFormed demoOpen /\
  Active demoOpen = true /\
  isDropdown demoOpen = false /\
  SubMenuState demoOpen = Some c /\
  (SubMenuState c = None ->
   Update demoOpen (KeyMsg "left") =
   sel <- movePrev (Items demoOpen) (Selection demoOpen) ;;
   m' <- openCurrentSelection (set_Selection demoOpen sel) ;;
   Ok (m', None)) /\
  (forall item,
      index (Items (deepest demoOpen)) (Selection (deepest demoOpen))
      = Ok item ->
      SubMenu item = [] ->
      Update demoOpen (KeyMsg "right") =
      sel <- moveNext (Items demoOpen) (Selection demoOpen) ;;
      m' <- openCurrentSelection (set_Selection demoOpen sel) ;;
      Ok (m', None)).
Proof.
  intros c.
  split; [exact demoOpen_wellFormed|]. split; [reflexivity|].
  split; [reflexivity|]. split; [reflexivity|].
  apply (bar_switches_menu demoOpen c);
    [exact demoOpen_wellFormed|reflexivity|reflexivity|reflexivity].
Defined.

(** ** Pointer events and focus *)


Lemma pointer_outside_bar_row_witness :
  let msg := mkMouse 3 5 MouseMotion in
  isDropdown demoBar = false /\
  SubMenuState demoBar = None /\
  fits (Height (Render (Bar (ModelStyles demoBar)) "A")) /\
  (Y msg < 0 \/ Height (Render (Bar (ModelStyles demoBar)) "A") <= Y msg) /\
  Update demoBar (Mouse msg) =
  Ok (if isRelease (Type_ msg)
      then closeSubMenu (set_Active demoBar false)
      else demoBar, None).
Proof.
  intros msg.
  assert (Hfit : fits (Height (Render (Bar (ModelStyles demoBar)) "A"))).
  { change (fits 1). unfold fits, min_int, max_int. lia. }
  assert (HY : Y msg < 0
               \/ Height (Render (Bar (ModelStyles demoBar)) "A") <= Y msg).
  { right. change (1 <= 5). lia. }
  split; [reflexivity|]. split; [reflexivity|].
  split; [exact Hfit|]. split; [exact HY|].
  apply (pointer_outside_bar_row demoBar msg);
    [reflexivity|reflexivity|exact Hfit|exact HY].
Defined.

Lemma dropdown_pointer_on_row_witness :
  let m := freshChild (E := env) defaultStyles fileMenu in
  let msg := mkMouse 3 2 MouseMotion in
  let it := submenu "Recent" "R" recentMenu in
  isDropdown m = true /\
  SubMenuState m = None /\
  OpenSubMenu m = -1 /\
  getDropdownDimensions m = Ok (14, 7) /\
  0 <= X msg < iadd 0 14 /\
  0 <= Y msg < iadd 0 7 /\
  index (Items m) 1 = Ok it /\
  checkMouse m msg 0 0 = Ok (true, None, set_Selection m 1).
Proof.
  intros m msg it.
  assert (HX : 0 <= X msg < iadd 0 14) by (change (0 <= 3 < 14); lia).
  assert (HY : 0 <= Y msg < iadd 0 7) by (change (0 <= 2 < 7); lia).
  assert (Hr : 0 <= isub (isub (Y msg) 0)
                     (Height (Env := env)
                        (BorderTop (Env := env) (Dropdown (ModelStyles m))))
               < max_int).
  { change (0 <= 1 < max_int). unfold max_int. lia. }
  split; [reflexivity|]. split; [reflexivity|]. split; [reflexivity|].
  split; [reflexivity|]. split; [exact HX|]. split; [exact HY|].
  split; [reflexivity|].
  apply (dropdown_pointer_on_row m msg 0 0 14 7 it);
    [reflexivity|reflexivity|reflexivity|reflexivity|reflexivity
    |reflexivity|exact HX|exact HY|exact Hr|reflexivity].
Defined.

Lemma bar_pointer_on_entry_witness :
  let msg := mkMouse 10 0 MouseRelease in
  let wd := fun j : nat => match j with 1%nat => 3 | _ => 6 end in
  let it := submenu "Help" "H" helpMenu in
  isDropdown demoBar = false /\
  SubMenuState demoBar = None /\
  OpenSubMenu demoBar = -1 /\
  nth_error (Items demoBar) 2 = Some it /\
  (forall j, (j <= 2)%nat ->
             measureItem demoBar (Z.of_nat j) = Ok (wd j) /\ 0 <= wd j) /\
  0 + sumTo wd 2 <= X msg < 0 + sumTo wd 3 /\
  checkMouse demoBar msg 0 0 =
  Ok (true, None,
      opened it (set_Active (set_Selection demoBar (Z.of_nat 2)) true)).
Proof.
  intros msg wd it.
  assert (Hw : forall j, (j <= 2)%nat ->
                         measureItem demoBar (Z.of_nat j) = Ok (wd j)
                         /\ 0 <= wd j).
  { intros [|[|[|j]]] Hj; try lia; (split; [reflexivity|simpl; lia]). }
  assert (HX : 0 + sumTo wd 2 <= X msg < 0 + sumTo wd 3)
    by (change (9 <= 10 < 15); lia).
  assert (HY : 0 <= Y msg
               < iadd 0 (Height (Env := env)
                           (Render (Env := env)
                                   (Bar (ModelStyles demoBar)) "A")))
    by (change (0 <= 0 < 1); lia).
  split; [reflexivity|]. split; [reflexivity|]. split; [reflexivity|].
  split; [reflexivity|]. split; [exact Hw|]. split; [exact HX|].
  apply (bar_pointer_on_entry demoBar msg 0 0 wd 2 it);
    [reflexivity|reflexivity|reflexivity|reflexivity|exact Hw
    |unfold min_int; lia|change (15 <= max_int); unfold max_int; lia
    |exact HX|exact HY].
Defined.

(** ** Moves *)

Lemma move_next_prev_inverse_witness :
  len fileMenu <= max_int /\
  0 <= 1 < len fileMenu /\
  selectable_at fileMenu 1 = true /\
  (exists r, moveNext fileMenu 1 = Ok r /\ movePrev fileMenu r = Ok 1) /\
  (exists r, movePrev fileMenu 1 = Ok r /\ moveNext fileMenu r = Ok 1).
Proof.
  assert (Hmax : len fileMenu <= max_int)
    by (unfold len, max_int; simpl; lia).
  assert (Hx : 0 <= 1 < len fileMenu) by (unfold len; simpl; lia).
  split; [exact Hmax|]. split; [exact Hx|]. split; [reflexivity|].
  apply (move_next_prev_inverse fileMenu 1);
    [exact Hmax|exact Hx|reflexivity].
Defined.

Lemma moves_without_selectable_entry_witness :
  len inertItems <= max_int /\
  0 <= 2 < len inertItems /\
  hasSelectable inertItems = false /\
  moveNext inertItems 2 = Ok (nextIndex (len inertItems) 2) /\
  movePrev inertItems 2 = Ok (prevIndex (len inertItems) 2).
Proof.
  assert (Hmax : len inertItems <= max_int)
    by (unfold len, max_int; simpl; lia).
  assert (Hx : 0 <= 2 < len inertItems) by (unfold len; simpl; lia).
  split; [exact Hmax|]. split; [exact Hx|]. split; [reflexivity|].
  apply (moves_without_selectable_entry inertItems 2);
    [exact Hmax|exact Hx|reflexivity].
Defined.

(** ** Labels and the bar *)

Lemma render_label_spans_witness :
  let item := entry "File" "F" in
  let base := mkRStyle 0 false in
  (forall s, String.length (ToLower (Env := env) s) = String.length s) /\
  slen (Label item) <= max_int /\
  (renderLabel demoBar item base = Ok (Render (Env := env) base (Label item))
   \/
   exists pre hot post,
     Label item = (pre ++ hot ++ post)%string /\
     String.length hot = String.length (Hotkey item) /\
     (strings_Index (Label item) (Hotkey item) <> -1 ->
      hot = Hotkey item /\
      Z.of_nat (String.length pre)
      = strings_Index (Label item) (Hotkey item)) /\
     renderLabel demoBar item base
     = Ok (Render (Env := env) base pre
           ++ Render (Env := env)
                (Inherit (Env := env) (HotkeyStyle (ModelStyles demoBar)) base)
                hot
           ++ (if (post =? "")%string then ""
               else Render (Env := env) (Inline (Env := env) base) post))%string).
Proof.
  intros item base.
  assert (Hmax : slen (Label item) <= max_int)
    by (unfold slen, max_int; simpl; lia).
  split; [exact toLower_length|]. split; [exact Hmax|].
  apply (render_label_spans demoBar item base);
    [exact toLower_length|exact Hmax].
Defined.

Lemma bar_measured_as_rendered_witness :
  let views := [" File "; " | "; " Help "] in
  barViews demoBar (Items demoBar) 0 = Ok views /\
  List.length views = List.length (Items demoBar) /\
  forall (k : nat) (item : MenuItem env),
    nth_error (Items demoBar) k = Some item ->
    Disabled item = false \/ IsSeparator item = true ->
    exists v, nth_error views k = Some v /\
              measureItem demoBar (Z.of_nat k) = Ok (Width (Env := env) v).
Proof.
  intros views. split; [reflexivity|].
  apply (bar_measured_as_rendered demoBar views). reflexivity.
Defined.

Lemma bar_offset_is_hit_origin_witness :
  isDropdown plainHelpOpen = false /\
  (Active plainHelpOpen = false
   \/ OpenSubMenu plainHelpOpen <= Selection plainHelpOpen) /\
  (forall j it, 0 <= j < OpenSubMenu plainHelpOpen ->
                index (Items plainHelpOpen) j = Ok it ->
                IsSeparator it = false) /\
  submenuOrigin plainHelpOpen 0 0 =
  offset <- getDropdownOffset plainHelpOpen ;;
  Ok (offset, iadd 0 (Height (Env := env)
                        (Render (Env := env)
                                (Bar (ModelStyles plainHelpOpen)) "A"))).
Proof.
  assert (Hsel : Active plainHelpOpen = false
                 \/ OpenSubMenu plainHelpOpen <= Selection plainHelpOpen).
  { right. change (1 <= 1). lia. }
  assert (Hsep : forall j it, 0 <= j < OpenSubMenu plainHelpOpen ->
                              index (Items plainHelpOpen) j = Ok it ->
                              IsSeparator it = false).
  { intros j it Hj. change (OpenSubMenu plainHelpOpen) with 1 in Hj.
    assert (j = 0) by lia. subst j.
    intros Hi. injection Hi as <-. reflexivity. }
  split; [reflexivity|]. split; [exact Hsel|]. split; [exact Hsep|].
  apply (bar_offset_is_hit_origin plainHelpOpen);
    [reflexivity|exact Hsel|exact Hsep].
Defined.

Lemma bar_rendering_returns_witness :
  (forall s, String.length (ToLower (Env := env) s) = String.length s) /\
  (forall item, In item (Items demoBar) -> slen (Label item) <= max_int) /\
  exists v, ViewBarWithRightSide demoBar "12:00" 40 = Ok v.
Proof.
  assert (Hmax : forall item, In item (Items demoBar) ->
                              slen (Label item) <= max_int).
  { intros item [<-|[<-|[<-|[]]]]; unfold slen, max_int; simpl; lia. }
  split; [exact toLower_length|]. split; [exact Hmax|].
  apply (bar_rendering_returns demoBar "12:00" 40);
    [exact toLower_length|exact Hmax].
Defined.

(** ** Overlay *)

Lemma split_prefix_bounded_witness :
  Width (Env := env) "" <= 2 /\
  (Width (Env := env) (fst (splitWithANSI "abc" 2)) <= 2 \/
   splitWithANSI "abc" 2 = ("abc", "")).
Proof.
  assert (H0 : Width (Env := env) "" <= 2) by (change (0 <= 2); lia).
  split; [exact H0|].
  apply (split_prefix_bounded "abc" 2). exact H0.
Defined.

Lemma overlay_keeps_other_rows_witness :
  let r := ("aaa" ++ String newline ("bXb" ++ String newline "ccc"))%string in
  0 <= 1 /\
  1 + len (splitLines "X") <= max_int /\
  Overlay threeRows "X" 1 1 = Ok r /\
  (List.length (splitLines threeRows) <= List.length (splitLines r))%nat /\
  forall j : nat,
    (j < List.length (splitLines threeRows))%nat ->
    Z.of_nat j < 1 \/ 1 + len (splitLines "X") <= Z.of_nat j ->
    nth_error (splitLines r) j = nth_error (splitLines threeRows) j.
Proof.
  intros r.
  assert (Hmax : 1 + len (splitLines "X") <= max_int)
    by (unfold len, max_int; simpl; lia).
  split; [lia|]. split; [exact Hmax|]. split; [reflexivity|].
  apply (overlay_keeps_other_rows threeRows "X" 1 1 r);
    [lia|exact Hmax|reflexivity].
Defined.

Lemma overlay_negative_row_panics_witness :
  min_int <= -1 < 0 /\
  Overlay (E := env) "a" "b" 0 (-1) = Panic.
Proof.
  assert (Hy : min_int <= -1 < 0) by (unfold min_int; lia).
  split; [exact Hy|].
  apply (overlay_negative_row_panics "a" "b" 0 (-1)). exact Hy.
Defined.

Lemma overlay_below_background_witness :
  0 <= 2 /\
  len (splitLines "a") <= 5 /\
  5 + len (splitLines "b") <= max_int /\
  Overlay (E := env) "a" "b" 2 5 =
  Ok ("a" ++ String newline
        (joinLines (map (fun l => (spaces (Z.to_nat 2) ++ l)%string)
                        (splitLines "b"))))%string.
Proof.
  assert (Hy : len (splitLines "a") <= 5) by (unfold len; simpl; lia).
  assert (Hmax : 5 + len (splitLines "b") <= max_int)
    by (unfold len, max_int; simpl; lia).
  split; [lia|]. split; [exact Hy|]. split; [exact Hmax|].
  apply (overlay_below_background "a" "b" 2 5); [lia|exact Hy|exact Hmax].
Defined.

Lemma overlay_returns_witness :
  (forall s, 0 <= Width (Env := env) s) /\
  0 <= 1 <= max_int /\
  0 <= 1 /\
  1 + len (splitLines "X") <= max_int /\
  exists r, Overlay threeRows "X" 1 1 = Ok r.
Proof.
  assert (Hx : 0 <= 1 <= max_int) by (unfold max_int; lia).
  assert (Hmax : 1 + len (splitLines "X") <= max_int)
    by (unfold len, max_int; simpl; lia).
  split; [exact width_nonneg|]. split; [exact Hx|]. split; [lia|].
  split; [exact Hmax|].
  apply (overlay_returns threeRows "X" 1 1);
    [exact width_nonneg|exact Hx|lia|exact Hmax].
Defined.

(** ** Layers *)

Lemma dropdown_layers_follow_chain_witness :
  let layers := fst demoLayers in
  let offset := snd demoLayers in
  linked demoDeep = true /\
  ViewDropdownLayers demoDeep = Ok (layers, offset) /\
  List.length layers = openLevels demoDeep /\
  (layers = [] -> offset = 0) /\
  (forall l, nth_error layers 0 = Some l ->
             DropdownLayer.X l = 0 /\ DropdownLayer.Y l = 0 /\
             getDropdownOffset demoDeep = Ok offset) /\
  (forall k l c,
      nth_error layers k = Some l -> level demoDeep (S k) = Some c ->
      renderSingleDropdown c = Ok (DropdownLayer.Content l)) /\
  (forall k l l' c,
      nth_error layers k = Some l -> nth_error layers (S k) = Some l' ->
      level demoDeep (S k) = Some c ->
      DropdownLayer.X l'
      = iadd (DropdownLayer.X l)
             (Width (Env := env) (DropdownLayer.Content l)) /\
      DropdownLayer.Y l'
      = iadd (DropdownLayer.Y l) (iadd (Selection c) 1)).
Proof.
  intros layers offset. split; [reflexivity|]. split; [reflexivity|].
  apply (dropdown_layers_follow_chain demoDeep layers offset); reflexivity.
Defined.

Lemma nested_layer_row_is_hit_row_witness :
  let l0 := demoDropdownLayer 0 in
  let l1 := demoDropdownLayer 1 in
  isDropdown demoDropdown = true /\
  Selection demoDropdown = OpenSubMenu demoDropdown /\
  0 <= OpenSubMenu demoDropdown <= len (Items demoDropdown) /\
  len (Items demoDropdown) < max_int /\
  getLayersRecursive demoDropdown 0 0 = Ok [l0; l1] /\
  submenuOrigin demoDropdown 0 0 = Ok (14, 2) /\
  DropdownLayer.Y l1 = 2.
Proof.
  intros l0 l1.
  assert (Hopen : 0 <= OpenSubMenu demoDropdown <= len (Items demoDropdown)).
  { change (0 <= 1 <= 5). lia. }
  assert (Hmax : len (Items demoDropdown) < max_int).
  { change (5 < max_int). unfold max_int. lia. }
  split; [reflexivity|]. split; [reflexivity|]. split; [exact Hopen|].
  split; [exact Hmax|]. split; [reflexivity|]. split; [reflexivity|].
  apply (nested_layer_row_is_hit_row demoDropdown 0 0 l0 l1 [] 14 2);
    [reflexivity|reflexivity|exact Hopen|exact Hmax
    |reflexivity|reflexivity|reflexivity|reflexivity|reflexivity].
Defined.

Lemma dropdown_rendering_returns_witness :
  (forall s, String.length (ToLower (Env := env) s) = String.length s) /\
  (forall s, 0 <= Width (Env := env) s) /\
  maxLabelWidth (Items shortHintDropdown) + 2
  + rightColumnWidth (Items shortHintDropdown) <= max_int /\
  exists rows,
    List.length rows = List.length (Items shortHintDropdown) /\
    renderSingleDropdown shortHintDropdown
    = Ok (Render (Env := env) (Dropdown (ModelStyles shortHintDropdown))
                 (JoinVertical rows)).
Proof.
  assert (Hsum : maxLabelWidth (Items shortHintDropdown) + 2
                 + rightColumnWidth (Items shortHintDropdown) <= max_int).
  { change (1 + 2 + 2 <= max_int). unfold max_int. lia. }
  split; [exact toLower_length|]. split; [exact width_nonneg|].
  split; [exact Hsum|].
  apply (dropdown_rendering_returns shortHintDropdown);
    [exact toLower_length|exact width_nonneg|exact Hsum|].
  intros [|[|k]] item Hk; simpl in Hk; try (now destruct k);
    injection Hk as <-;
    (split; [unfold slen, max_int; simpl; lia|]);
    intros _ l Hl; injection Hl as <-;
    change (maxLabelWidth (Items shortHintDropdown)) with 1;
    [change (1 <= 1 + 2)|change (1 <= 1 + 2)]; lia.
Defined.

(** ** The example application *)

Lemma demoDeep_lacks_esc : childrenLackHotkey "esc" demoDeep.
Proof.
  rewrite childrenLackHotkey_eq. split; [reflexivity|].
  change (childrenLackHotkey "esc" demoDropdown).
  rewrite childrenLackHotkey_eq. split; [reflexivity|].
  rewrite childrenLackHotkey_eq. exact I.
Defined.

Lemma host_esc_unwinds_chain_witness :
  let actionStyle : Style (Env := env) := mkRStyle 0 false in
  wellFormed (Example.menubar unit demoHost) /\
  Active (Example.menubar unit demoHost) = true /\
  childrenLackHotkey "esc" (Example.menubar unit demoHost) /\
  Example.pressEsc unit actionStyle
    (openLevels (Example.menubar unit demoHost)) demoHost
  = Ok (Example.set_menubar unit demoHost
          (closeSubMenu (Example.menubar unit demoHost))) /\
  Example.pressEsc unit actionStyle
    (S (openLevels (Example.menubar unit demoHost))) demoHost
  = Ok (Example.set_menubar unit demoHost
          (set_Active (closeSubMenu (Example.menubar unit demoHost)) false)).
Proof.
  intros actionStyle.
  split; [exact demoDeep_wellFormed|]. split; [reflexivity|].
  split; [exact demoDeep_lacks_esc|].
  apply (host_esc_unwinds_chain unit actionStyle demoHost);
    [exact demoDeep_wellFormed|reflexivity|exact demoDeep_lacks_esc].
Defined.

Lemma host_esc_toggles_focus_witness :
  let actionStyle : Style (Env := env) := mkRStyle 0 false in
  let h := Example.mkHost unit demoBar false 80 24 "text" tt in
  OpenSubMenu (Example.menubar unit h) = -1 /\
  exists h1,
    Example.Update unit actionStyle h (Example.HostKeyMsg unit "esc")
    = Ok (h1, Example.menubarCmd None) /\
    Example.menubar unit h1
    = set_Active (Example.menubar unit h)
                 (negb (Active (Example.menubar unit h))) /\
    Example.Update unit actionStyle h1 (Example.HostKeyMsg unit "esc")
    = Ok (h, Example.menubarCmd None).
Proof.
  intros actionStyle h. split; [reflexivity|].
  apply (host_esc_toggles_focus unit actionStyle h). reflexivity.
Defined.
